(** * copyright-hook: the year pattern engine, the header update decision
      procedure, the change-set model and the commit history reconstructor.

    Python [str] values are modelled as lists of characters ([list ascii],
    a character being a code point below 256), Python [int] offsets as [Z],
    [dict] as [gmap], [set] as [gset], exceptions as the [Raise] result. *)

From Stdlib Require Import ZArith List Ascii String Bool Lia.
From stdpp Require Import base gmap sets list strings.

#[local] Open Scope Z_scope.
#[local] Open Scope nat_scope.

(** ** Python strings *)

Definition str := list ascii.

(** A literal: [lit "abc"] is the Python string ['abc']. *)
Definition lit (s : string) : str := list_ascii_of_string s.

(** [\d] on code points below 256: the ASCII digits. *)
Definition is_digit (c : ascii) : bool :=
  let n := nat_of_ascii c in (48 <=? n) && (n <=? 57).

(** [\s] on code points below 256: tab, LF, VT, FF, CR, the separators
    0x1c-0x1f, space, NEL (0x85) and the no-break space (0xa0). *)
Definition is_space (c : ascii) : bool :=
  let n := nat_of_ascii c in
  ((9 <=? n) && (n <=? 13)) || ((28 <=? n) && (n <=? 32))
  || (n =? 133) || (n =? 160).

Definition hyphen : ascii := "-"%char.

(** Python slice bounds: a negative bound counts from the end, and every
    bound is clipped to [0, len]. *)
Definition py_clip (len : nat) (i : Z) : nat :=
  if (i <? 0)%Z then Z.to_nat (Z.max 0 (Z.of_nat len + i))
  else Nat.min (Z.to_nat i) len.

(** [s[:i]] *)
Definition slice_to (s : str) (i : Z) : str := firstn (py_clip (length s) i) s.
(** [s[i:]] *)
Definition slice_from (s : str) (i : Z) : str := skipn (py_clip (length s) i) s.
(** [s[i:j]] *)
Definition slice (s : str) (i j : Z) : str :=
  let a := py_clip (length s) i in
  let b := py_clip (length s) j in
  firstn (b - a) (skipn a s).

(** [s.startswith(p)], returning what follows the prefix. *)
Fixpoint strip_prefix (p s : str) : option str :=
  match p with
  | [] => Some s
  | c :: p' =>
      match s with
      | [] => None
      | d :: s' => if Ascii.eqb c d then strip_prefix p' s' else None
      end
  end.

Definition startswith (s p : str) : bool :=
  match strip_prefix p s with Some _ => true | None => false end.

(** [hay.find(needle)]: the lowest index where [needle] occurs, or -1. *)
Fixpoint find_from (needle hay : str) (pos : nat) : Z :=
  if startswith hay needle then Z.of_nat pos
  else match hay with
       | [] => (-1)%Z
       | _ :: hay' => find_from needle hay' (S pos)
       end.

Definition find (hay needle : str) : Z := find_from needle hay 0.

(** [needle in hay] *)
Fixpoint contains (needle hay : str) : bool :=
  startswith hay needle
  || match hay with
     | [] => false
     | _ :: hay' => contains needle hay'
     end.

(** [sep.join([a, b])] for a pair. *)
Definition join2 (sep a b : str) : str := a ++ sep ++ b.

(** ** Exceptions *)

(** [OSError] stands for the error of the operating system on a file that
    cannot be read or written; its text is the system's and is left out. *)
Inductive exn := ValueError (msg : str) | IndexError (msg : str) | OSError.

Inductive result (A : Type) :=
| Ok (a : A)
| Raise (e : exn).
Arguments Ok {A} a.
Arguments Raise {A} e.

Definition bind {A B} (x : result A) (f : A → result B) : result B :=
  match x with
  | Ok a => f a
  | Raise e => Raise e
  end.

(** ** The regular expressions of [years_pattern.py]

    Only the constructs the module writes are modelled: literal text (what
    [re.escape] produces), greedy [\d+] and [\s*], concatenation, ordered
    alternation and named groups.  Matching is the backtracking search of
    [re]: greedy repetition tries the longest run first, alternation tries
    the left branch first, and [search] tries start offsets left to right. *)

Inductive cclass := Digit | Space.

Definition cclass_test (c : cclass) : ascii → bool :=
  match c with
  | Digit => is_digit
  | Space => is_space
  end.

Inductive gname := g_from | g_to | g_year.

Inductive regex :=
| Lit (l : str)
| Star (c : cclass)
| Plus (c : cclass)
| Seq (r1 r2 : regex)
| Alt (r1 r2 : regex)
| Group (g : gname) (r : regex).

(** The spans of the named groups that took part in a match. *)
Record captures := Captures {
  cap_from : option (nat * nat);
  cap_to : option (nat * nat);
  cap_year : option (nat * nat)
}.

Definition no_captures : captures := Captures None None None.

Definition get_cap (g : gname) (c : captures) : option (nat * nat) :=
  match g with
  | g_from => cap_from c
  | g_to => cap_to c
  | g_year => cap_year c
  end.

Definition set_cap (g : gname) (v : nat * nat) (c : captures) : captures :=
  match g with
  | g_from => Captures (Some v) (cap_to c) (cap_year c)
  | g_to => Captures (cap_from c) (Some v) (cap_year c)
  | g_year => Captures (cap_from c) (cap_to c) (Some v)
  end.

Definition cont := str → nat → captures → option captures.

(** Greedy repetition of a character class: consume while the class holds,
    and give characters back one at a time when what follows fails. *)
Fixpoint star_greedy (f : ascii → bool) (s : str) (pos : nat)
    (k : str → nat → option captures) : option captures :=
  match s with
  | c :: s' =>
      if f c then
        match star_greedy f s' (S pos) k with
        | Some r => Some r
        | None => k s pos
        end
      else k s pos
  | [] => k s pos
  end.

(** [rmatch r s pos caps k]: match [r] at the head of [s] (which sits at
    offset [pos] of the subject), then continue with [k]; [None] makes the
    matcher backtrack. *)
Fixpoint rmatch (r : regex) (s : str) (pos : nat) (caps : captures)
    (k : cont) : option captures :=
  match r with
  | Lit l =>
      match strip_prefix l s with
      | Some s' => k s' (pos + length l) caps
      | None => None
      end
  | Star c => star_greedy (cclass_test c) s pos (fun s' p' => k s' p' caps)
  | Plus c =>
      match s with
      | x :: s' =>
          if cclass_test c x
          then star_greedy (cclass_test c) s' (S pos) (fun s' p' => k s' p' caps)
          else None
      | [] => None
      end
  | Seq r1 r2 => rmatch r1 s pos caps (fun s' p' c' => rmatch r2 s' p' c' k)
  | Alt r1 r2 =>
      match rmatch r1 s pos caps k with
      | Some c => Some c
      | None => rmatch r2 s pos caps k
      end
  | Group g r1 =>
      rmatch r1 s pos caps (fun s' p' c' => k s' p' (set_cap g (pos, p') c'))
  end.

Definition accept : cont := fun _ _ c => Some c.

(** The match of [r] anchored at offset [pos], if any. *)
Definition match_at (r : regex) (s : str) (pos : nat) : option captures :=
  rmatch r s pos no_captures accept.

Fixpoint search_from (r : regex) (s : str) (pos : nat) : option captures :=
  match match_at r s pos with
  | Some c => Some c
  | None =>
      match s with
      | [] => None
      | _ :: s' => search_from r s' (S pos)
      end
  end.

(** A [re.Match]: the subject string and the group spans. *)
Record Match := mkMatch {
  m_string : str;
  m_caps : captures
}.

(** [regexp.search(content)] *)
Definition re_search (r : regex) (content : str) : option Match :=
  match search_from r content 0 with
  | Some c => Some (mkMatch content c)
  | None => None
  end.

(** [m.span(g)]: (-1, -1) for a group that did not take part. *)
Definition span (m : Match) (g : gname) : Z * Z :=
  match get_cap g (m_caps m) with
  | Some (a, b) => (Z.of_nat a, Z.of_nat b)
  | None => ((-1)%Z, (-1)%Z)
  end.

(** [m.groupdict()[g]]: [None] for a group that did not take part. *)
Definition groupdict (m : Match) (g : gname) : option str :=
  match get_cap g (m_caps m) with
  | Some (a, b) => Some (firstn (b - a) (skipn a (m_string m)))
  | None => None
  end.

(** Truth value of an optional string: [None] and [''] are false. *)
Definition truthy (o : option str) : bool :=
  match o with
  | Some (_ :: _) => true
  | _ => false
  end.

(** ** [years_pattern.py] *)

(** What [extract] returns besides [None], and what [replace] is given:
    a single year or a pair. *)
Inductive years :=
| YSingle (y : str)
| YRange (y_from y_to : str).

Module YearsPattern.

Definition placeholder : str := lit "{years}".
Definition r_single_year : regex := Group g_year (Plus Digit).
Definition r_year_range : regex :=
  Seq (Group g_from (Plus Digit))
    (Seq (Star Space) (Seq (Lit [hyphen]) (Seq (Star Space) (Group g_to (Plus Digit))))).
Definition r_year_or_range : regex :=
  Seq (Star Space) (Seq (Alt r_year_range r_single_year) (Star Space)).

Record t := Build { regexp : regex }.

(** The text of the template before and after the placeholder. *)
Definition p_start (pattern : str) : Z := find pattern placeholder.
Definition p_end (pattern : str) : Z := (p_start pattern + Z.of_nat (length placeholder))%Z.
Definition prefix (pattern : str) : str := slice_to pattern (p_start pattern).
Definition suffix (pattern : str) : str := slice_from pattern (p_end pattern).

(** [re.escape(prefix) + r_year_or_range + re.escape(suffix)] *)
Definition re_pattern (pre suf : str) : regex :=
  Seq (Lit pre) (Seq r_year_or_range (Lit suf)).

Definition init (pattern : str) : result t :=
  if negb (contains placeholder pattern)
  then Raise (ValueError (lit "Pattern must contain '" ++ placeholder ++ lit "'"))
  else Ok (Build (re_pattern (prefix pattern) (suffix pattern))).

Definition extract (self : t) (content : str) : option years :=
  match re_search (regexp self) content with
  | None => None
  | Some regexp_match =>
      if truthy (groupdict regexp_match g_from) && truthy (groupdict regexp_match g_to)
      then
        match groupdict regexp_match g_from, groupdict regexp_match g_to with
        | Some f, Some t => Some (YRange f t)
        | _, _ => None
        end
      else
        match groupdict regexp_match g_year with
        | Some y => Some (YSingle y)
        | None => None
        end
  end.

Definition replace (self : t) (content : str) (new_range : years) : result str :=
  match re_search (regexp self) content with
  | None => Raise (ValueError (lit "no copyright years in content"))
  | Some regexp_match =>
      if truthy (groupdict regexp_match g_from) && truthy (groupdict regexp_match g_to)
      then
        let '(from_start, from_end) := span regexp_match g_from in
        let '(to_start, to_end) := span regexp_match g_to in
        match new_range with
        | YRange r_from r_to =>
            Ok (slice_to content from_start ++ r_from
                ++ slice content from_end to_start ++ r_to
                ++ slice_from content to_end)
        | YSingle y =>
            Ok (slice_to content from_start ++ y ++ slice_from content to_end)
        end
      else
        let formatted_new_range :=
          match new_range with
          | YRange r_from r_to => join2 [hyphen] r_from r_to
          | YSingle y => y
          end in
        let '(start, end_) := span regexp_match g_year in
        Ok (slice_to content start ++ formatted_new_range ++ slice_from content end_)
  end.

End YearsPattern.

(** ** [copyright.py]: the header update decision procedure *)

Definition NO_COPYRIGHT_HEADER_FOUND : str := lit "no copyright comment found".
Definition RANGE_USED_FOR_A_SINGLE_YEAR : str := lit "range syntax is used for a single year".

(** [f"expected year {last_year}, actual is {actual}"] *)
Definition expected_year_message (last_year actual : str) : str :=
  lit "expected year " ++ last_year ++ lit ", actual is " ++ actual.

Definition str_eqb (a b : str) : bool := bool_decide (a = b).

Definition update_file (content last_year : str) (pattern : YearsPattern.t)
    (current_year : str) (required : bool) : result (option str * str) :=
  match YearsPattern.extract pattern content with
  | None =>
      if required then Ok (Some NO_COPYRIGHT_HEADER_FOUND, content)
      else Ok (None, content)
  | Some (YRange y_from y_to) =>
      if str_eqb y_from y_to then
        let err_message := RANGE_USED_FOR_A_SINGLE_YEAR in
        if str_eqb y_from current_year then
          bind (YearsPattern.replace pattern content (YSingle current_year))
            (fun c => Ok (Some err_message, c))
        else
          bind (YearsPattern.replace pattern content (YRange y_from current_year))
            (fun c => Ok (Some err_message, c))
      else if str_eqb last_year y_to then Ok (None, content)
      else
        bind (YearsPattern.replace pattern content (YRange y_from current_year))
          (fun c => Ok (Some (expected_year_message last_year y_to), c))
  | Some (YSingle years) =>
      if str_eqb years last_year then Ok (None, content)
      else
        let new_range := YRange years current_year in
        bind (YearsPattern.replace pattern content new_range)
          (fun c => Ok (Some (expected_year_message last_year years), c))
  end.

(** ** [git_utilities.py]: the change-set model

    [PurePath] comes from [pathlib]; it is taken as a parameter: any function
    from strings to a type of paths with decidable equality. *)

Definition tab : ascii := "009"%char.

(** [s.split(sep)] for a one-character separator. *)
Fixpoint split_on (sep : ascii) (s : str) : list str :=
  match s with
  | [] => [[]]
  | c :: s' =>
      if Ascii.eqb c sep then [] :: split_on sep s'
      else match split_on sep s' with
           | h :: t => (c :: h) :: t
           | [] => [[c]]
           end
  end.

(** The line boundaries of [str.splitlines] below code point 256, CR apart. *)
Definition is_linebreak (c : ascii) : bool :=
  let n := nat_of_ascii c in
  ((10 <=? n) && (n <=? 12)) || ((28 <=? n) && (n <=? 30)) || (n =? 133).

Definition CR : ascii := "013"%char.
Definition LF : ascii := "010"%char.

(** [s.splitlines()]: [cur] holds the current line, reversed. *)
Fixpoint splitlines_aux (cur : str) (s : str) : list str :=
  match s with
  | [] => match cur with [] => [] | _ => [rev cur] end
  | c :: s' =>
      if Ascii.eqb c CR then
        match s' with
        | d :: s'' =>
            if Ascii.eqb d LF then rev cur :: splitlines_aux [] s''
            else rev cur :: splitlines_aux [] s'
        | [] => rev cur :: splitlines_aux [] s'
        end
      else if is_linebreak c then rev cur :: splitlines_aux [] s'
      else splitlines_aux (c :: cur) s'
  end.

Definition splitlines (s : str) : list str := splitlines_aux [] s.

(** [xs[:-1], xs[-1]] of a non-empty list. *)
Fixpoint split_last {A} (l : list A) : option (list A * A) :=
  match l with
  | [] => None
  | [x] => Some ([], x)
  | x :: l' =>
      match split_last l' with
      | Some (init, z) => Some (x :: init, z)
      | None => None
      end
  end.

(** [change_type, *extra_files, dst = item] *)
Definition unpack_item (item : list str) : result (str * list str * str) :=
  match item with
  | change_type :: rest =>
      match split_last rest with
      | Some (extra_files, dst) => Ok (change_type, extra_files, dst)
      | None =>
          Raise (ValueError (lit "not enough values to unpack (expected at least 2, got 1)"))
      end
  | [] => Raise (ValueError (lit "not enough values to unpack (expected at least 2, got 0)"))
  end.

(** The argument of [parse]: a list of lines or one string. *)
Inductive lines_arg :=
| LinesList (lines : list str)
| LinesStr (text : str).

Module GitChangeSet.
Section WithPath.
Context {path : Type} `{Countable path} (PurePath : str → path).

Record t := Build {
  items : list (list str);
  changed_files : gset path;
  moved_files : list (path * path);
  touched_files : gset path
}.

(** The three derived fields while [__post_init__] runs. *)
Definition fields : Type := gset path * list (path * path) * gset path.

(** One turn of the loop of [__post_init__]. *)
Definition post_init_step (st : fields) (item : list str) : result fields :=
  let '(changed, moved, touched) := st in
  match unpack_item item with
  | Raise e => Raise e
  | Ok (change_type, extra_files, dst) =>
      let touched := touched ∪ {[PurePath dst]} in
      if startswith change_type (lit "R") then
        let changed :=
          if negb (str_eqb change_type (lit "R100"))
          then changed ∪ {[PurePath dst]} else changed in
        match extra_files with
        | src :: _ => Ok (changed, moved ++ [(PurePath src, PurePath dst)], touched)
        | [] => Raise (IndexError (lit "list index out of range"))
        end
      else Ok (changed ∪ {[PurePath dst]}, moved, touched)
  end.

Fixpoint post_init_loop (st : fields) (its : list (list str)) : result fields :=
  match its with
  | [] => Ok st
  | item :: its' =>
      match post_init_step st item with
      | Ok st' => post_init_loop st' its'
      | Raise e => Raise e
      end
  end.

(** [GitChangeSet(items)]: the dataclass constructor followed by
    [__post_init__]. *)
Definition init (its : list (list str)) : result t :=
  match post_init_loop (∅, [], ∅) its with
  | Ok (changed, moved, touched) => Ok (Build its changed moved touched)
  | Raise e => Raise e
  end.

(** [__bool__] *)
Definition to_bool (self : t) : bool :=
  match items self with [] => false | _ => true end.

(** [if line]: a string is true when it is not empty. *)
Definition nonempty (line : str) : bool :=
  match line with [] => false | _ => true end.

Definition parse (lines : lines_arg) : result t :=
  let lines :=
    match lines with
    | LinesStr text => splitlines text
    | LinesList l => l
    end in
  init (map (split_on tab) (filter (fun line => nonempty line = true) lines)).

End WithPath.
End GitChangeSet.

(** ** [git_utilities.py]: commits, and [copyright.py]: the history replay *)

Section History.
Context {path : Type} `{Countable path} {datetime : Type}.

Record GitCommitInfo := mkCommit {
  author_date : datetime;
  changes : GitChangeSet.t (path := path)
}.

(** [GitCommitInfo(author_date, changes)]: [changes or GitChangeSet([])]. *)
Definition commit_info (date : datetime) (chg : option (GitChangeSet.t (path := path)))
    : GitCommitInfo :=
  let empty := GitChangeSet.Build [] ∅ [] ∅ in
  mkCommit date
    match chg with
    | Some c => if GitChangeSet.to_bool c then c else empty
    | None => empty
    end.

(** The loop over [moved_files] of one commit. *)
Definition propagate_moves (moved : list (path * path))
    (last_modified_dict : gmap path datetime) : gmap path datetime :=
  fold_left
    (fun d '(src, dst) =>
       match d !! src with
       | Some v => <[dst := v]> d
       | None => d
       end)
    moved last_modified_dict.

(** The loop over [changed_files] of one commit. *)
Definition overwrite_changed (changed : gset path) (date : datetime)
    (last_modified_dict : gmap path datetime) : gmap path datetime :=
  set_fold (fun file d => <[file := date]> d) last_modified_dict changed.

(** The body of the loop over the commits. *)
Definition replay_commit (last_modified_dict : gmap path datetime)
    (commit : GitCommitInfo) : gmap path datetime :=
  overwrite_changed (GitChangeSet.changed_files (changes commit)) (author_date commit)
    (propagate_moves (GitChangeSet.moved_files (changes commit)) last_modified_dict).

Definition compute_last_modified_dict (commits : list GitCommitInfo)
    : gmap path datetime :=
  fold_left replay_commit (rev commits) ∅.

End History.

(** ** Declarative reading of the regular expressions

    [matches r s pos caps s' pos' caps']: [r] can consume a prefix of [s],
    leaving [s'] at offset [pos'] with the captures [caps']. *)

Fixpoint matches (r : regex) (s : str) (pos : nat) (caps : captures)
    (s' : str) (pos' : nat) (caps' : captures) : Prop :=
  match r with
  | Lit l => s = l ++ s' ∧ pos' = pos + length l ∧ caps' = caps
  | Star c =>
      ∃ a, s = a ++ s' ∧ Forall (fun x => cclass_test c x = true) a
           ∧ pos' = pos + length a ∧ caps' = caps
  | Plus c =>
      ∃ a, s = a ++ s' ∧ a ≠ [] ∧ Forall (fun x => cclass_test c x = true) a
           ∧ pos' = pos + length a ∧ caps' = caps
  | Seq r1 r2 =>
      ∃ s1 p1 c1, matches r1 s pos caps s1 p1 c1 ∧ matches r2 s1 p1 c1 s' pos' caps'
  | Alt r1 r2 =>
      matches r1 s pos caps s' pos' caps' ∨ matches r2 s pos caps s' pos' caps'
  | Group g r1 =>
      ∃ c1, matches r1 s pos caps s' pos' c1 ∧ caps' = set_cap g (pos, pos') c1
  end.

(** ** The shape of a located header *)

Definition all_digits (s : str) : Prop := Forall (fun c => is_digit c = true) s.
Definition all_space (s : str) : Prop := Forall (fun c => is_space c = true) s.

(** A year token as it stands in the text: a single year, or a range with
    the white space on either side of its hyphen. *)
Inductive token :=
| TSingle (y : str)
| TRange (f w2 w3 t : str).

Definition token_text (tok : token) : str :=
  match tok with
  | TSingle y => y
  | TRange f w2 w3 t => f ++ w2 ++ [hyphen] ++ w3 ++ t
  end.

Definition token_ok (tok : token) : Prop :=
  match tok with
  | TSingle y => y ≠ [] ∧ all_digits y
  | TRange f w2 w3 t =>
      f ≠ [] ∧ all_digits f ∧ all_space w2 ∧ all_space w3 ∧ t ≠ [] ∧ all_digits t
  end.

(** The group spans of a token that starts at offset [pos]. *)
Definition token_caps (pos : nat) (tok : token) : captures :=
  match tok with
  | TSingle y => Captures None None (Some (pos, pos + length y))
  | TRange f w2 w3 t =>
      let ts := pos + length f + length w2 + 1 + length w3 in
      Captures (Some (pos, pos + length f)) (Some (ts, ts + length t)) None
  end.

(** What [extract] reports for a token. *)
Definition token_years (tok : token) : years :=
  match tok with
  | TSingle y => YSingle y
  | TRange f _ _ t => YRange f t
  end.

(** The text [replace] writes in the place of a token. *)
Definition token_rewrite (tok : token) (new_range : years) : str :=
  match tok, new_range with
  | TRange _ w2 w3 _, YRange r_from r_to => r_from ++ w2 ++ [hyphen] ++ w3 ++ r_to
  | TRange _ _ _ _, YSingle y => y
  | TSingle _, YRange r_from r_to => r_from ++ [hyphen] ++ r_to
  | TSingle _, YSingle y => y
  end.

(** [s] starts with a header of the template [pre{years}suf]. *)
Definition header_here (pre suf : str) (s : str) (w1 : str) (tok : token) (tl : str) : Prop :=
  ∃ w4 rest, s = pre ++ w1 ++ token_text tok ++ tl ∧ tl = w4 ++ suf ++ rest
             ∧ all_space w1 ∧ all_space w4 ∧ token_ok tok.

(** The last and the first character of a string that is not white space. *)
Definition first_nonspace (s : str) : option ascii :=
  List.find (fun c => negb (is_space c)) s.
Definition last_nonspace (s : str) : option ascii := first_nonspace (rev s).

(** ** Vocabulary of the statements *)

(** [s] does not start with a character of the class. *)
Definition no_head (f : ascii → bool) (s : str) : Prop :=
  match s with
  | [] => True
  | c :: _ => f c = false
  end.

(** [content] has a header at offset [length u], and none further left. *)
Definition located (pre suf content u w1 : str) (tok : token) (tl : str) : Prop :=
  content = u ++ pre ++ w1 ++ token_text tok ++ tl
  ∧ header_here pre suf (pre ++ w1 ++ token_text tok ++ tl) w1 tok tl
  ∧ ∀ u1 u2 w1' tok' tl', u = u1 ++ u2 → u2 ≠ [] →
      ¬ header_here pre suf (u2 ++ pre ++ w1 ++ token_text tok ++ tl) w1' tok' tl'.

(** The ends of what [extract] reports. *)
Definition year_lower (ys : years) : str :=
  match ys with YSingle y => y | YRange f _ => f end.
Definition year_upper (ys : years) : str :=
  match ys with YSingle y => y | YRange _ t => t end.

(** A range whose ends differ, or a single year. *)
Definition non_degenerate (ys : years) : Prop :=
  match ys with YSingle _ => True | YRange f t => f ≠ t end.

(** The token with its upper end replaced: a range keeps its lower end and
    its white space, a single year becomes the range [y-current]. *)
Definition grown (tok : token) (current_year : str) : token :=
  match tok with
  | TSingle y => TRange y [] [] current_year
  | TRange f w2 w3 _ => TRange f w2 w3 current_year
  end.

(** A year field as [extract] returns it: digits, at least [n] of them. *)
Definition year_field (n : nat) (s : str) : Prop := n ≤ length s ∧ all_digits s.

Definition year_fields (n : nat) (ys : years) : Prop :=
  match ys with
  | YSingle y => year_field n y
  | YRange f t => year_field n f ∧ year_field n t
  end.

(** The templates for which a rewritten header is found again: before the
    placeholder, the last character that is not white space is neither a
    digit nor a hyphen; after the placeholder there is no digit. *)
Definition plain_prefix (pre : str) : Prop :=
  ∃ p, last_nonspace pre = Some p ∧ is_digit p = false ∧ p ≠ hyphen.

Definition digit_free (s : str) : Prop := Forall (λ c, is_digit c = false) s.

(** After the placeholder, the first character that is not white space
    exists and is not a hyphen. *)
Definition closed_suffix (suf : str) : Prop :=
  ∃ q, first_nonspace suf = Some q ∧ q ≠ hyphen.

Definition starts_digit (s : str) : Prop := ∃ d s', s = d :: s' ∧ is_digit d = true.
Definition ends_nondigit (s : str) : Prop := ∀ c, last s = Some c → is_digit c = false.

(** The inputs on which a second run has nothing left to report: a missing
    header is not required; a header is not a range that starts at [year]
    and ends at another year; and a header that is the range [year]-[year]
    stands in a template with a closed suffix. *)
Definition settles (required : bool) (found : option years) (year suf : str) : Prop :=
  match found with
  | None => required = false
  | Some ys =>
      (year_lower ys = year → year_upper ys = year)
      ∧ (ys = YRange year year → closed_suffix suf)
  end.

(** [update_file] applied to the content a first application returns. *)
Definition update_file_again (tmpl content last_year current_year : str)
    (required : bool) : result (option str * str) :=
  bind (YearsPattern.init tmpl) (λ pat,
    bind (update_file content last_year pat current_year required) (λ r,
      update_file (snd r) last_year pat current_year required)).

(** ** Vocabulary of the further statements *)

(** What [update_file] hands to [replace] when it reports a header: the
    single current year for the range [current-current], and otherwise the
    range from the lower end to the current year. *)
Definition rewritten_years (ys : years) (current_year : str) : years :=
  match ys with
  | YSingle y => YRange y current_year
  | YRange f t =>
      if str_eqb f t && str_eqb f current_year then YSingle current_year
      else YRange f current_year
  end.

(** The token that stands in the text after [replace] has written
    [new_range] over [tok]. *)
Definition token_written (tok : token) (new_range : years) : token :=
  match tok, new_range with
  | TRange _ w2 w3 _, YRange r_from r_to => TRange r_from w2 w3 r_to
  | TSingle _, YRange r_from r_to => TRange r_from [] [] r_to
  | _, YSingle y => TSingle y
  end.

(** The number of tab characters of a line. *)
Definition tabs (line : str) : nat :=
  length (filter (λ c, c = tab) line).

Section ChangeSetVocabulary.
Context {path : Type} `{Countable path} (PurePath : str → path).

(** What one record adds to each field of a change set. *)
Definition record_dst (item : list str) : option path :=
  match unpack_item item with
  | Ok (_, _, dst) => Some (PurePath dst)
  | Raise _ => None
  end.

Definition record_changed (item : list str) : option path :=
  match unpack_item item with
  | Ok (change_type, _, dst) =>
      if str_eqb change_type (lit "R100") then None else Some (PurePath dst)
  | Raise _ => None
  end.

Definition record_moved (item : list str) : option (path * path) :=
  match unpack_item item with
  | Ok (change_type, src :: _, dst) =>
      if startswith change_type (lit "R") then Some (PurePath src, PurePath dst)
      else None
  | _ => None
  end.

End ChangeSetVocabulary.

Section HistoryVocabulary.
Context {path : Type} `{Countable path} {datetime : Type}.

(** The commit changes the content of [p], or renames a file to [p]. *)
Definition writes_to (c : GitCommitInfo (path := path) (datetime := datetime))
    (p : path) : Prop :=
  p ∈ GitChangeSet.changed_files (changes c)
  ∨ ∃ src, (src, p) ∈ GitChangeSet.moved_files (changes c).

End HistoryVocabulary.

(** ** [copyright.py]: the run over the files

    [run_copyright_updater] from the point where the command line, the
    repository, the list of files and the configuration are at hand (the
    statements after [# Scan commit history]).  Its inputs are the values
    the statements before that point produce: [args], [files], [config], the
    result of [repo.commits(...)], the result of [repo.staged_changeset()]
    and [now].  The files of the working tree are a map from the relative
    path to the decoded text, line ends as they stand in the file; a path
    without an entry stands for a file whose bytes are not UTF-8, on which
    [read_text] raises [UnicodeDecodeError].  [read_text] and [write_text]
    open the file in text mode: reading turns every line end into a line
    feed, writing turns every line feed into [os.linesep]; and either raises
    [OSError] on a file the operating system refuses, which the run does not
    catch.  Every datetime that reaches the run carries a time zone, so [<]
    is total;
    [year_of d] is [str(d.year)].  What the run prints is kept as the list
    of the messages, each with the values its text is formatted from. *)

(** Reading in text mode with [newline=None]: [\r\n] and [\r] become
    [\n]. *)
Fixpoint universal_newlines (s : str) : str :=
  match s with
  | [] => []
  | c :: s' =>
      if Ascii.eqb c CR then
        match s' with
        | d :: s'' =>
            if Ascii.eqb d LF then LF :: universal_newlines s''
            else LF :: universal_newlines s'
        | [] => [LF]
        end
      else c :: universal_newlines s'
  end.

(** Writing in text mode with [newline=None]: [\n] becomes [os.linesep]. *)
Definition write_newlines (linesep : str) (s : str) : str :=
  flat_map (fun c => if Ascii.eqb c LF then linesep else [c]) s.

(** The operating system as the run meets it: [os.linesep], and the files
    on which opening for reading, or for writing, fails. *)
Module OS.
Section WithPath.
Context {path : Type}.

Record t := Build {
  linesep : str;
  read_fails : path → bool;
  write_fails : path → bool
}.

End WithPath.
End OS.

Module Args.
Record t := Build {
  required : bool;
  verbose : bool;
  dry_run : bool
}.
End Args.

Module CopyrightConfig.
Section WithTypes.
Context {path datetime : Type}.

Record t := Build {
  license_file : path;
  ignore_commits_before : option datetime;
  pattern : YearsPattern.t
}.

End WithTypes.

(** [config.py]: the constructor, from the mapping the YAML loader returns.
    A value of the mapping is [None], a string, a datetime with or without a
    time zone, a date, or any other object; [py_str] is [str(value)] as the
    messages show it.  [replace_utc d] is [d.replace(tzinfo=timezone.utc)]
    and [combine_utc d] is [datetime.combine(d, time.min, tzinfo=timezone.utc)]. *)
Section Load.
Context {path datetime naive date other : Type}.
Context (PurePath : str → path)
        (replace_utc : naive → datetime) (combine_utc : date → datetime).

Inductive value :=
| VNone
| VStr (s : str)
| VAware (d : datetime)
| VNaive (d : naive)
| VDate (d : date)
| VOther (v : other).

Context (py_str : value → str).

(** The argument [types] of [_get]: left out, or [str]; and the values that
    pass [isinstance(value, types)]. *)
Inductive types_arg := AnyType | StrType.

Definition narrowed (types : types_arg) : Type :=
  match types with AnyType => value | StrType => str end.

Definition isinstance (v : value) (types : types_arg) : option (narrowed types) :=
  match types with
  | AnyType => Some v
  | StrType => match v with VStr s => Some s | _ => None end
  end.

Definition _get {A : Type} (raw : gmap str value) (key : str) (types : types_arg)
    (parser : narrowed types → result A) (default : option A) : result A :=
  match raw !! key with
  | None =>
      match default with
      | None => Raise (ValueError (lit "missing `" ++ key ++ lit "` in config"))
      | Some d => Ok d
      end
  | Some v =>
      match isinstance v types with
      | None =>
          Raise (ValueError (lit "`" ++ key ++ lit "`=" ++ py_str v
                             ++ lit " has wrong type, expected <class 'str'>"))
      | Some x => parser x
      end
  end.

Definition _parse_datetime (v : value) : result (option datetime) :=
  match v with
  | VNone => Ok None
  | VAware d => Ok (Some d)
  | VNaive d => Ok (Some (replace_utc d))
  | VDate d => Ok (Some (combine_utc d))
  | _ => Raise (ValueError (lit "expected timestamp or null, found " ++ py_str v))
  end.

(** [__init__] *)
Definition init (config : gmap str value)
    : result (t (path := path) (datetime := datetime)) :=
  bind (_get config (lit "ignore_commits_before") AnyType _parse_datetime (Some None))
    (fun ignore_commits_before =>
  bind (_get config (lit "pattern") StrType YearsPattern.init None)
    (fun pattern =>
  bind (_get config (lit "license_file") StrType (fun s => Ok (PurePath s))
          (Some (PurePath (lit "LICENSE"))))
    (fun license_file =>
  Ok (Build license_file ignore_commits_before pattern)))).

(** What [_parse_datetime] accepts, and the datetime it makes of it. *)
Definition timestamp_or_null (v : value) : Prop :=
  match v with
  | VNone | VAware _ | VNaive _ | VDate _ => True
  | _ => False
  end.

Definition as_datetime (v : value) : option datetime :=
  match v with
  | VAware d => Some d
  | VNaive d => Some (replace_utc d)
  | VDate d => Some (combine_utc d)
  | _ => None
  end.

End Load.
End CopyrightConfig.

Section Run.
Context {path : Type} `{Countable path} {datetime : Type}.
Context (year_of : datetime → str) (lt : datetime → datetime → bool).
Context (os : OS.t (path := path)).

Inductive message :=
| NoCommits
| CommittedAt (rel_path : path) (last_change_datetime : option datetime)
| HasStagedChanges (rel_path : path)
| IsLicenseFile (rel_path : path) (last_change_datetime : option datetime)
| IgnoredUnknown (rel_path : path)
| IgnoredTooOld (rel_path : path)
| NotUtf8 (rel_path : path)
| Diagnostic (rel_path : path) (error_comment : str)
| FileOk (rel_path : path) (shown_year : option str).

Definition is_None {A} (x : option A) : bool :=
  match x with None => true | Some _ => false end.

Definition print (m : message) (printed : list message) : list message :=
  printed ++ [m].

Definition print_verbose (args : Args.t) (m : message) (printed : list message)
    : list message :=
  if Args.verbose args then print m printed else printed.

(** [success], the files of the working tree, and what was printed. *)
Definition run_state : Type := bool * gmap path str * list message.

(** [Path(full_path).read_text("utf-8")]: [None] stands for
    [UnicodeDecodeError]. *)
Definition read_text (tree : gmap path str) (rel_path : path) : result (option str) :=
  if OS.read_fails os rel_path then Raise OSError
  else Ok (universal_newlines <$> tree !! rel_path).

(** [Path(full_path).write_text(content, "utf-8")] *)
Definition write_text (tree : gmap path str) (rel_path : path) (content : str)
    : result (gmap path str) :=
  if OS.write_fails os rel_path then Raise OSError
  else Ok (<[rel_path := write_newlines (OS.linesep os) content]> tree).

(** The body of the loop [for rel_path in files]. *)
Definition check_file (args : Args.t)
    (config : CopyrightConfig.t (path := path) (datetime := datetime))
    (staged_changes : GitChangeSet.t (path := path)) (now : datetime)
    (last_repo_modification_datetime : option datetime)
    (last_modified_dict : gmap path datetime)
    (st : run_state) (rel_path : path) : result run_state :=
  let '(success, tree, printed) := st in
  let '(last_change_datetime, printed) :=
    if bool_decide (rel_path ≠ CopyrightConfig.license_file config) then
      let last_change_datetime := last_modified_dict !! rel_path in
      (last_change_datetime,
       if bool_decide (rel_path ∉ GitChangeSet.changed_files staged_changes)
       then print_verbose args (CommittedAt rel_path last_change_datetime) printed
       else print_verbose args (HasStagedChanges rel_path) printed)
    else
      (last_repo_modification_datetime,
       print_verbose args (IsLicenseFile rel_path last_repo_modification_datetime)
         printed) in
  match last_change_datetime with
  | None => Ok (success, tree, print_verbose args (IgnoredUnknown rel_path) printed)
  | Some last_change =>
      if match CopyrightConfig.ignore_commits_before config with
         | Some before => lt last_change before
         | None => false
         end
      then Ok (success, tree, print_verbose args (IgnoredTooOld rel_path) printed)
      else
        let expected_year := year_of last_change in
        bind (read_text tree rel_path) (fun read =>
        match read with
        | None => Ok (success, tree, print_verbose args (NotUtf8 rel_path) printed)
        | Some content =>
            bind (update_file content expected_year (CopyrightConfig.pattern config)
                    (year_of now) (Args.required args))
              (fun '(error_comment, content) =>
                 let success := success && is_None error_comment in
                 if truthy error_comment then
                   let printed :=
                     print (Diagnostic rel_path (default [] error_comment)) printed in
                   if Args.dry_run args then Ok (success, tree, printed)
                   else bind (write_text tree rel_path content)
                          (fun tree => Ok (success, tree, printed))
                 else if Args.verbose args then
                   let years := YearsPattern.extract (CopyrightConfig.pattern config)
                                  content in
                   Ok (success, tree,
                       print_verbose args
                         (FileOk rel_path
                            (if is_None years then None else Some expected_year))
                         printed)
                 else Ok (success, tree, printed))
        end)
  end.

Fixpoint for_each {A S} (body : S → A → result S) (l : list A) (st : S) : result S :=
  match l with
  | [] => Ok st
  | x :: l' => bind (body st x) (for_each body l')
  end.

Definition run_copyright_updater (args : Args.t) (files : list path)
    (config : CopyrightConfig.t (path := path) (datetime := datetime))
    (repo_commits : list (GitCommitInfo (path := path) (datetime := datetime)))
    (staged_changes : GitChangeSet.t (path := path)) (now : datetime)
    (tree : gmap path str) : result (bool * gmap path str * list message) :=
  let commits :=
    if GitChangeSet.to_bool staged_changes
    then commit_info now (Some staged_changes) :: repo_commits
    else repo_commits in
  match commits with
  | [] => Ok (false, tree, print_verbose args NoCommits [])
  | newest :: _ =>
      let last_repo_modification_datetime := Some (author_date newest) in
      let last_modified_dict := compute_last_modified_dict commits in
      bind (for_each
              (check_file args config staged_changes now
                 last_repo_modification_datetime last_modified_dict)
              files (true, tree, []))
        (fun '(success, tree, printed) => Ok (negb success, tree, printed))
  end.

Definition is_diagnostic (m : message) : bool :=
  match m with Diagnostic _ _ => true | _ => false end.

End Run.

Section RunVocabulary.
Context {path : Type} `{Countable path} {datetime : Type}.
Context (year_of : datetime → str) (os : OS.t (path := path)) (args : Args.t)
        (config : CopyrightConfig.t (path := path) (datetime := datetime))
        (now : datetime).

(** What one turn of the loop does when it raises nothing: it prints, and
    either leaves [success] and the tree alone and prints no diagnostic, or
    it has read the file, [update_file] has reported the text read,
    [success] is cleared, one diagnostic is printed and, unless the run is
    dry, the returned text is written. *)
Inductive turn (rel_path : path) : run_state → run_state → Prop :=
| turn_quiet success tree printed new :
    filter (is_diagnostic (path := path) (datetime := datetime)) new = [] →
    turn rel_path (success, tree, printed) (success, tree, printed ++ new)
| turn_reported success tree printed new raw last_change d c :
    tree !! rel_path = Some raw →
    update_file (universal_newlines raw) (year_of last_change)
      (CopyrightConfig.pattern config) (year_of now) (Args.required args)
    = Ok (Some d, c) →
    filter (is_diagnostic (path := path) (datetime := datetime)) new
    = [Diagnostic rel_path d] →
    turn rel_path (success, tree, printed)
      (false,
       (if Args.dry_run args then tree
        else <[rel_path := write_newlines (OS.linesep os) c]> tree),
       printed ++ new).

Inductive turns : list path → run_state → run_state → Prop :=
| turns_nil st : turns [] st st
| turns_cons rel_path files st st1 st' :
    turn rel_path st st1 → turns files st1 st' → turns (rel_path :: files) st st'.

End RunVocabulary.

(** An instance for the examples: paths and datetimes are numbers, the
    datetimes below 10 lie in 2023 and the others in 2024, and the template
    is [(c) {years} X]. *)
Definition example_year_of (d : nat) : str :=
  if (d <? 10)%nat then lit "2023" else lit "2024".

Definition example_pattern : YearsPattern.t :=
  YearsPattern.Build (YearsPattern.re_pattern (lit "(c) ") (lit " X")).

Definition example_config : CopyrightConfig.t (path := nat) (datetime := nat) :=
  CopyrightConfig.Build 0%nat None example_pattern.

Definition example_commits : list (GitCommitInfo (path := nat) (datetime := nat)) :=
  [mkCommit 3%nat (GitChangeSet.Build [] {[1%nat]} [] {[1%nat]})].

Definition nothing_staged : GitChangeSet.t (path := nat) := GitChangeSet.Build [] ∅ [] ∅.

Definition example_tree : gmap nat str := {[1%nat := lit "(c) 2020 X"]}.

(** A system whose line end is the line feed and on which every file can be
    read and written. *)
Definition example_os : OS.t (path := nat) :=
  OS.Build [LF] (fun _ => false) (fun _ => false).

(** A text without a carriage return. *)
Definition no_CR (s : str) : Prop := Forall (λ c, c ≠ CR) s.

(** ** [git_utilities.py]: the commits of the log

    [GitRepository.commits] from the output of the two git commands:
    [head_missing] is the result of [command_fails(git rev-parse HEAD)] and
    [log] the output of [git log --name-status --pretty=format:%aI].
    [fromisoformat] is [datetime.datetime.fromisoformat], a parameter. *)

(** [s.split("\n\n")] *)
Fixpoint split_blank (s : str) : list str :=
  match s with
  | [] => [[]]
  | c :: s' =>
      match s' with
      | d :: s'' =>
          if Ascii.eqb c LF && Ascii.eqb d LF then [] :: split_blank s''
          else match split_blank s' with
               | h :: t => (c :: h) :: t
               | [] => [[c]]
               end
      | [] => [[c]]
      end
  end.

(** [itertools.takewhile] *)
Fixpoint takewhile {A} (p : A → bool) (l : list A) : list A :=
  match l with
  | [] => []
  | x :: l' => if p x then x :: takewhile p l' else []
  end.

Module GitRepository.
Section WithPath.
Context {path : Type} `{Countable path} {datetime : Type}.
Context (PurePath : str → path) (fromisoformat : str → result datetime).

(** [GitCommitInfo(author_date, changes)] for a string [author_date]. *)
Definition commit_info_str (author_date : str)
    (chg : option (GitChangeSet.t (path := path)))
    : result (GitCommitInfo (path := path) (datetime := datetime)) :=
  bind (fromisoformat author_date) (fun d => Ok (commit_info d chg)).

(** [commits.append(GitCommitInfo(extra_timestamp))] *)
Definition append_extra (commits : list GitCommitInfo) (extra_timestamp : str)
    : result (list GitCommitInfo) :=
  bind (commit_info_str extra_timestamp None) (fun c => Ok (commits ++ [c])).

(** The body of the loop [for block in log.split("\n\n")]. *)
Definition commits_block (commits : list GitCommitInfo) (block : str)
    : result (list GitCommitInfo) :=
  if negb (GitChangeSet.nonempty block) then Ok commits
  else
    let block_lines :=
      filter (fun line => GitChangeSet.nonempty line = true) (split_on LF block) in
    let timestamp_lines :=
      takewhile (fun p => negb (contains [tab] p)) block_lines in
    bind (for_each append_extra (removelast timestamp_lines) commits)
      (fun commits =>
         match last timestamp_lines with
         | None => Raise (IndexError (lit "list index out of range"))
         | Some commit_datetime =>
             let change_lines := drop (length timestamp_lines) block_lines in
             bind (GitChangeSet.parse PurePath (LinesList change_lines))
               (fun changes =>
                  bind (commit_info_str commit_datetime (Some changes))
                    (fun c => Ok (commits ++ [c])))
         end).

Definition commits (head_missing : bool) (log : str) : result (list GitCommitInfo) :=
  if head_missing then Ok []
  else for_each commits_block (split_blank log) [].

End WithPath.
End GitRepository.

(** The lines of the log that are not empty; those without a tab, and those
    with one. *)
Definition log_lines (log : str) : list str :=
  filter (λ line, GitChangeSet.nonempty line = true) (split_on LF log).

Definition timestamp_lines_of (log : str) : list str :=
  filter (λ line, contains [tab] line = false) (log_lines log).

Definition change_lines_of (log : str) : list str :=
  filter (λ line, contains [tab] line = true) (log_lines log).

(** [sep.join(blocks)] for the separator of two line feeds. *)
Fixpoint join_blank (blocks : list str) : str :=
  match blocks with
  | [] => []
  | [b] => b
  | b :: blocks' => b ++ LF :: LF :: join_blank blocks'
  end.

(** The lines read as groups: a line without a tab opens a group, the lines
    with a tab that follow it are the records of the group.  The first
    component holds the lines with a tab in front of the first group. *)
Fixpoint group_lines (lines : list str) : list str * list (str * list str) :=
  match lines with
  | [] => ([], [])
  | line :: lines' =>
      let '(records, groups) := group_lines lines' in
      if contains [tab] line then (line :: records, groups)
      else ([], (line, records) :: groups)
  end.

Section LogVocabulary.
Context {path : Type} `{Countable path} {datetime : Type}.
Context (fromisoformat : str → result datetime).

(** A commit that is dated by the line. *)
Definition dated (line : str) (c : GitCommitInfo (path := path) (datetime := datetime))
    : Prop :=
  fromisoformat line = Ok (author_date c).

Definition commit_items (c : GitCommitInfo (path := path) (datetime := datetime))
    : list (list str) :=
  GitChangeSet.items (changes c).

(** A commit that is dated by the first line of the group and carries its
    records, split at the tabs. *)
Definition reads_group (g : str * list str)
    (c : GitCommitInfo (path := path) (datetime := datetime)) : Prop :=
  dated g.1 c ∧ commit_items c = map (split_on tab) g.2.

End LogVocabulary.

Section LogBlocks.
Context {path : Type} `{Countable path} {datetime : Type}.
Context (PurePath : str → path) (fromisoformat : str → result datetime).

(** A block that can be read: one or more lines without a tab, each an ISO
    date, followed by lines that parse as a change set. *)
Definition readable_block (block : str) : Prop :=
  ∃ timestamp_lines change_lines,
    log_lines block = timestamp_lines ++ change_lines
    ∧ timestamp_lines ≠ []
    ∧ Forall (λ line, contains [tab] line = false ∧ ∃ d, fromisoformat line = Ok d)
        timestamp_lines
    ∧ ∃ changes, GitChangeSet.parse PurePath (LinesList change_lines) = Ok changes.

End LogBlocks.

(** A log for the examples: two commits in the first block, the older one
    with a change, and one commit in the second block.  The dates are kept
    as strings, and a date is a string that begins with a digit. *)
Definition example_fromisoformat (s : str) : result str :=
  match s with
  | c :: _ => if is_digit c then Ok s else Raise (ValueError (lit "Invalid isoformat string"))
  | [] => Raise (ValueError (lit "Invalid isoformat string"))
  end.

Definition example_log : str :=
  lit "2024-01-02T10:00:00+00:00" ++ LF :: lit "2024-01-01T10:00:00+00:00" ++ LF ::
  lit "M" ++ tab :: lit "a" ++ LF :: LF ::
  lit "2023-12-31T10:00:00+00:00" ++ LF :: lit "A" ++ tab :: lit "b".

Section RunVocabularyIgnored.
Context {path : Type} `{Countable path} {datetime : Type}.

(** The commits the run replays: the staged changes, when there are any, as
    a commit dated [now] in front of the commits of the repository. *)
Definition replayed_commits (staged_changes : GitChangeSet.t (path := path))
    (now : datetime)
    (repo_commits : list (GitCommitInfo (path := path) (datetime := datetime)))
    : list GitCommitInfo :=
  if GitChangeSet.to_bool staged_changes
  then commit_info now (Some staged_changes) :: repo_commits
  else repo_commits.

(** A file the run passes over: its last change is unknown, or lies before
    [ignore_commits_before]. *)
Definition passed_over (lt : datetime → datetime → bool)
    (config : CopyrightConfig.t (path := path) (datetime := datetime))
    (last_modified_dict : gmap path datetime) (rel_path : path) : Prop :=
  rel_path ≠ CopyrightConfig.license_file config
  ∧ (last_modified_dict !! rel_path = None
     ∨ ∃ last_change before,
         last_modified_dict !! rel_path = Some last_change
         ∧ CopyrightConfig.ignore_commits_before config = Some before
         ∧ lt last_change before = true).

(** The file is neither written nor given a new diagnostic between two
    states of the run. *)
Definition spared (rel_path : path)
    (st st' : run_state (path := path) (datetime := datetime)) : Prop :=
  st'.1.2 !! rel_path = st.1.2 !! rel_path
  ∧ ∀ error_comment, Diagnostic rel_path error_comment ∈ st'.2 →
                     Diagnostic rel_path error_comment ∈ st.2.

End RunVocabularyIgnored.

(** A configuration for the examples: paths are strings, datetimes, naive
    datetimes and dates are numbers (of hours, hours and days). *)
Definition example_value : Type :=
  CopyrightConfig.value (datetime := nat) (naive := nat) (date := nat) (other := nat).

Definition example_raw : gmap str example_value :=
  {[lit "pattern" := CopyrightConfig.VStr (lit "(c) {years} X");
    lit "ignore_commits_before" := CopyrightConfig.VDate 3%nat]}.

Definition example_init (raw : gmap str example_value)
    : result (CopyrightConfig.t (path := str) (datetime := nat)) :=
  CopyrightConfig.init (λ s : str, s) (λ d : nat, d) (λ d : nat, d * 24)%nat
    (λ _ : example_value, lit "?") raw.

(** * Properties *)

(** ** Characters and strings *)

Lemma digit_not_space c : is_digit c = true → is_space c = false.
Proof.
  destruct c as [[] [] [] [] [] [] [] []]; vm_compute; congruence.
Qed.

Lemma space_not_digit c : is_space c = true → is_digit c = false.
Proof.
  intros Hs. destruct (is_digit c) eqn:Hd; [|done].
  apply digit_not_space in Hd. congruence.
Qed.

Lemma hyphen_not_digit : is_digit hyphen = false.
Proof. reflexivity. Qed.

Lemma hyphen_not_space : is_space hyphen = false.
Proof. reflexivity. Qed.

Lemma ascii_eqb_true c d : Ascii.eqb c d = true ↔ c = d.
Proof. apply Ascii.eqb_eq. Qed.

Lemma strip_prefix_spec p s r : strip_prefix p s = Some r ↔ s = p ++ r.
Proof.
  revert s. induction p as [|c p IH]; intros s; simpl.
  - split; congruence.
  - destruct s as [|d s]; [split; [done | intros [=]]|].
    destruct (Ascii.eqb c d) eqn:E.
    + apply ascii_eqb_true in E as ->. rewrite IH. split; congruence.
    + split; [done|]. intros [= -> _]. rewrite Ascii.eqb_refl in E. done.
Qed.

Lemma strip_prefix_app p r : strip_prefix p (p ++ r) = Some r.
Proof. by apply strip_prefix_spec. Qed.

Lemma strip_prefix_none p s : strip_prefix p s = None ↔ ∀ r, s ≠ p ++ r.
Proof.
  split.
  - intros Hn r Hr. apply strip_prefix_spec in Hr. congruence.
  - intros Hn. destruct (strip_prefix p s) as [r|] eqn:E; [|done].
    apply strip_prefix_spec in E. by destruct (Hn r).
Qed.

Lemma str_eqb_eq a b : str_eqb a b = true ↔ a = b.
Proof. unfold str_eqb. apply bool_decide_eq_true. Qed.

Lemma str_eqb_neq a b : str_eqb a b = false ↔ a ≠ b.
Proof. unfold str_eqb. apply bool_decide_eq_false. Qed.

Lemma py_clip_nat len (a : nat) : py_clip len (Z.of_nat a) = Nat.min a len.
Proof.
  unfold py_clip. destruct (Z.ltb_spec (Z.of_nat a) 0); [lia|].
  by rewrite Nat2Z.id.
Qed.

Lemma slice_to_app (u v : str) : slice_to (u ++ v) (Z.of_nat (length u)) = u.
Proof.
  unfold slice_to. rewrite py_clip_nat, length_app.
  replace (Nat.min _ _) with (length u) by lia. apply take_app_length.
Qed.

Lemma slice_from_app (u v : str) : slice_from (u ++ v) (Z.of_nat (length u)) = v.
Proof.
  unfold slice_from. rewrite py_clip_nat, length_app.
  replace (Nat.min _ _) with (length u) by lia. apply drop_app_length.
Qed.

Lemma slice_app (u x v : str) :
  slice (u ++ x ++ v) (Z.of_nat (length u)) (Z.of_nat (length u + length x)) = x.
Proof.
  unfold slice. rewrite !py_clip_nat, !length_app.
  replace (Nat.min (length u) _) with (length u) by lia.
  replace (Nat.min (length u + length x) _) with (length u + length x) by lia.
  rewrite drop_app_length.
  replace (length u + length x - length u) with (length x) by lia.
  apply take_app_length.
Qed.

Lemma substring_app (u x v : str) :
  firstn (length u + length x - length u) (skipn (length u) (u ++ x ++ v)) = x.
Proof.
  rewrite drop_app_length.
  replace (length u + length x - length u) with (length x) by lia.
  apply take_app_length.
Qed.

(** ** The matcher against its declarative reading *)

Lemma star_greedy_sound f s pos k x :
  star_greedy f s pos k = Some x →
  ∃ a s', s = a ++ s' ∧ Forall (fun c => f c = true) a ∧ k s' (pos + length a) = Some x.
Proof.
  revert pos. induction s as [|c s IH]; intros pos; simpl.
  - intros Hk. exists [], []. rewrite Nat.add_0_r. by repeat split.
  - destruct (f c) eqn:Hc.
    + destruct (star_greedy f s (S pos) k) as [r|] eqn:Hr.
      * intros [= <-]. destruct (IH _ Hr) as (a & s' & -> & Ha & Hk).
        exists (c :: a), s'. repeat split; [by constructor|].
        simpl. by replace (pos + S (length a)) with (S pos + length a) by lia.
      * intros Hk. exists [], (c :: s). rewrite Nat.add_0_r. by repeat split.
    + intros Hk. exists [], (c :: s). rewrite Nat.add_0_r. by repeat split.
Qed.

Lemma star_greedy_complete f a s' pos k :
  Forall (fun c => f c = true) a →
  is_Some (k s' (pos + length a)) →
  is_Some (star_greedy f (a ++ s') pos k).
Proof.
  revert pos. induction a as [|c a IH]; intros pos Ha Hk; simpl.
  - rewrite Nat.add_0_r in Hk. destruct s' as [|d s']; simpl; [done|].
    destruct (f d); [|done]. by destruct (star_greedy f s' (S pos) k).
  - inversion Ha as [|? ? Hc Ha']; subst. rewrite Hc.
    destruct (IH (S pos) Ha') as [r Hr].
    { simpl in Hk. by replace (S pos + length a) with (pos + S (length a)) by lia. }
    rewrite Hr. by eexists.
Qed.

(** The longest run is tried first. *)
Lemma star_greedy_longest f a b pos k x :
  Forall (fun c => f c = true) a → no_head f b →
  k b (pos + length a) = Some x →
  star_greedy f (a ++ b) pos k = Some x.
Proof.
  revert pos. induction a as [|c a IH]; intros pos Ha Hb Hk; simpl.
  - rewrite Nat.add_0_r in Hk. destruct b as [|d b]; simpl; [done|].
    simpl in Hb. by rewrite Hb.
  - inversion Ha as [|? ? Hc Ha']; subst. rewrite Hc.
    rewrite (IH (S pos) Ha' Hb); [done|].
    simpl in Hk. by replace (S pos + length a) with (pos + S (length a)) by lia.
Qed.

Lemma rmatch_sound r : ∀ s pos caps k x,
  rmatch r s pos caps k = Some x →
  ∃ s' p' c', matches r s pos caps s' p' c' ∧ k s' p' c' = Some x.
Proof.
  induction r as [l|c|c|r1 IH1 r2 IH2|r1 IH1 r2 IH2|g r1 IH1];
    intros s pos caps k x; simpl.
  - destruct (strip_prefix l s) as [s'|] eqn:E; [|done].
    apply strip_prefix_spec in E. intros Hk. by exists s', (pos + length l), caps.
  - intros Hs. apply star_greedy_sound in Hs as (a & s' & -> & Ha & Hk).
    exists s', (pos + length a), caps. split; [|done]. by exists a.
  - destruct s as [|d s]; [done|]. destruct (cclass_test c d) eqn:Hd; [|done].
    intros Hs. apply star_greedy_sound in Hs as (a & s' & -> & Ha & Hk).
    exists s', (pos + length (d :: a)), caps. split.
    + exists (d :: a). repeat split; [done|by constructor].
    + simpl. by replace (pos + S (length a)) with (S pos + length a) by lia.
  - intros H1. apply IH1 in H1 as (s1 & p1 & c1 & M1 & H2).
    apply IH2 in H2 as (s2 & p2 & c2 & M2 & Hk).
    exists s2, p2, c2. split; [|done]. by exists s1, p1, c1.
  - destruct (rmatch r1 s pos caps k) as [y|] eqn:E1.
    + intros [= <-]. apply IH1 in E1 as (s1 & p1 & c1 & M1 & Hk).
      exists s1, p1, c1. by split; [left|].
    + intros E2. apply IH2 in E2 as (s1 & p1 & c1 & M1 & Hk).
      exists s1, p1, c1. by split; [right|].
  - intros H1. apply IH1 in H1 as (s1 & p1 & c1 & M1 & Hk).
    exists s1, p1, (set_cap g (pos, p1) c1). split; [|done]. by exists c1.
Qed.

Lemma rmatch_complete r : ∀ s pos caps k s' p' c',
  matches r s pos caps s' p' c' → is_Some (k s' p' c') →
  is_Some (rmatch r s pos caps k).
Proof.
  induction r as [l|c|c|r1 IH1 r2 IH2|r1 IH1 r2 IH2|g r1 IH1];
    intros s pos caps k s' p' c'; simpl.
  - intros (-> & -> & ->) Hk. by rewrite strip_prefix_app.
  - intros (a & -> & Ha & -> & ->) Hk. by apply star_greedy_complete.
  - intros (a & -> & Hne & Ha & -> & ->) Hk.
    destruct a as [|d a]; [done|]. inversion Ha as [|? ? Hd Ha']; subst.
    simpl. rewrite Hd. apply star_greedy_complete; [done|].
    simpl in Hk. by replace (S pos + length a) with (pos + S (length a)) by lia.
  - intros (s1 & p1 & c1 & M1 & M2) Hk.
    eapply IH1; [exact M1|]. eapply IH2; [exact M2|done].
  - intros [M1|M2] Hk.
    + destruct (IH1 _ _ _ _ _ _ _ M1 Hk) as [y ->]. by eexists.
    + destruct (rmatch r1 s pos caps k); [by eexists|]. by eapply IH2.
  - intros (c1 & M1 & ->) Hk. eapply IH1; [exact M1|done].
Qed.

(** ** Matches of a compiled template *)

Ltac list_norm :=
  repeat first [rewrite <- !app_assoc | progress simpl | rewrite !length_app].

Lemma matches_re_pattern pre suf s pos caps s' p' c' :
  matches (YearsPattern.re_pattern pre suf) s pos caps s' p' c' ↔
  ∃ w1 tok w4,
    s = pre ++ w1 ++ token_text tok ++ w4 ++ suf ++ s'
    ∧ all_space w1 ∧ all_space w4 ∧ token_ok tok
    ∧ p' = pos + length pre + length w1 + length (token_text tok)
           + length w4 + length suf
    ∧ c' = match tok with
           | TSingle y =>
               set_cap g_year (pos + length pre + length w1,
                               pos + length pre + length w1 + length y) caps
           | TRange f w2 w3 t =>
               let fs := pos + length pre + length w1 in
               let ts := fs + length f + length w2 + 1 + length w3 in
               set_cap g_to (ts, ts + length t)
                 (set_cap g_from (fs, fs + length f) caps)
           end.
Proof.
  unfold YearsPattern.re_pattern, YearsPattern.r_year_or_range,
    YearsPattern.r_year_range, YearsPattern.r_single_year.
  simpl. split.
  - intros (s1 & p1 & c1 & (-> & -> & ->) & s2 & p2 & c2
            & (s3 & p3 & c3 & (w1 & -> & Hw1 & -> & ->)
               & s4 & p4 & c4 & Htok & (w4 & -> & Hw4 & -> & ->))
            & (-> & -> & ->)).
    destruct Htok as [Hr|Hy].
    + destruct Hr as (s5 & p5 & c5 & (c6 & (f & -> & Hf0 & Hf & -> & ->) & ->)
                      & s6 & p6 & c7 & (w2 & -> & Hw2 & -> & ->)
                      & s7 & p7 & c8 & (-> & -> & ->)
                      & s8 & p8 & c9 & (w3 & -> & Hw3 & -> & ->)
                      & c10 & (t & -> & Ht0 & Ht & -> & ->) & ->).
      exists w1, (TRange f w2 w3 t), w4. simpl.
      repeat split; try done; list_norm; (done || lia).
    + destruct Hy as (c5 & (y & -> & Hy0 & Hy & -> & ->) & ->).
      exists w1, (TSingle y), w4. simpl. repeat split; try done; list_norm; (done || lia).
  - intros (w1 & tok & w4 & -> & Hw1 & Hw4 & Htok & -> & Hc).
    eexists _, _, _. split; [done|].
    exists (suf ++ s'), (pos + length pre + length w1 + length (token_text tok) + length w4), c'.
    destruct tok as [y|f w2 w3 t]; simpl in *.
    + destruct Htok as [Hy0 Hy]. split; [|repeat split; lia].
      eexists _, _, _. split; [exists w1; by repeat split|].
      exists (w4 ++ suf ++ s'), (pos + length pre + length w1 + length y), c'.
      split; [|exists w4; by repeat split].
      right. eexists. split; [|exact Hc]. exists y. by repeat split.
    + destruct Htok as (Hf0 & Hf & Hw2 & Hw3 & Ht0 & Ht).
      split; [|repeat split; list_norm; lia].
      eexists _, _, _. split; [exists w1; by repeat split|].
      exists (w4 ++ suf ++ s'),
        (pos + length pre + length w1 + length f + length w2 + 1 + length w3 + length t), c'.
      split; [|exists w4; repeat split; try done; list_norm; lia].
      left. eexists _, _, _. split.
      { eexists. split; [|done]. exists f. list_norm. by repeat split. }
      eexists _, _, _. split; [exists w2; by repeat split|].
      eexists _, _, _. split; [by repeat split|].
      eexists _, _, _. split; [exists w3; by repeat split|].
      eexists. split; [exists t; repeat split; try done; simpl; lia|].
      rewrite Hc. do 4 f_equal; simpl; lia.
Qed.

Lemma token_caps_set pos tok :
  token_caps pos tok =
  match tok with
  | TSingle y => set_cap g_year (pos, pos + length y) no_captures
  | TRange f w2 w3 t =>
      let ts := pos + length f + length w2 + 1 + length w3 in
      set_cap g_to (ts, ts + length t) (set_cap g_from (pos, pos + length f) no_captures)
  end.
Proof. by destruct tok. Qed.

Lemma match_at_sound pre suf s pos c :
  match_at (YearsPattern.re_pattern pre suf) s pos = Some c →
  ∃ w1 tok tl, header_here pre suf s w1 tok tl
               ∧ c = token_caps (pos + length pre + length w1) tok.
Proof.
  unfold match_at. intros Hm.
  apply rmatch_sound in Hm as (s' & p' & c' & M & Hk).
  unfold accept in Hk. injection Hk as ->.
  apply matches_re_pattern in M as (w1 & tok & w4 & -> & Hw1 & Hw4 & Htok & _ & ->).
  exists w1, tok, (w4 ++ suf ++ s'). split.
  - by exists w4, s'.
  - by rewrite token_caps_set.
Qed.

Lemma match_at_complete pre suf s pos w1 tok tl :
  header_here pre suf s w1 tok tl →
  is_Some (match_at (YearsPattern.re_pattern pre suf) s pos).
Proof.
  intros (w4 & rest & -> & -> & Hw1 & Hw4 & Htok).
  unfold match_at. eapply rmatch_complete; [|by unfold accept].
  apply matches_re_pattern. exists w1, tok, w4. by repeat split.
Qed.

Lemma search_from_spec r s pos c :
  search_from r s pos = Some c ↔
  ∃ u v, s = u ++ v ∧ match_at r v (pos + length u) = Some c
         ∧ ∀ u1 u2, u = u1 ++ u2 → u2 ≠ [] →
                    match_at r (u2 ++ v) (pos + length u1) = None.
Proof.
  revert pos. induction s as [|d s IH]; intros pos; simpl.
  - destruct (match_at r [] pos) as [x|] eqn:E.
    + split.
      * intros [= <-]. exists [], []. rewrite Nat.add_0_r. repeat split; [done|].
        intros u1 u2 Hu Hne. by destruct u1, u2.
      * intros (u & v & Huv & Hm & _). symmetry in Huv.
        apply app_eq_nil in Huv as [-> ->]. rewrite Nat.add_0_r in Hm. congruence.
    + split; [done|]. intros (u & v & Huv & Hm & _). symmetry in Huv.
      apply app_eq_nil in Huv as [-> ->]. rewrite Nat.add_0_r in Hm. congruence.
  - destruct (match_at r (d :: s) pos) as [x|] eqn:E.
    + split.
      * intros [= <-]. exists [], (d :: s). rewrite Nat.add_0_r. repeat split; [done|].
        intros u1 u2 Hu Hne. by destruct u1, u2.
      * intros (u & v & Huv & Hm & Hleft). destruct u as [|e u].
        -- simpl in Huv. subst v. rewrite Nat.add_0_r in Hm. congruence.
        -- specialize (Hleft [] (e :: u) eq_refl ltac:(done)).
           rewrite <- Huv, Nat.add_0_r in Hleft. congruence.
    + rewrite IH. split.
      * intros (u & v & -> & Hm & Hleft). exists (d :: u), v. repeat split.
        -- simpl. by replace (pos + S (length u)) with (S pos + length u) by lia.
        -- intros u1 u2 Hu Hne. destruct u1 as [|e u1].
           ++ simpl in Hu. subst u2. by rewrite Nat.add_0_r.
           ++ injection Hu as <- ->. simpl.
              replace (pos + S (length u1)) with (S pos + length u1) by lia.
              by apply Hleft.
      * intros (u & v & Huv & Hm & Hleft). destruct u as [|e u].
        -- simpl in Huv. subst v. rewrite Nat.add_0_r in Hm. congruence.
        -- injection Huv as <- ->. exists u, v. repeat split.
           ++ simpl in Hm. by replace (S pos + length u) with (pos + S (length u)) by lia.
           ++ intros u1 u2 -> Hne.
              specialize (Hleft (d :: u1) u2 eq_refl Hne). simpl in Hleft.
              by replace (S pos + length u1) with (pos + S (length u1)) by lia.
Qed.

Lemma search_from_none r s pos :
  search_from r s pos = None ↔
  ∀ u v, s = u ++ v → match_at r v (pos + length u) = None.
Proof.
  revert pos. induction s as [|d s IH]; intros pos; simpl.
  - destruct (match_at r [] pos) as [x|] eqn:E.
    + split; [done|]. intros Hn. specialize (Hn [] [] eq_refl).
      rewrite Nat.add_0_r in Hn. congruence.
    + split; [|done]. intros _ u v Huv. symmetry in Huv.
      apply app_eq_nil in Huv as [-> ->]. by rewrite Nat.add_0_r.
  - destruct (match_at r (d :: s) pos) as [x|] eqn:E.
    + split; [done|]. intros Hn. specialize (Hn [] (d :: s) eq_refl).
      rewrite Nat.add_0_r in Hn. congruence.
    + rewrite IH. split.
      * intros Hn u v Huv. destruct u as [|e u].
        -- simpl in Huv. subst v. by rewrite Nat.add_0_r.
        -- injection Huv as <- ->. simpl.
           replace (pos + S (length u)) with (S pos + length u) by lia. by apply Hn.
      * intros Hn u v ->. specialize (Hn (d :: u) v eq_refl). simpl in Hn.
        by replace (S pos + length u) with (pos + S (length u)) by lia.
Qed.

Lemma re_search_located pre suf content m :
  re_search (YearsPattern.re_pattern pre suf) content = Some m →
  ∃ u w1 tok tl,
    located pre suf content u w1 tok tl
    ∧ m = mkMatch content (token_caps (length u + length pre + length w1) tok).
Proof.
  unfold re_search.
  destruct (search_from _ content 0) as [c|] eqn:E; [|done]. intros [= <-].
  apply search_from_spec in E as (u & v & -> & Hm & Hleft).
  apply match_at_sound in Hm as (w1 & tok & tl & Hh & ->).
  pose proof Hh as (w4 & rest & -> & -> & _).
  exists u, w1, tok, (w4 ++ suf ++ rest). split; [|done].
  split; [done|]. split; [done|].
  intros u1 u2 w1' tok' tl' -> Hne Hh'.
  apply (match_at_complete _ _ _ (0 + length u1)) in Hh' as [x Hx].
  rewrite (Hleft u1 u2 eq_refl Hne) in Hx. done.
Qed.

Lemma re_search_none pre suf content :
  re_search (YearsPattern.re_pattern pre suf) content = None ↔
  ∀ u v w1 tok tl, content = u ++ v → ¬ header_here pre suf v w1 tok tl.
Proof.
  unfold re_search. split.
  - destruct (search_from _ content 0) as [c|] eqn:E; [done|]. intros _.
    intros u v w1 tok tl -> Hh.
    apply (match_at_complete _ _ _ (0 + length u)) in Hh as [x Hx].
    rewrite search_from_none in E. rewrite (E u v eq_refl) in Hx. done.
  - intros Hn. destruct (search_from _ content 0) as [c|] eqn:E; [|done].
    apply search_from_spec in E as (u & v & -> & Hm & _).
    apply match_at_sound in Hm as (w1 & tok & tl & Hh & _).
    by destruct (Hn u v w1 tok tl eq_refl).
Qed.

Lemma init_regexp tmpl pat :
  YearsPattern.init tmpl = Ok pat →
  YearsPattern.regexp pat =
    YearsPattern.re_pattern (YearsPattern.prefix tmpl) (YearsPattern.suffix tmpl).
Proof.
  unfold YearsPattern.init.
  destruct (negb (contains YearsPattern.placeholder tmpl)); [done|].
  by intros [= <-].
Qed.

Lemma range_groups content h f w2 w3 t tl :
  content = h ++ token_text (TRange f w2 w3 t) ++ tl →
  firstn (length h + length f - length h) (skipn (length h) content) = f
  ∧ firstn (length h + length f + length w2 + 1 + length w3 + length t
            - (length h + length f + length w2 + 1 + length w3))
      (skipn (length h + length f + length w2 + 1 + length w3) content) = t.
Proof.
  intros ->. simpl. split.
  - rewrite <- !app_assoc. apply substring_app.
  - replace ((h ++ (f ++ w2 ++ hyphen :: w3 ++ t) ++ tl))
      with ((h ++ f ++ w2 ++ [hyphen] ++ w3) ++ t ++ tl) by by list_norm.
    replace (length h + length f + length w2 + 1 + length w3)
      with (length (h ++ f ++ w2 ++ [hyphen] ++ w3)) by (list_norm; lia).
    apply substring_app.
Qed.

(** What [extract] and [replace] compute from a match at a known place. *)
Lemma extract_at pat content h tok tl :
  re_search (YearsPattern.regexp pat) content
    = Some (mkMatch content (token_caps (length h) tok)) →
  content = h ++ token_text tok ++ tl → token_ok tok →
  YearsPattern.extract pat content = Some (token_years tok).
Proof.
  intros Hs Hc Htok. unfold YearsPattern.extract. rewrite Hs.
  unfold groupdict. destruct tok as [y|f w2 w3 t].
  - simpl. rewrite Hc. simpl. by rewrite substring_app.
  - destruct Htok as (Hf0 & _ & _ & _ & Ht0 & _).
    destruct (range_groups _ _ _ _ _ _ _ Hc) as [Hfrom Hto].
    simpl. rewrite Hfrom, Hto. by destruct f, t.
Qed.

Lemma replace_at pat content h tok tl new_range :
  re_search (YearsPattern.regexp pat) content
    = Some (mkMatch content (token_caps (length h) tok)) →
  content = h ++ token_text tok ++ tl → token_ok tok →
  YearsPattern.replace pat content new_range
    = Ok (h ++ token_rewrite tok new_range ++ tl).
Proof.
  intros Hs Hc Htok. unfold YearsPattern.replace. rewrite Hs.
  unfold groupdict, span. destruct tok as [y|f w2 w3 t]; simpl in *.
  - rewrite Hc at 1 2. rewrite slice_to_app.
    replace (h ++ y ++ tl) with ((h ++ y) ++ tl) by by list_norm.
    replace (Z.of_nat (length h + length y)) with (Z.of_nat (length (h ++ y)))
      by by rewrite length_app.
    rewrite slice_from_app. unfold join2. by destruct new_range.
  - destruct Htok as (Hf0 & _ & _ & _ & Ht0 & _).
    destruct (range_groups _ _ _ _ _ _ _ Hc) as [Hfrom Hto].
    rewrite Hfrom, Hto.
    replace (match f with [] => false | _ => true end) with true by by destruct f.
    replace (match t with [] => false | _ => true end) with true by by destruct t.
    simpl.
    assert (H1 : slice_to content (Z.of_nat (length h)) = h).
    { rewrite Hc. apply slice_to_app. }
    assert (H2 : slice content (Z.of_nat (length h + length f))
                   (Z.of_nat (length h + length f + length w2 + 1 + length w3))
                 = w2 ++ [hyphen] ++ w3).
    { assert (E : content = (h ++ f) ++ (w2 ++ [hyphen] ++ w3) ++ t ++ tl)
        by (rewrite Hc; by list_norm).
      rewrite E.
      replace (length h + length f) with (length (h ++ f)) by by rewrite length_app.
      replace (length (h ++ f) + length w2 + 1 + length w3)
        with (length (h ++ f) + length (w2 ++ [hyphen] ++ w3)) by (list_norm; lia).
      apply slice_app. }
    assert (H3 : slice_from content
                   (Z.of_nat (length h + length f + length w2 + 1 + length w3 + length t))
                 = tl).
    { assert (E : content = (h ++ f ++ w2 ++ [hyphen] ++ w3 ++ t) ++ tl)
        by (rewrite Hc; by list_norm).
      rewrite E.
      replace (length h + length f + length w2 + 1 + length w3 + length t)
        with (length (h ++ f ++ w2 ++ [hyphen] ++ w3 ++ t)) by (list_norm; lia).
      apply slice_from_app. }
    rewrite H1, H3. destruct new_range; [done|]. rewrite H2. by list_norm.
Qed.

Lemma located_token_ok pre suf content u w1 tok tl :
  located pre suf content u w1 tok tl → token_ok tok.
Proof. by intros (_ & (w4 & rest & _ & _ & _ & _ & Htok) & _). Qed.

Lemma located_content pre suf content u w1 tok tl :
  located pre suf content u w1 tok tl →
  content = (u ++ pre ++ w1) ++ token_text tok ++ tl.
Proof. intros (-> & _). by list_norm. Qed.

(** Everything the module computes from the first match of a compiled
    template. *)
Lemma search_header tmpl pat content m :
  YearsPattern.init tmpl = Ok pat →
  re_search (YearsPattern.regexp pat) content = Some m →
  ∃ u w1 tok tl,
    located (YearsPattern.prefix tmpl) (YearsPattern.suffix tmpl) content u w1 tok tl
    ∧ YearsPattern.extract pat content = Some (token_years tok)
    ∧ ∀ new_range,
        YearsPattern.replace pat content new_range
        = Ok ((u ++ YearsPattern.prefix tmpl ++ w1) ++ token_rewrite tok new_range ++ tl).
Proof.
  intros Hinit Hs. pose proof (init_regexp _ _ Hinit) as Hre.
  pose proof Hs as Hs'. rewrite Hre in Hs'.
  apply re_search_located in Hs' as (u & w1 & tok & tl & Hloc & ->).
  exists u, w1, tok, tl. split; [done|].
  pose proof (located_token_ok _ _ _ _ _ _ _ Hloc) as Htok.
  pose proof (located_content _ _ _ _ _ _ _ Hloc) as Hc.
  replace (length u + length (YearsPattern.prefix tmpl) + length w1)
    with (length (u ++ YearsPattern.prefix tmpl ++ w1)) in Hs
    by (rewrite !length_app; lia).
  split.
  - by eapply extract_at.
  - intros new_range. by eapply replace_at.
Qed.

Lemma extract_None pat content :
  re_search (YearsPattern.regexp pat) content = None →
  YearsPattern.extract pat content = None.
Proof. intros Hs. unfold YearsPattern.extract. by rewrite Hs. Qed.

Lemma extract_header tmpl pat content ys :
  YearsPattern.init tmpl = Ok pat →
  YearsPattern.extract pat content = Some ys →
  ∃ u w1 tok tl,
    located (YearsPattern.prefix tmpl) (YearsPattern.suffix tmpl) content u w1 tok tl
    ∧ token_years tok = ys
    ∧ ∀ new_range,
        YearsPattern.replace pat content new_range
        = Ok ((u ++ YearsPattern.prefix tmpl ++ w1) ++ token_rewrite tok new_range ++ tl).
Proof.
  intros Hinit He.
  destruct (re_search (YearsPattern.regexp pat) content) as [m|] eqn:Hs.
  - destruct (search_header _ _ _ _ Hinit Hs) as (u & w1 & tok & tl & Hloc & He' & Hr).
    exists u, w1, tok, tl. split; [done|]. split; [congruence|done].
  - apply extract_None in Hs. congruence.
Qed.

Lemma contains_spec needle hay :
  contains needle hay = true ↔ ∃ a b, hay = a ++ needle ++ b.
Proof.
  induction hay as [|c hay IH]; simpl.
  - rewrite orb_false_r. unfold startswith.
    destruct (strip_prefix needle []) as [r|] eqn:E.
    + apply strip_prefix_spec in E. split; [|done]. intros _. by exists [], r.
    + split; [done|]. intros (a & b & Hab). symmetry in Hab.
      apply app_eq_nil in Hab as [-> Hab]. simpl in Hab.
      rewrite strip_prefix_none in E. by destruct (E b).
  - rewrite orb_true_iff, IH. unfold startswith.
    destruct (strip_prefix needle (c :: hay)) as [r|] eqn:E.
    + apply strip_prefix_spec in E. split; [|by left]. intros _. by exists [], r.
    + split.
      * intros [|(a & b & ->)]; [done|]. by exists (c :: a), b.
      * intros (a & b & Hab). right. destruct a as [|d a].
        -- simpl in Hab. rewrite strip_prefix_none in E. by destruct (E b).
        -- injection Hab as -> ->. by exists a, b.
Qed.

(** ** The year pattern engine and the decision procedure *)

(** C7. When the compiled pattern has no match in [T], [extract] returns
    [None] and [update_file] returns [T] itself, with the missing-header
    diagnostic when [required] is set and with no diagnostic otherwise. *)
Theorem update_file_no_match pat T last_year current_year required :
  re_search (YearsPattern.regexp pat) T = None →
  YearsPattern.extract pat T = None
  ∧ update_file T last_year pat current_year required
    = Ok (if required then Some NO_COPYRIGHT_HEADER_FOUND else None, T).
Proof.
  intros Hs. apply extract_None in Hs. split; [done|].
  unfold update_file. rewrite Hs. by destruct required.
Qed.

Lemma update_file_no_match_witness :
  ∃ pat, YearsPattern.init (lit " Test (c) {years}") = Ok pat
    ∧ re_search (YearsPattern.regexp pat) (lit "abc") = None
    ∧ YearsPattern.extract pat (lit "abc") = None
    ∧ update_file (lit "abc") (lit "2023") pat (lit "2024") true
      = Ok (Some NO_COPYRIGHT_HEADER_FOUND, lit "abc").
Proof.
  eexists. split; [reflexivity|]. split; [reflexivity|].
  apply (update_file_no_match _ (lit "abc") (lit "2023") (lit "2024") true).
  reflexivity.
Defined.

(** C9. [YearsPattern(template)] raises [ValueError] exactly when the
    template does not contain ["{years}"]; [replace] raises [ValueError]
    exactly when the pattern has no match in the text, and then returns no
    text at all. *)
Theorem value_errors :
  (∀ tmpl,
     (∃ msg, YearsPattern.init tmpl = Raise (ValueError msg))
     ↔ ¬ ∃ a b, tmpl = a ++ YearsPattern.placeholder ++ b)
  ∧ (∀ pat text new_range,
       ((∃ msg, YearsPattern.replace pat text new_range = Raise (ValueError msg))
        ↔ re_search (YearsPattern.regexp pat) text = None)
       ∧ (re_search (YearsPattern.regexp pat) text = None →
          ∀ c, YearsPattern.replace pat text new_range ≠ Ok c)).
Proof.
  split.
  - intros tmpl. rewrite <- contains_spec. unfold YearsPattern.init.
    destruct (contains YearsPattern.placeholder tmpl); simpl.
    + split; [by intros [msg [=]]|]. by intros [].
    + split; [by intros _ [=]|]. intros _. by eexists.
  - intros pat text new_range. unfold YearsPattern.replace.
    destruct (re_search (YearsPattern.regexp pat) text) as [m|].
    + split; [|done]. split; [|done]. intros [msg Hr].
      destruct (truthy _ && truthy _), (span m g_from), (span m g_to),
        (span m g_year), new_range; discriminate.
    + split; [|done]. split; [done|]. intros _. by eexists.
Qed.

(** C8. When the pattern matches a single year [Y] in [T], rewriting with
    [Y] itself returns [T]. *)
Theorem replace_single_year_identity tmpl pat T Y :
  YearsPattern.init tmpl = Ok pat →
  YearsPattern.extract pat T = Some (YSingle Y) →
  YearsPattern.replace pat T (YSingle Y) = Ok T.
Proof.
  intros Hinit He.
  destruct (extract_header _ _ _ _ Hinit He) as (u & w1 & tok & tl & Hloc & Hy & Hr).
  rewrite Hr. destruct tok as [y|]; [|done]. injection Hy as ->.
  by rewrite (located_content _ _ _ _ _ _ _ Hloc).
Qed.

Lemma replace_single_year_identity_witness :
  ∃ pat, YearsPattern.init (lit " Test (c) {years}") = Ok pat
    ∧ YearsPattern.extract pat (lit "# Test (c) 2023") = Some (YSingle (lit "2023"))
    ∧ YearsPattern.replace pat (lit "# Test (c) 2023") (YSingle (lit "2023"))
      = Ok (lit "# Test (c) 2023").
Proof.
  eexists. split; [reflexivity|]. split; [reflexivity|].
  apply (replace_single_year_identity (lit " Test (c) {years}")); reflexivity.
Defined.

Lemma nonempty_length (s : str) : s ≠ [] → 1 ≤ length s.
Proof. destruct s; [done|simpl; lia]. Qed.

(** C6, as amended. Every year [extract] returns, a single year or either
    end of a range, is a non-empty string of digits. *)
Theorem extract_year_fields tmpl pat text ys :
  YearsPattern.init tmpl = Ok pat →
  YearsPattern.extract pat text = Some ys →
  year_fields 1 ys.
Proof.
  intros Hinit He.
  destruct (extract_header _ _ _ _ Hinit He) as (u & w1 & tok & tl & Hloc & <- & _).
  apply located_token_ok in Hloc.
  destruct tok as [y|f w2 w3 t]; simpl in *.
  - destruct Hloc as [Hy0 Hy]. split; [by apply nonempty_length|done].
  - destruct Hloc as (Hf0 & Hf & _ & _ & Ht0 & Ht).
    repeat split; try done; by apply nonempty_length.
Qed.

Lemma extract_year_fields_witness :
  ∃ pat, YearsPattern.init (lit "(c) {years}") = Ok pat
    ∧ YearsPattern.extract pat (lit "(c) 7 - 2024")
      = Some (YRange (lit "7") (lit "2024"))
    ∧ year_fields 1 (YRange (lit "7") (lit "2024")).
Proof.
  eexists. split; [reflexivity|]. split; [reflexivity|].
  eapply (extract_year_fields (lit "(c) {years}") _ (lit "(c) 7 - 2024")); reflexivity.
Defined.

(** C6 as stated fails: the one-digit year of ["(c) 7"] is extracted. *)
Lemma extract_short_year :
  ∃ pat, YearsPattern.init (lit "(c) {years}") = Ok pat
    ∧ YearsPattern.extract pat (lit "(c) 7") = Some (YSingle (lit "7"))
    ∧ ¬ year_fields 4 (YSingle (lit "7")).
Proof.
  eexists. split; [reflexivity|]. split; [reflexivity|].
  intros [Hlen _]. simpl in Hlen. lia.
Qed.

(** C1. When the first match is a range whose ends differ, or a single
    year, [update_file] returns no diagnostic and the content itself exactly
    when the upper end (the single year) is [last_year]; otherwise it returns
    the mismatch diagnostic and the content in which the token has become the
    range from its lower end (the single year) to [current_year]. *)
Theorem update_file_year_mismatch tmpl pat content last_year current_year required ys :
  YearsPattern.init tmpl = Ok pat →
  YearsPattern.extract pat content = Some ys →
  non_degenerate ys →
  ∃ u w1 tok tl,
    located (YearsPattern.prefix tmpl) (YearsPattern.suffix tmpl) content u w1 tok tl
    ∧ token_years tok = ys
    ∧ (update_file content last_year pat current_year required = Ok (None, content)
       ↔ year_upper ys = last_year)
    ∧ (year_upper ys ≠ last_year →
       update_file content last_year pat current_year required
       = Ok (Some (expected_year_message last_year (year_upper ys)),
             u ++ YearsPattern.prefix tmpl ++ w1
               ++ token_text (grown tok current_year) ++ tl)).
Proof.
  intros Hinit He Hnd.
  destruct (extract_header _ _ _ _ Hinit He) as (u & w1 & tok & tl & Hloc & Hy & Hr).
  exists u, w1, tok, tl. split; [done|]. split; [done|].
  unfold update_file. rewrite He. subst ys.
  destruct tok as [y|f w2 w3 t]; simpl in *.
  - destruct (str_eqb y last_year) eqn:E.
    + apply str_eqb_eq in E. by split.
    + apply str_eqb_neq in E. rewrite Hr. simpl. split; [by split|].
      intros _. by list_norm.
  - apply str_eqb_neq in Hnd. rewrite Hnd.
    destruct (str_eqb last_year t) eqn:E.
    + apply str_eqb_eq in E. by split.
    + apply str_eqb_neq in E. rewrite Hr. simpl. split; [by split|].
      intros _. by list_norm.
Qed.

Lemma update_file_year_mismatch_witness :
  ∃ pat, YearsPattern.init (lit " Test (c) {years}") = Ok pat
    ∧ YearsPattern.extract pat (lit "# Test (c) 2021 - 2022 abc")
      = Some (YRange (lit "2021") (lit "2022"))
    ∧ non_degenerate (YRange (lit "2021") (lit "2022"))
    ∧ ∃ u w1 tok tl,
        located (YearsPattern.prefix (lit " Test (c) {years}"))
          (YearsPattern.suffix (lit " Test (c) {years}"))
          (lit "# Test (c) 2021 - 2022 abc") u w1 tok tl
        ∧ token_years tok = YRange (lit "2021") (lit "2022")
        ∧ (update_file (lit "# Test (c) 2021 - 2022 abc") (lit "2023") pat (lit "2024") false
           = Ok (None, lit "# Test (c) 2021 - 2022 abc")
           ↔ year_upper (YRange (lit "2021") (lit "2022")) = lit "2023")
        ∧ (year_upper (YRange (lit "2021") (lit "2022")) ≠ lit "2023" →
           update_file (lit "# Test (c) 2021 - 2022 abc") (lit "2023") pat (lit "2024") false
           = Ok (Some (expected_year_message (lit "2023")
                         (year_upper (YRange (lit "2021") (lit "2022")))),
                 u ++ YearsPattern.prefix (lit " Test (c) {years}") ++ w1
                   ++ token_text (grown tok (lit "2024")) ++ tl)).
Proof.
  eexists. split; [reflexivity|]. split; [reflexivity|]. split; [by vm_compute|].
  apply (update_file_year_mismatch (lit " Test (c) {years}")); [reflexivity..|].
  by vm_compute.
Defined.

(** C3. When the first match is a range whose two ends are the same year,
    [update_file] returns the diagnostic "range syntax is used for a single
    year"; the returned content has the whole range replaced by
    [current_year] when that year is [current_year], and otherwise has the
    upper end of the range replaced by [current_year]. *)
Theorem update_file_degenerate_range tmpl pat content last_year current_year required y :
  YearsPattern.init tmpl = Ok pat →
  YearsPattern.extract pat content = Some (YRange y y) →
  ∃ u w1 w2 w3 tl,
    located (YearsPattern.prefix tmpl) (YearsPattern.suffix tmpl) content
      u w1 (TRange y w2 w3 y) tl
    ∧ (y = current_year →
       update_file content last_year pat current_year required
       = Ok (Some RANGE_USED_FOR_A_SINGLE_YEAR,
             u ++ YearsPattern.prefix tmpl ++ w1
               ++ token_text (TSingle current_year) ++ tl))
    ∧ (y ≠ current_year →
       update_file content last_year pat current_year required
       = Ok (Some RANGE_USED_FOR_A_SINGLE_YEAR,
             u ++ YearsPattern.prefix tmpl ++ w1
               ++ token_text (TRange y w2 w3 current_year) ++ tl)).
Proof.
  intros Hinit He.
  destruct (extract_header _ _ _ _ Hinit He) as (u & w1 & tok & tl & Hloc & Hy & Hr).
  destruct tok as [|f w2 w3 t]; [done|]. simpl in Hy. injection Hy as -> ->.
  exists u, w1, w2, w3, tl. split; [done|].
  unfold update_file. rewrite He.
  replace (str_eqb y y) with true by (symmetry; by apply str_eqb_eq).
  split.
  - intros Hcur. apply str_eqb_eq in Hcur. rewrite Hcur, Hr. simpl. by list_norm.
  - intros Hcur. apply str_eqb_neq in Hcur. rewrite Hcur, Hr. simpl. by list_norm.
Qed.

Lemma update_file_degenerate_range_witness :
  ∃ pat, YearsPattern.init (lit "(c) {years}") = Ok pat
    ∧ YearsPattern.extract pat (lit "(c) 2024-2024") = Some (YRange (lit "2024") (lit "2024"))
    ∧ ∃ u w1 w2 w3 tl,
        located (YearsPattern.prefix (lit "(c) {years}")) (YearsPattern.suffix (lit "(c) {years}"))
          (lit "(c) 2024-2024") u w1 (TRange (lit "2024") w2 w3 (lit "2024")) tl
        ∧ (lit "2024" = lit "2024" →
           update_file (lit "(c) 2024-2024") (lit "2024") pat (lit "2024") false
           = Ok (Some RANGE_USED_FOR_A_SINGLE_YEAR,
                 u ++ YearsPattern.prefix (lit "(c) {years}") ++ w1
                   ++ token_text (TSingle (lit "2024")) ++ tl))
        ∧ (lit "2024" ≠ lit "2024" →
           update_file (lit "(c) 2024-2024") (lit "2024") pat (lit "2024") false
           = Ok (Some RANGE_USED_FOR_A_SINGLE_YEAR,
                 u ++ YearsPattern.prefix (lit "(c) {years}") ++ w1
                   ++ token_text (TRange (lit "2024") w2 w3 (lit "2024")) ++ tl)).
Proof.
  eexists. split; [reflexivity|]. split; [reflexivity|].
  apply (update_file_degenerate_range (lit "(c) {years}")); reflexivity.
Defined.

(** ** The change-set model *)

Section ChangeSetProperties.
Context {path : Type} `{Countable path} (PurePath : str → path).
#[local] Arguments lit : simpl never.

(** The state of [__post_init__] after the records [its], started from the
    state [st]. *)
Lemma post_init_loop_spec its : ∀ changed moved touched changed' moved' touched',
  GitChangeSet.post_init_loop PurePath (changed, moved, touched) its
    = Ok (changed', moved', touched') →
  (∀ p, p ∈ touched' ↔
        p ∈ touched ∨ ∃ item ct extra dst,
          item ∈ its ∧ unpack_item item = Ok (ct, extra, dst) ∧ p = PurePath dst)
  ∧ (∀ p, p ∈ changed' ↔
          p ∈ changed ∨ ∃ item ct extra dst,
            item ∈ its ∧ unpack_item item = Ok (ct, extra, dst)
            ∧ ct ≠ lit "R100" ∧ p = PurePath dst)
  ∧ (∀ pr, pr ∈ moved' ↔
           pr ∈ moved ∨ ∃ item ct src extra dst,
             item ∈ its ∧ unpack_item item = Ok (ct, src :: extra, dst)
             ∧ startswith ct (lit "R") = true ∧ pr = (PurePath src, PurePath dst)).
Proof.
  induction its as [|item its IH]; intros changed moved touched changed' moved' touched'.
  - simpl. intros [= <- <- <-].
    repeat split; try (by left).
    + intros [|(? & ? & ? & ? & Hin & _)]; [done|]. by apply elem_of_nil in Hin.
    + intros [|(? & ? & ? & ? & Hin & _)]; [done|]. by apply elem_of_nil in Hin.
    + intros [|(? & ? & ? & ? & ? & Hin & _)]; [done|]. by apply elem_of_nil in Hin.
  - simpl.
    destruct (unpack_item item) as [[[ct extra] dst]|e] eqn:Hu; [|done].
    destruct (startswith ct (lit "R")) eqn:HR.
    + destruct extra as [|src extra]; [done|]. intros Hloop.
      apply IH in Hloop as (Ht & Hc & Hm). repeat split.
      * intros Hp. apply Ht in Hp as [Hp|(it & ct' & ex' & dst' & Hin & Hu' & ->)].
        -- apply elem_of_union in Hp as [Hp|Hp]; [by left|].
           apply elem_of_singleton in Hp as ->. right.
           exists item, ct, (src :: extra), dst. repeat split; [by left|done].
        -- right. exists it, ct', ex', dst'. repeat split; [by right|done].
      * intros [Hp|(it & ct' & ex' & dst' & Hin & Hu' & ->)]; apply Ht.
        -- left. apply elem_of_union. by left.
        -- apply elem_of_cons in Hin as [->|Hin].
           ++ rewrite Hu in Hu'. injection Hu' as <- <- <-. left.
              apply elem_of_union. right. by apply elem_of_singleton.
           ++ right. by exists it, ct', ex', dst'.
      * intros Hp. apply Hc in Hp as [Hp|(it & ct' & ex' & dst' & Hin & Hu' & Hne & ->)].
        -- destruct (str_eqb ct (lit "R100")) eqn:E; simpl in Hp; [by left|].
           apply str_eqb_neq in E.
           apply elem_of_union in Hp as [Hp|Hp]; [by left|].
           apply elem_of_singleton in Hp as ->. right.
           exists item, ct, (src :: extra), dst. repeat split; [by left|done..].
        -- right. exists it, ct', ex', dst'. repeat split; [by right|done..].
      * intros [Hp|(it & ct' & ex' & dst' & Hin & Hu' & Hne & ->)]; apply Hc.
        -- left. destruct (negb _); [apply elem_of_union; by left|done].
        -- apply elem_of_cons in Hin as [->|Hin].
           ++ rewrite Hu in Hu'. injection Hu' as <- <- <-. left.
              apply str_eqb_neq in Hne. rewrite Hne. simpl.
              apply elem_of_union. right. by apply elem_of_singleton.
           ++ right. by exists it, ct', ex', dst'.
      * intros Hp. apply Hm in Hp as [Hp|(it & ct' & src' & ex' & dst' & Hin & Hu' & HR' & ->)].
        -- apply elem_of_app in Hp as [Hp|Hp]; [by left|].
           apply list_elem_of_singleton in Hp as ->. right.
           exists item, ct, src, extra, dst. repeat split; [by left|done..].
        -- right. exists it, ct', src', ex', dst'. repeat split; [by right|done..].
      * intros [Hp|(it & ct' & src' & ex' & dst' & Hin & Hu' & HR' & ->)]; apply Hm.
        -- left. apply elem_of_app. by left.
        -- apply elem_of_cons in Hin as [->|Hin].
           ++ rewrite Hu in Hu'. injection Hu' as <- <- <- <-. left.
              apply elem_of_app. right. by apply list_elem_of_singleton.
           ++ right. by exists it, ct', src', ex', dst'.
    + intros Hloop. apply IH in Hloop as (Ht & Hc & Hm).
      assert (HneR : ct ≠ lit "R100") by (by intros ->).
      repeat split.
      * intros Hp. apply Ht in Hp as [Hp|(it & ct' & ex' & dst' & Hin & Hu' & ->)].
        -- apply elem_of_union in Hp as [Hp|Hp]; [by left|].
           apply elem_of_singleton in Hp as ->. right.
           exists item, ct, extra, dst. repeat split; [by left|done].
        -- right. exists it, ct', ex', dst'. repeat split; [by right|done].
      * intros [Hp|(it & ct' & ex' & dst' & Hin & Hu' & ->)]; apply Ht.
        -- left. apply elem_of_union. by left.
        -- apply elem_of_cons in Hin as [->|Hin].
           ++ rewrite Hu in Hu'. injection Hu' as <- <- <-. left.
              apply elem_of_union. right. by apply elem_of_singleton.
           ++ right. by exists it, ct', ex', dst'.
      * intros Hp. apply Hc in Hp as [Hp|(it & ct' & ex' & dst' & Hin & Hu' & Hne & ->)].
        -- apply elem_of_union in Hp as [Hp|Hp]; [by left|].
           apply elem_of_singleton in Hp as ->. right.
           exists item, ct, extra, dst. repeat split; [by left|done..].
        -- right. exists it, ct', ex', dst'. repeat split; [by right|done..].
      * intros [Hp|(it & ct' & ex' & dst' & Hin & Hu' & Hne & ->)]; apply Hc.
        -- left. apply elem_of_union. by left.
        -- apply elem_of_cons in Hin as [->|Hin].
           ++ rewrite Hu in Hu'. injection Hu' as <- <- <-. left.
              apply elem_of_union. right. by apply elem_of_singleton.
           ++ right. by exists it, ct', ex', dst'.
      * intros Hp. apply Hm in Hp as [Hp|(it & ct' & src' & ex' & dst' & Hin & Hu' & HR' & ->)].
        -- by left.
        -- right. exists it, ct', src', ex', dst'. repeat split; [by right|done..].
      * intros [Hp|(it & ct' & src' & ex' & dst' & Hin & Hu' & HR' & ->)]; apply Hm.
        -- by left.
        -- apply elem_of_cons in Hin as [->|Hin].
           ++ rewrite Hu in Hu'. injection Hu' as Hct _ _. congruence.
           ++ right. by exists it, ct', src', ex', dst'.
Qed.

Lemma post_init_loop_rename_source its : ∀ st st',
  GitChangeSet.post_init_loop PurePath st its = Ok st' →
  ∀ item ct dst, item ∈ its → unpack_item item = Ok (ct, [], dst) →
  startswith ct (lit "R") = false.
Proof.
  induction its as [|it its IH]; intros st st' Hl item ct dst Hin Hu.
  - by apply elem_of_nil in Hin.
  - simpl in Hl. destruct st as [[changed moved] touched].
    apply elem_of_cons in Hin as [<-|Hin].
    + unfold GitChangeSet.post_init_step in Hl. rewrite Hu in Hl.
      by destruct (startswith ct (lit "R")).
    + destruct (GitChangeSet.post_init_step PurePath (changed, moved, touched) it)
        as [st1|]; [|done].
      by eapply IH.
Qed.

(** C5. The records of the change set [parse] produces are the lines given
    that are not empty, split at the tabs, and in it: [changed_files] is
    included in [touched_files]; the destination of every record is in
    [touched_files];
    a record whose code starts with [R] puts its (source, destination) pair
    in [moved_files]; a record whose code is not [R100] puts its destination
    in [changed_files]; and nothing else is in [changed_files], so a record
    with code [R100] adds nothing to it. *)
Theorem parse_change_set lines cs :
  GitChangeSet.parse PurePath lines = Ok cs →
  GitChangeSet.items cs
  = map (split_on tab)
      (filter (λ line, GitChangeSet.nonempty line = true)
         match lines with
         | LinesStr text => splitlines text
         | LinesList l => l
         end)
  ∧ GitChangeSet.changed_files cs ⊆ GitChangeSet.touched_files cs
  ∧ (∀ item ct extra dst,
       item ∈ GitChangeSet.items cs → unpack_item item = Ok (ct, extra, dst) →
       PurePath dst ∈ GitChangeSet.touched_files cs
       ∧ (ct ≠ lit "R100" → PurePath dst ∈ GitChangeSet.changed_files cs)
       ∧ (startswith ct (lit "R") = true →
          ∃ src, head extra = Some src
                 ∧ (PurePath src, PurePath dst) ∈ GitChangeSet.moved_files cs))
  ∧ (∀ p, p ∈ GitChangeSet.changed_files cs →
          ∃ item ct extra dst,
            item ∈ GitChangeSet.items cs ∧ unpack_item item = Ok (ct, extra, dst)
            ∧ ct ≠ lit "R100" ∧ p = PurePath dst).
Proof.
  unfold GitChangeSet.parse, GitChangeSet.init.
  set (its := map (split_on tab) _).
  destruct (GitChangeSet.post_init_loop PurePath (∅, [], ∅) its)
    as [[[changed moved] touched]|e] eqn:Hloop; [|done].
  intros [= <-]. simpl.
  pose proof Hloop as Hloop'.
  apply post_init_loop_spec in Hloop as (Ht & Hc & Hm).
  split; [done|]. split; [|split].
  - intros p Hp. apply Hc in Hp as [Hp|(it & ct & ex & dst & Hin & Hu & _ & ->)].
    + by apply not_elem_of_empty in Hp.
    + apply Ht. right. by exists it, ct, ex, dst.
  - intros item ct extra dst Hin Hu. split; [|split].
    + apply Ht. right. by exists item, ct, extra, dst.
    + intros Hne. apply Hc. right. by exists item, ct, extra, dst.
    + intros HR. destruct extra as [|src extra].
      * (* a rename record without a source makes [__post_init__] raise *)
        rewrite (post_init_loop_rename_source _ _ _ Hloop' _ _ _ Hin Hu) in HR. done.
      * exists src. split; [done|]. apply Hm. right.
        by exists item, ct, src, extra, dst.
  - intros p Hp. apply Hc in Hp as [Hp|Hp]; [|done].
    by apply not_elem_of_empty in Hp.
Qed.

(** C10, as amended. [parse] ignores empty lines: an empty line anywhere in
    the input changes nothing, and an input of empty lines only gives the
    empty change set, which is false as a truth value. *)
Theorem parse_ignores_empty_lines :
  (∀ l1 l2,
     GitChangeSet.parse PurePath (LinesList (l1 ++ [] :: l2))
     = GitChangeSet.parse PurePath (LinesList (l1 ++ l2)))
  ∧ (∀ lines, Forall (λ line, line = []) lines →
       GitChangeSet.parse PurePath (LinesList lines)
       = Ok (GitChangeSet.Build [] ∅ [] ∅)
       ∧ GitChangeSet.to_bool (GitChangeSet.Build (path := path) [] ∅ [] ∅) = false).
Proof.
  split.
  - intros l1 l2. unfold GitChangeSet.parse.
    by rewrite !filter_app, filter_cons_False by (by intros [=]).
  - intros lines Hl. split; [|done]. unfold GitChangeSet.parse.
    replace (filter _ lines) with (@nil str); [done|].
    induction Hl as [|line lines -> _ IH]; [done|].
    by rewrite filter_cons_False by (by intros [=]).
Qed.

End ChangeSetProperties.

Lemma parse_change_set_witness :
  ∃ cs, GitChangeSet.parse (λ s : str, s)
          (LinesList [lit "R100	x	a"; lit ""; lit "R090	u	v"; lit "M	q"]) = Ok cs
    ∧ GitChangeSet.items cs
      = map (split_on tab)
          (filter (λ line, GitChangeSet.nonempty line = true)
             [lit "R100	x	a"; lit ""; lit "R090	u	v"; lit "M	q"])
    ∧ GitChangeSet.changed_files cs ⊆ GitChangeSet.touched_files cs
    ∧ (∀ item ct extra dst,
         item ∈ GitChangeSet.items cs → unpack_item item = Ok (ct, extra, dst) →
         dst ∈ GitChangeSet.touched_files cs
         ∧ (ct ≠ lit "R100" → dst ∈ GitChangeSet.changed_files cs)
         ∧ (startswith ct (lit "R") = true →
            ∃ src, head extra = Some src ∧ (src, dst) ∈ GitChangeSet.moved_files cs))
    ∧ (∀ p, p ∈ GitChangeSet.changed_files cs →
            ∃ item ct extra dst,
              item ∈ GitChangeSet.items cs ∧ unpack_item item = Ok (ct, extra, dst)
              ∧ ct ≠ lit "R100" ∧ p = dst).
Proof.
  eexists. split; [vm_compute; reflexivity|].
  apply (parse_change_set (λ s : str, s)
           (LinesList [lit "R100	x	a"; lit ""; lit "R090	u	v"; lit "M	q"])).
  vm_compute. reflexivity.
Defined.

(** C10 as stated fails: a line of one space is not ignored, it makes
    [parse] raise. *)
Lemma parse_blank_line_raises :
  GitChangeSet.parse (λ s : str, s) (LinesList [lit " "])
  = Raise (ValueError (lit "not enough values to unpack (expected at least 2, got 1)")).
Proof. reflexivity. Qed.

(** ** The history replay *)

Section HistoryProperties.
Context {path : Type} `{Countable path} {datetime : Type}.
Implicit Types (d : gmap path datetime) (c : GitCommitInfo (path := path) (datetime := datetime)).

(** Commits are given newest first and replayed oldest first. *)
Lemma compute_last_modified_dict_cons c older :
  compute_last_modified_dict (c :: older)
  = replay_commit (compute_last_modified_dict older) c.
Proof.
  unfold compute_last_modified_dict. simpl. by rewrite fold_left_app.
Qed.

Lemma overwrite_changed_lookup (changed : gset path) (date : datetime) d p :
  overwrite_changed changed date d !! p
  = if decide (p ∈ changed) then Some date else d !! p.
Proof.
  unfold overwrite_changed. revert changed.
  apply (set_fold_ind_L
           (λ r (X : gset path), r !! p = if decide (p ∈ X) then Some date else d !! p)).
  - by rewrite decide_False by apply not_elem_of_empty.
  - intros x X r Hx IH. destruct (decide (p = x)) as [->|Hne].
    + rewrite lookup_insert_eq. rewrite decide_True; [done|].
      apply elem_of_union. left. by apply elem_of_singleton.
    + rewrite lookup_insert_ne by done. rewrite IH.
      destruct (decide (p ∈ X)) as [Hin|Hin].
      * rewrite decide_True; [done|]. apply elem_of_union. by right.
      * rewrite decide_False; [done|]. intros Hu.
        apply elem_of_union in Hu as [Hu|Hu]; [|done].
        by apply elem_of_singleton in Hu.
Qed.

(** A path that no rename of the commit has as its destination keeps its
    entry through the propagation loop. *)
Lemma propagate_moves_other (moved : list (path * path)) d p :
  (∀ src, (src, p) ∉ moved) →
  propagate_moves moved d !! p = d !! p.
Proof.
  revert d. induction moved as [|[src dst] moved IH]; intros d Hp; [done|].
  unfold propagate_moves in *. simpl.
  assert (Hne : dst ≠ p).
  { intros ->. apply (Hp src). by left. }
  rewrite IH.
  - destruct (d !! src); [by rewrite lookup_insert_ne|done].
  - intros s Hs. apply (Hp s). by right.
Qed.

(** A rename [A → B] hands the entry of [A] to [B], provided no earlier
    rename of the same commit has [A] as its destination and no later one
    has [B]. *)
Lemma propagate_moves_rename (l1 l2 : list (path * path)) A B d t :
  (∀ src, (src, A) ∉ l1) → (∀ src, (src, B) ∉ l2) →
  d !! A = Some t →
  propagate_moves (l1 ++ (A, B) :: l2) d !! B = Some t.
Proof.
  intros HA HB Hd. unfold propagate_moves. rewrite fold_left_app. simpl.
  fold (propagate_moves l1 d).
  rewrite (propagate_moves_other l1 d A HA), Hd.
  fold (propagate_moves l2 (<[B:=t]> (propagate_moves l1 d))).
  rewrite propagate_moves_other by done. apply lookup_insert_eq.
Qed.

(** The two cases of a rename in the newest commit: a pure rename that no
    other rename of the commit interferes with carries the entry of the
    source over; a rename with a content change takes the commit's date. *)
Lemma replay_pure_rename c older l1 l2 A B t :
  GitChangeSet.moved_files (changes c) = l1 ++ (A, B) :: l2 →
  (∀ src, (src, A) ∉ l1) → (∀ src, (src, B) ∉ l2) →
  B ∉ GitChangeSet.changed_files (changes c) →
  compute_last_modified_dict older !! A = Some t →
  compute_last_modified_dict (c :: older) !! B = Some t.
Proof.
  intros Hm HA HB Hc Hd. rewrite compute_last_modified_dict_cons.
  unfold replay_commit. rewrite overwrite_changed_lookup, decide_False by done.
  rewrite Hm. by apply propagate_moves_rename.
Qed.

Lemma replay_changed c older B :
  B ∈ GitChangeSet.changed_files (changes c) →
  compute_last_modified_dict (c :: older) !! B = Some (author_date c).
Proof.
  intros Hc. rewrite compute_last_modified_dict_cons.
  unfold replay_commit. by rewrite overwrite_changed_lookup, decide_True.
Qed.

(** C2. The replay goes from the oldest commit to the newest; a commit
    first hands the entry of the source of each rename to its destination, in
    the order of the renames, and then gives every changed file its own
    date.  So a rename [A → B] together with a change of [B] leaves [B] with
    the date of the commit, and a rename [A → B] without one leaves [B] with
    the entry [A] had, provided no earlier rename of the same commit has [A]
    as its destination and no later one has [B]. *)
Theorem replay_rename_then_change c older l1 l2 A B :
  GitChangeSet.moved_files (changes c) = l1 ++ (A, B) :: l2 →
  (∀ src, (src, A) ∉ l1) → (∀ src, (src, B) ∉ l2) →
  compute_last_modified_dict (c :: older)
  = overwrite_changed (GitChangeSet.changed_files (changes c)) (author_date c)
      (propagate_moves (GitChangeSet.moved_files (changes c))
         (compute_last_modified_dict older))
  ∧ (B ∉ GitChangeSet.changed_files (changes c) →
     ∀ t, compute_last_modified_dict older !! A = Some t →
          compute_last_modified_dict (c :: older) !! B = Some t)
  ∧ (B ∈ GitChangeSet.changed_files (changes c) →
     compute_last_modified_dict (c :: older) !! B = Some (author_date c)).
Proof.
  intros Hm HA HB. split; [|split].
  - by rewrite compute_last_modified_dict_cons.
  - intros Hc t Ht. by eapply replay_pure_rename.
  - apply replay_changed.
Qed.

End HistoryProperties.

Lemma replay_rename_then_change_witness :
  compute_last_modified_dict (path := nat)
    [mkCommit 2%nat (GitChangeSet.Build [] ∅ [(1%nat, 2%nat)] {[2%nat]});
     mkCommit 1%nat (GitChangeSet.Build [] {[1%nat]} [] {[1%nat]})]
  = overwrite_changed ∅ 2%nat
      (propagate_moves [(1%nat, 2%nat)]
         (compute_last_modified_dict
            [mkCommit 1%nat (GitChangeSet.Build [] {[1%nat]} [] {[1%nat]})]))
  ∧ (2%nat ∉ (∅ : gset nat) →
     ∀ t, compute_last_modified_dict (path := nat)
            [mkCommit 1%nat (GitChangeSet.Build [] {[1%nat]} [] {[1%nat]})] !! 1%nat
          = Some t →
          compute_last_modified_dict (path := nat)
            [mkCommit 2%nat (GitChangeSet.Build [] ∅ [(1%nat, 2%nat)] {[2%nat]});
             mkCommit 1%nat (GitChangeSet.Build [] {[1%nat]} [] {[1%nat]})] !! 2%nat
          = Some t)
  ∧ (2%nat ∈ (∅ : gset nat) →
     compute_last_modified_dict (path := nat)
       [mkCommit 2%nat (GitChangeSet.Build [] ∅ [(1%nat, 2%nat)] {[2%nat]});
        mkCommit 1%nat (GitChangeSet.Build [] {[1%nat]} [] {[1%nat]})] !! 2%nat
     = Some 2%nat).
Proof.
  apply (replay_rename_then_change
           (mkCommit 2%nat (GitChangeSet.Build [] ∅ [(1%nat, 2%nat)] {[2%nat]}))
           [mkCommit 1%nat (GitChangeSet.Build [] {[1%nat]} [] {[1%nat]})]
           [] [] 1%nat 2%nat).
  - reflexivity.
  - intros src. apply not_elem_of_nil.
  - intros src. apply not_elem_of_nil.
Defined.

(** C2 as stated fails: when one commit renames [x] to [a] and [a] to [b],
    the entry of [a] is overwritten with the one of [x] before it is handed
    to [b].  With [a] last changed at time 1 and [x] at time 0, the pure
    rename [a → b] at time 2 leaves [b] with 0. *)
Theorem rename_chain_loses_history :
  ∃ cs2 cs1 cs0,
    GitChangeSet.parse (λ s : str, s)
      (LinesList [lit "R100" ++ tab :: lit "x" ++ tab :: lit "a";
                  lit "R100" ++ tab :: lit "a" ++ tab :: lit "b"]) = Ok cs2
    ∧ GitChangeSet.parse (λ s : str, s) (LinesList [lit "M" ++ tab :: lit "a"]) = Ok cs1
    ∧ GitChangeSet.parse (λ s : str, s) (LinesList [lit "A" ++ tab :: lit "x"]) = Ok cs0
    ∧ GitChangeSet.changed_files cs2 = ∅
    ∧ compute_last_modified_dict [mkCommit 1 cs1; mkCommit 0 cs0] !! (lit "a") = Some 1
    ∧ compute_last_modified_dict [mkCommit 2 cs2; mkCommit 1 cs1; mkCommit 0 cs0]
        !! (lit "b") = Some 0.
Proof.
  eexists _, _, _. split; [vm_compute; reflexivity|].
  split; [vm_compute; reflexivity|]. split; [vm_compute; reflexivity|].
  split; [|split]; vm_compute; reflexivity.
Qed.

(** ** Which match the backtracking search returns *)

Lemma token_ok_range f w2 w3 t :
  f ≠ [] → all_digits f → all_space w2 → all_space w3 → t ≠ [] → all_digits t →
  token_ok (TRange f w2 w3 t).
Proof. intros. simpl. tauto. Qed.

Lemma token_ok_single y : y ≠ [] → all_digits y → token_ok (TSingle y).
Proof. intros. simpl. tauto. Qed.

Lemma rmatch_Lit l s pos caps k :
  rmatch (Lit l) (l ++ s) pos caps k = k s (pos + length l) caps.
Proof. simpl. by rewrite strip_prefix_app. Qed.

Lemma rmatch_Seq r1 r2 s pos caps k :
  rmatch (Seq r1 r2) s pos caps k
  = rmatch r1 s pos caps (λ s' p' c', rmatch r2 s' p' c' k).
Proof. done. Qed.

Lemma rmatch_Group g r s pos caps k :
  rmatch (Group g r) s pos caps k
  = rmatch r s pos caps (λ s' p' c', k s' p' (set_cap g (pos, p') c')).
Proof. done. Qed.

Lemma rmatch_Alt r1 r2 s pos caps k :
  rmatch (Alt r1 r2) s pos caps k
  = match rmatch r1 s pos caps k with
    | Some c => Some c
    | None => rmatch r2 s pos caps k
    end.
Proof. done. Qed.

Ltac rmatch_step := cbv beta; rewrite ?rmatch_Seq, ?rmatch_Group; cbv beta.

Lemma rmatch_Star_longest c a b pos caps k x :
  Forall (λ d, cclass_test c d = true) a → no_head (cclass_test c) b →
  k b (pos + length a) caps = Some x →
  rmatch (Star c) (a ++ b) pos caps k = Some x.
Proof. intros Ha Hb Hk. simpl. by apply star_greedy_longest. Qed.

Lemma rmatch_Plus_longest c a b pos caps k x :
  a ≠ [] → Forall (λ d, cclass_test c d = true) a → no_head (cclass_test c) b →
  k b (pos + length a) caps = Some x →
  rmatch (Plus c) (a ++ b) pos caps k = Some x.
Proof.
  intros Hne Ha Hb Hk. destruct a as [|d a]; [done|].
  inversion Ha as [|? ? Hd Ha']; subst. simpl. rewrite Hd.
  apply star_greedy_longest; [done..|].
  simpl in Hk. by replace (S pos + length a) with (pos + S (length a)) by lia.
Qed.

(** The end of the pattern, [\s*] and the literal suffix, accepts whenever
    the text allows it, and leaves the captures as they are. *)
Lemma rmatch_tail w4 suf rest pos caps :
  all_space w4 →
  rmatch (Star Space) (w4 ++ suf ++ rest) pos caps
    (λ s' p' c', rmatch (Lit suf) s' p' c' accept) = Some caps.
Proof.
  intros Hw4.
  destruct (rmatch (Star Space) (w4 ++ suf ++ rest) pos caps
              (λ s' p' c', rmatch (Lit suf) s' p' c' accept)) as [x|] eqn:E.
  - apply rmatch_sound in E as (s' & p' & c' & (a & _ & _ & _ & ->) & Hk).
    simpl in Hk. destruct (strip_prefix suf s'); [|done].
    unfold accept in Hk. congruence.
  - assert (Hs : is_Some (rmatch (Star Space) (w4 ++ suf ++ rest) pos caps
                            (λ s' p' c', rmatch (Lit suf) s' p' c' accept))).
    { eapply rmatch_complete.
      - exists w4. by repeat split.
      - rewrite rmatch_Lit. by unfold accept. }
    rewrite E in Hs. by destruct Hs.
Qed.

(** A run of characters of one class, followed by a character outside the
    class, is determined by the text. *)
Lemma run_unique (f : ascii → bool) a b a' b' :
  Forall (λ c, f c = true) a → Forall (λ c, f c = true) a' →
  no_head f b → no_head f b' →
  a ++ b = a' ++ b' → a = a' ∧ b = b'.
Proof.
  revert a'. induction a as [|c a IH]; intros a' Ha Ha' Hb Hb' E.
  - destruct a' as [|c' a']; [done|]. simpl in E. subst b.
    inversion Ha'; subst. simpl in Hb. congruence.
  - inversion Ha as [|? ? Hc Ha1]; subst. destruct a' as [|c' a'].
    + simpl in E. subst b'. simpl in Hb'. congruence.
    + inversion Ha' as [|? ? Hc' Ha1']; subst. injection E as <- E.
      destruct (IH a' Ha1 Ha1' Hb Hb' E) as [-> ->]. done.
Qed.

Lemma no_head_digit_space s : all_space s → ∀ r, no_head is_digit r → no_head is_digit (s ++ r).
Proof.
  intros Hs r Hr. destruct s as [|c s]; [done|]. inversion Hs; subst.
  simpl. by apply space_not_digit.
Qed.

Lemma no_head_space_digit s r : s ≠ [] → all_digits s → no_head is_space (s ++ r).
Proof.
  intros Hne Hs. destruct s as [|c s]; [done|]. inversion Hs; subst.
  simpl. by apply digit_not_space.
Qed.

(** The range alternative, on a range that a non-digit follows. *)
Lemma rmatch_range_first f w2 w3 t tl pos caps k x :
  token_ok (TRange f w2 w3 t) → no_head is_digit tl →
  k tl (pos + length (token_text (TRange f w2 w3 t)))
    (set_cap g_to (pos + length f + length w2 + 1 + length w3,
                   pos + length f + length w2 + 1 + length w3 + length t)
       (set_cap g_from (pos, pos + length f) caps)) = Some x →
  rmatch YearsPattern.r_year_range (token_text (TRange f w2 w3 t) ++ tl) pos caps k
  = Some x.
Proof.
  intros (Hf0 & Hf & Hw2 & Hw3 & Ht0 & Ht) Htl Hk.
  unfold YearsPattern.r_year_range.
  cbn [token_text]. rewrite <- !app_assoc. rmatch_step.
  apply rmatch_Plus_longest; [done..| |].
  { apply no_head_digit_space; [done|]. simpl. apply hyphen_not_digit. }
  rmatch_step. apply rmatch_Star_longest; [done| |].
  { simpl. apply hyphen_not_space. }
  rmatch_step. rewrite rmatch_Lit. rmatch_step.
  apply rmatch_Star_longest; [done| |].
  { by apply no_head_space_digit. }
  rmatch_step. apply rmatch_Plus_longest; [done..|].
  rewrite <- Hk. f_equal. list_norm. lia.
Qed.

(** The single-year alternative, on a year that a non-digit follows. *)
Lemma rmatch_single_first y tl pos caps k x :
  token_ok (TSingle y) → no_head is_digit tl →
  k tl (pos + length y) (set_cap g_year (pos, pos + length y) caps) = Some x →
  rmatch YearsPattern.r_single_year (y ++ tl) pos caps k = Some x.
Proof.
  intros (Hy0 & Hy) Htl Hk. unfold YearsPattern.r_single_year. rmatch_step.
  by apply rmatch_Plus_longest.
Qed.

(** The range alternative fails on a single year that is followed neither
    by a digit nor, white space apart, by a hyphen. *)
Lemma rmatch_range_fails y w q r pos caps k :
  all_digits y → all_space w → is_space q = false → is_digit q = false →
  q ≠ hyphen →
  rmatch YearsPattern.r_year_range (y ++ w ++ q :: r) pos caps k = None.
Proof.
  intros Hy Hw Hqs Hqd Hqh.
  destruct (rmatch YearsPattern.r_year_range (y ++ w ++ q :: r) pos caps k)
    as [x|] eqn:E; [|done].
  apply rmatch_sound in E as (s' & p' & c' & M & _).
  unfold YearsPattern.r_year_range in M. simpl in M.
  destruct M as (s5 & p5 & c5 & (c6 & (f & Ef & Hf0 & Hf & _) & _)
                 & s6 & p6 & c7 & (w2 & -> & Hw2 & _)
                 & s7 & p7 & c8 & (-> & _) & _).
  apply (run_unique is_digit) in Ef as [_ Ef]; [| done | done | |].
  - apply (run_unique is_space) in Ef as [_ Ef];
      [congruence | done | done | by simpl |].
    simpl. apply hyphen_not_space.
  - apply no_head_digit_space; [done|]. by simpl.
  - apply no_head_digit_space; [done|]. simpl. apply hyphen_not_digit.
Qed.

Lemma first_nonspace_split s q :
  first_nonspace s = Some q →
  ∃ w r, s = w ++ q :: r ∧ all_space w ∧ is_space q = false.
Proof.
  unfold first_nonspace. induction s as [|c s IH]; simpl; [done|].
  destruct (is_space c) eqn:Hc; simpl.
  - intros Hq. destruct (IH Hq) as (w & r & -> & Hw & Hqs).
    exists (c :: w), r. split; [done|]. split; [by constructor|done].
  - intros [= <-]. exists [], s. split; [done|]. split; [by constructor|done].
Qed.

Lemma first_nonspace_app_space w s :
  all_space w → first_nonspace (w ++ s) = first_nonspace s.
Proof.
  unfold first_nonspace. induction 1 as [|c w Hc _ IH]; simpl; [done|].
  by rewrite Hc.
Qed.

Lemma first_nonspace_app_Some s r q :
  first_nonspace s = Some q → first_nonspace (s ++ r) = Some q.
Proof.
  unfold first_nonspace. induction s as [|c s IH]; simpl; [done|].
  by destruct (negb (is_space c)).
Qed.

(** What follows a token in a header of a template with a closed suffix. *)
Lemma tail_shape suf w4 rest :
  digit_free suf → closed_suffix suf → all_space w4 →
  ∃ w q r, w4 ++ suf ++ rest = w ++ q :: r ∧ all_space w
           ∧ is_space q = false ∧ is_digit q = false ∧ q ≠ hyphen.
Proof.
  intros Hd (q & Hq & Hqh) Hw4.
  apply first_nonspace_split in Hq as (w & r & -> & Hw & Hqs).
  exists (w4 ++ w), q, (r ++ rest).
  split; [by list_norm|]. split; [by apply Forall_app|]. split; [done|].
  split; [|done]. apply Forall_app in Hd as [_ Hd]. by inversion Hd.
Qed.

Lemma token_head_digit tok r : token_ok tok → no_head is_space (token_text tok ++ r).
Proof.
  destruct tok as [y|f w2 w3 t]; simpl.
  - intros [Hy0 Hy]. by apply no_head_space_digit.
  - intros (Hf0 & Hf & _). rewrite <- app_assoc. by apply no_head_space_digit.
Qed.

(** The anchored match on a header whose token no digit follows returns the
    token that stands there; for a single year, provided the suffix is
    closed, so that the year cannot be read as the start of a range. *)
Lemma match_at_token pre suf w1 tok w4 rest pos :
  all_space w1 → all_space w4 → token_ok tok →
  no_head is_digit (w4 ++ suf ++ rest) →
  (∀ y, tok = TSingle y → digit_free suf ∧ closed_suffix suf) →
  match_at (YearsPattern.re_pattern pre suf)
    (pre ++ w1 ++ token_text tok ++ w4 ++ suf ++ rest) pos
  = Some (token_caps (pos + length pre + length w1) tok).
Proof.
  intros Hw1 Hw4 Htok Htl Hsingle.
  unfold match_at, YearsPattern.re_pattern, YearsPattern.r_year_or_range.
  rmatch_step. rewrite rmatch_Lit. rmatch_step.
  apply rmatch_Star_longest; [done|by apply token_head_digit|].
  rmatch_step. rewrite rmatch_Alt.
  destruct tok as [y|f w2 w3 t].
  - destruct (Hsingle y eq_refl) as [Hd Hcl].
    destruct (tail_shape suf w4 rest Hd Hcl Hw4) as (w & q & r & E & Hw & Hqs & Hqd & Hqh).
    cbn [token_text]. rewrite E at 1.
    rewrite rmatch_range_fails by (done || by destruct Htok).
    apply rmatch_single_first; [done..|]. rmatch_step.
    by rewrite rmatch_tail.
  - erewrite rmatch_range_first; [done|done|done|]. rmatch_step.
    by rewrite rmatch_tail.
Qed.

(** ** The token the search returns when no digit follows the placeholder *)

Ltac rmatch_step_in H := cbv beta in H; rewrite ?rmatch_Seq, ?rmatch_Group in H; cbv beta in H.

(** With a continuation that never fails, greedy repetition keeps the
    longest run. *)
Lemma star_greedy_total f s pos k :
  (∀ s' p', is_Some (k s' p')) →
  ∃ a b, s = a ++ b ∧ Forall (λ c, f c = true) a ∧ no_head f b
         ∧ star_greedy f s pos k = k b (pos + length a).
Proof.
  intros Hk. revert pos. induction s as [|c s IH]; intros pos.
  - exists [], []. simpl. by rewrite Nat.add_0_r.
  - simpl. destruct (f c) eqn:Hc.
    + destruct (IH (S pos)) as (a & b & -> & Ha & Hb & E).
      exists (c :: a), b. split; [done|]. split; [by constructor|]. split; [done|].
      rewrite E. simpl. replace (pos + S (length a)) with (S pos + length a) by lia.
      simpl. by destruct (Hk b (S (pos + length a))) as [r ->].
    + exists [], (c :: s). simpl. by rewrite Nat.add_0_r.
Qed.

Lemma rmatch_Plus_total c s pos caps k x :
  (∀ s' p' c', is_Some (k s' p' c')) →
  rmatch (Plus c) s pos caps k = Some x →
  ∃ a b, s = a ++ b ∧ a ≠ [] ∧ Forall (λ d, cclass_test c d = true) a
         ∧ no_head (cclass_test c) b ∧ k b (pos + length a) caps = Some x.
Proof.
  intros Hk. simpl. destruct s as [|d s]; [done|].
  destruct (cclass_test c d) eqn:Hd; [|done].
  destruct (star_greedy_total (cclass_test c) s (S pos) (λ s' p', k s' p' caps))
    as (a & b & -> & Ha & Hb & ->); [by intros; apply Hk|].
  intros Hx. exists (d :: a), b. split; [done|]. split; [done|].
  split; [by constructor|]. split; [done|].
  simpl. by replace (pos + S (length a)) with (S pos + length a) by lia.
Qed.

Lemma rmatch_tail_nil s pos caps :
  rmatch (Star Space) s pos caps (λ s' p' c', rmatch (Lit []) s' p' c' accept)
  = Some caps.
Proof. apply (rmatch_tail [] [] s). constructor. Qed.

(** With nothing after the placeholder, the token of the match is followed
    by no digit. *)
Lemma match_at_sound_nil pre s pos c :
  match_at (YearsPattern.re_pattern pre []) s pos = Some c →
  ∃ w1 tok tl, header_here pre [] s w1 tok tl
               ∧ c = token_caps (pos + length pre + length w1) tok
               ∧ no_head is_digit tl.
Proof.
  unfold match_at, YearsPattern.re_pattern, YearsPattern.r_year_or_range.
  rmatch_step. intros Hm.
  apply rmatch_sound in Hm as (s1 & p1 & c1 & (-> & -> & ->) & Hm).
  rmatch_step_in Hm.
  apply rmatch_sound in Hm as (s2 & p2 & c2 & (w1 & -> & Hw1 & -> & ->) & Hm).
  rmatch_step_in Hm. rewrite rmatch_Alt in Hm.
  set (KT := λ (s' : str) (p' : nat) (c' : captures),
               rmatch (Star Space) s' p' c'
                 (λ s'0 p'0 c'0, rmatch (Lit []) s'0 p'0 c'0 accept)) in Hm.
  assert (HKT : ∀ s' p' c', KT s' p' c' = Some c').
  { intros. apply rmatch_tail_nil. }
  destruct (rmatch YearsPattern.r_year_range s2 _ no_captures KT) as [x|] eqn:Hr.
  - injection Hm as ->. unfold YearsPattern.r_year_range in Hr.
    rmatch_step_in Hr.
    apply rmatch_sound in Hr as (s3 & p3 & c3 & (f & -> & Hf0 & Hf & -> & ->) & Hr).
    rmatch_step_in Hr.
    apply rmatch_sound in Hr as (s4 & p4 & c4 & (w2 & -> & Hw2 & -> & ->) & Hr).
    rmatch_step_in Hr.
    apply rmatch_sound in Hr as (s5 & p5 & c5 & (-> & -> & ->) & Hr).
    rmatch_step_in Hr.
    apply rmatch_sound in Hr as (s6 & p6 & c6 & (w3 & -> & Hw3 & -> & ->) & Hr).
    rmatch_step_in Hr.
    apply rmatch_Plus_total in Hr as (t & b & -> & Ht0 & Ht & Hb & Hk).
    2:{ intros. rewrite HKT. by eexists. }
    rewrite HKT in Hk. injection Hk as <-.
    exists w1, (TRange f w2 w3 t), b. split; [|split; [|done]].
    + exists [], b. split; [by list_norm|]. split; [done|]. split; [done|].
      split; [constructor|]. by apply token_ok_range.
    + simpl. do 4 f_equal; simpl; lia.
  - unfold YearsPattern.r_single_year in Hm. rmatch_step_in Hm.
    apply rmatch_Plus_total in Hm as (y & b & -> & Hy0 & Hy & Hb & Hk).
    2:{ intros. rewrite HKT. by eexists. }
    rewrite HKT in Hk. injection Hk as <-.
    exists w1, (TSingle y), b. split; [|split; [|done]].
    + exists [], b. split; [by list_norm|]. split; [done|]. split; [done|].
      split; [constructor|]. by apply token_ok_single.
    + done.
Qed.

Lemma match_at_sound_tight pre suf s pos c :
  digit_free suf →
  match_at (YearsPattern.re_pattern pre suf) s pos = Some c →
  ∃ w1 tok tl, header_here pre suf s w1 tok tl
               ∧ c = token_caps (pos + length pre + length w1) tok
               ∧ no_head is_digit tl.
Proof.
  intros Hd Hm. destruct suf as [|q suf]; [by apply match_at_sound_nil|].
  apply match_at_sound in Hm as (w1 & tok & tl & Hh & ->).
  exists w1, tok, tl. split; [done|]. split; [done|].
  destruct Hh as (w4 & rest & _ & -> & _ & Hw4 & _).
  destruct w4 as [|x w4]; simpl.
  - by inversion Hd.
  - inversion Hw4; subst. by apply space_not_digit.
Qed.

Lemma re_search_located_tight pre suf content m :
  digit_free suf →
  re_search (YearsPattern.re_pattern pre suf) content = Some m →
  ∃ u w1 tok tl,
    located pre suf content u w1 tok tl
    ∧ m = mkMatch content (token_caps (length u + length pre + length w1) tok)
    ∧ no_head is_digit tl.
Proof.
  intros Hd. unfold re_search.
  destruct (search_from _ content 0) as [c|] eqn:E; [|done]. intros [= <-].
  apply search_from_spec in E as (u & v & -> & Hm & Hleft).
  apply match_at_sound_tight in Hm as (w1 & tok & tl & Hh & -> & Htl); [|done].
  pose proof Hh as (w4 & rest & -> & -> & _).
  exists u, w1, tok, (w4 ++ suf ++ rest). split; [|done].
  split; [done|]. split; [done|].
  intros u1 u2 w1' tok' tl' -> Hne Hh'.
  apply (match_at_complete _ _ _ (0 + length u1)) in Hh' as [x Hx].
  rewrite (Hleft u1 u2 eq_refl Hne) in Hx. done.
Qed.

Lemma extract_header_tight tmpl pat content ys :
  YearsPattern.init tmpl = Ok pat →
  digit_free (YearsPattern.suffix tmpl) →
  YearsPattern.extract pat content = Some ys →
  ∃ u w1 tok tl,
    located (YearsPattern.prefix tmpl) (YearsPattern.suffix tmpl) content u w1 tok tl
    ∧ token_years tok = ys
    ∧ no_head is_digit tl
    ∧ ∀ new_range,
        YearsPattern.replace pat content new_range
        = Ok ((u ++ YearsPattern.prefix tmpl ++ w1) ++ token_rewrite tok new_range ++ tl).
Proof.
  intros Hinit Hd He. pose proof (init_regexp _ _ Hinit) as Hre.
  destruct (re_search (YearsPattern.regexp pat) content) as [m|] eqn:Hs.
  2:{ apply extract_None in Hs. congruence. }
  pose proof Hs as Hs'. rewrite Hre in Hs'.
  apply re_search_located_tight in Hs' as (u & w1 & tok & tl & Hloc & -> & Htl); [|done].
  exists u, w1, tok, tl. split; [done|].
  pose proof (located_token_ok _ _ _ _ _ _ _ Hloc) as Htok.
  pose proof (located_content _ _ _ _ _ _ _ Hloc) as Hc.
  replace (length u + length (YearsPattern.prefix tmpl) + length w1)
    with (length (u ++ YearsPattern.prefix tmpl ++ w1)) in Hs
    by (rewrite !length_app; lia).
  split; [|split; [done|]].
  - pose proof (extract_at _ _ _ _ _ Hs Hc Htok) as He'. congruence.
  - intros new_range. by eapply replace_at.
Qed.

(** ** No header appears further left after a rewrite *)

Lemma app_eq_split (a b c d : str) :
  a ++ b = c ++ d →
  (∃ m, m ≠ [] ∧ a = c ++ m ∧ d = m ++ b)
  ∨ (a = c ∧ b = d)
  ∨ (∃ m, m ≠ [] ∧ c = a ++ m ∧ b = m ++ d).
Proof.
  intros E. apply app_eq_app in E as [m [[-> ->]|[-> ->]]].
  - destruct m as [|x m].
    + right. left. by rewrite app_nil_r.
    + left. by exists (x :: m).
  - destruct m as [|x m].
    + right. left. by rewrite app_nil_r.
    + right. right. by exists (x :: m).
Qed.

Lemma starts_digit_app_inv k r : k ≠ [] → starts_digit (k ++ r) → starts_digit k.
Proof.
  intros Hk (d & s' & E & Hd). destruct k as [|c k]; [done|].
  injection E as -> _. by exists d, k.
Qed.

Lemma starts_digit_app k r : starts_digit k → starts_digit (k ++ r).
Proof. intros (d & s' & -> & Hd). by exists d, (s' ++ r). Qed.

Lemma starts_digit_nondigits k :
  starts_digit k → Forall (λ c, is_digit c = false) k → False.
Proof. intros (d & s' & -> & Hd) Hk. inversion Hk; subst. congruence. Qed.

Lemma starts_digit_spaces k : starts_digit k → all_space k → False.
Proof.
  intros (d & s' & -> & Hd) Hk. inversion Hk as [|? ? Hs _]; subst.
  apply space_not_digit in Hs. congruence.
Qed.

Lemma token_starts_digit tok : token_ok tok → starts_digit (token_text tok).
Proof.
  destruct tok as [y|f w2 w3 t]; simpl.
  - intros [Hy0 Hy]. destruct y as [|d y]; [done|]. inversion Hy; subst.
    by exists d, y.
  - intros (Hf0 & Hf & _). destruct f as [|d f]; [done|]. inversion Hf; subst.
    by eexists d, _.
Qed.

Lemma digits_last (s : str) c : all_digits s → last s = Some c → is_digit c = true.
Proof.
  intros Hs Hl. apply last_Some_elem_of in Hl.
  unfold all_digits in Hs. rewrite Forall_forall in Hs. by apply Hs.
Qed.

Lemma token_last_digit tok c :
  token_ok tok → last (token_text tok) = Some c → is_digit c = true.
Proof.
  destruct tok as [y|f w2 w3 t]; simpl.
  - intros [_ Hy]. by apply digits_last.
  - intros (_ & _ & _ & _ & Ht0 & Ht).
    change (f ++ w2 ++ hyphen :: w3 ++ t) with (f ++ w2 ++ [hyphen] ++ w3 ++ t).
    rewrite !app_assoc, last_app.
    destruct (last t) as [x|] eqn:E.
    + intros [= <-]. by eapply digits_last.
    + apply last_None in E. done.
Qed.

Lemma last_nonspace_app_space a w :
  all_space w → last_nonspace (a ++ w) = last_nonspace a.
Proof.
  intros Hw. unfold last_nonspace. rewrite rev_app_distr.
  apply first_nonspace_app_space. by apply Forall_rev.
Qed.

Lemma last_nonspace_app_Some a b c :
  last_nonspace b = Some c → last_nonspace (a ++ b) = Some c.
Proof.
  intros Hb. unfold last_nonspace in *. rewrite rev_app_distr.
  by apply first_nonspace_app_Some.
Qed.

Lemma last_nonspace_ends s p :
  last_nonspace s = Some p → is_digit p = false → ends_nondigit s.
Proof.
  intros Hs Hp c Hc. apply last_Some in Hc as [s' ->].
  destruct (is_space c) eqn:E; [by apply space_not_digit|].
  unfold last_nonspace, first_nonspace in Hs.
  rewrite rev_app_distr in Hs. simpl in Hs. rewrite E in Hs. simpl in Hs.
  congruence.
Qed.

(** Where a token can be cut so that a non-digit ends the left part and a
    digit starts the right part: after the hyphen of a range and the white
    space that follows it. *)
Lemma token_cut tok m k :
  token_ok tok → token_text tok = m ++ k →
  m ≠ [] → ends_nondigit m → starts_digit k →
  last_nonspace m = Some hyphen.
Proof.
  intros Htok E Hm Hend Hk.
  assert (Hlast : ∀ s, all_digits s → ∀ x, m = x ++ s → s ≠ [] → False).
  { intros s Hs x -> Hs0. destruct (last s) as [c|] eqn:El.
    - pose proof (digits_last _ _ Hs El) as Hd.
      rewrite (Hend c) in Hd; [done|]. rewrite last_app. by rewrite El.
    - by apply last_None in El. }
  destruct tok as [y|f w2 w3 t]; simpl in *.
  - destruct Htok as [_ Hy]. rewrite E in Hy. apply Forall_app in Hy as [Hy _].
    destruct (Hlast m Hy [] eq_refl Hm).
  - destruct Htok as (Hf0 & Hf & Hw2 & Hw3 & Ht0 & Ht).
    assert (HB : Forall (λ c, is_digit c = false) (w2 ++ [hyphen] ++ w3)).
    { apply Forall_app. split; [|apply Forall_app; split].
      - eapply Forall_impl; [exact Hw2|]. intros c. apply space_not_digit.
      - constructor; [apply hyphen_not_digit|constructor].
      - eapply Forall_impl; [exact Hw3|]. intros c. apply space_not_digit. }
    assert (E' : (f ++ w2 ++ [hyphen] ++ w3) ++ t = m ++ k) by (rewrite <- E; by list_norm).
    apply app_eq_split in E' as [(k1 & Hk1 & EA & ->)|[[EA _]|(m' & Hm' & -> & Et)]].
    + apply starts_digit_app_inv in Hk; [|done].
      apply app_eq_split in EA as [(x & _ & -> & _)|[[-> _]|(m' & Hm' & -> & EB)]].
      * apply Forall_app in Hf as [Hf _]. destruct (Hlast m Hf [] eq_refl Hm).
      * destruct (Hlast m Hf [] eq_refl Hm).
      * rewrite EB in HB. apply Forall_app in HB as [_ HB].
        destruct (starts_digit_nondigits _ Hk HB).
    + rewrite <- EA.
      replace (f ++ w2 ++ [hyphen] ++ w3) with ((f ++ w2 ++ [hyphen]) ++ w3) by by list_norm.
      rewrite last_nonspace_app_space by done.
      rewrite !app_assoc. by apply last_nonspace_app_Some.
    + rewrite Et in Ht. apply Forall_app in Ht as [Ht _].
      destruct (Hlast m' Ht _ eq_refl Hm').
Qed.

(** If, after the token of a header at offset [length u2] has been replaced
    by another token, a header shows up further left, then one was there
    before the replacement. *)
Lemma earlier_header_transfers pre suf u2 w1 tok tok' w4o resto w1' tok'' tl'' :
  plain_prefix pre → digit_free suf →
  u2 ≠ [] → all_space w1 → all_space w4o → token_ok tok → token_ok tok' →
  header_here pre suf (u2 ++ pre ++ w1 ++ token_text tok' ++ w4o ++ suf ++ resto)
    w1' tok'' tl'' →
  ∃ w1o toko tlo,
    header_here pre suf (u2 ++ pre ++ w1 ++ token_text tok ++ w4o ++ suf ++ resto)
      w1o toko tlo.
Proof.
  intros (p & Hp & Hpd & Hph) Hsd Hu2 Hw1 Hw4o Htok Htok'
    (w4 & rest & E & -> & Hw1' & Hw4 & Htok'').
  set (tl := w4o ++ suf ++ resto) in *.
  assert (Hsd' : Forall (λ c, is_digit c = false) (w4 ++ suf)).
  { apply Forall_app. split; [|done].
    eapply Forall_impl; [exact Hw4|]. intros c. apply space_not_digit. }
  assert (HX' : ∀ r, starts_digit (token_text tok' ++ r)).
  { intros r. by apply starts_digit_app, token_starts_digit. }
  assert (Hlast : last_nonspace (u2 ++ pre ++ w1) = Some p).
  { rewrite !app_assoc, last_nonspace_app_space by done.
    by apply last_nonspace_app_Some. }
  assert (E1 : (u2 ++ pre ++ w1) ++ token_text tok' ++ tl
               = (pre ++ w1') ++ token_text tok'' ++ w4 ++ suf ++ rest)
    by (rewrite <- !app_assoc; exact E).
  apply app_eq_split in E1 as [(m & Hm & Ea & Ed)|[[Ea Ed]|(m & Hm & Ec & Eb)]].
  - (* the earlier head ends inside [u2 ++ pre ++ w1] *)
    assert (Hmend : ends_nondigit m).
    { intros c Hc. eapply (last_nonspace_ends _ _ Hlast Hpd).
      rewrite Ea, last_app. by rewrite Hc. }
    apply app_eq_split in Ed as [(k & Hk & EX & Ek)|[[EX _]|(k & Hk & Em & Etl)]].
    + (* the earlier token reaches into the replaced one *)
      assert (Hkd : starts_digit k).
      { apply (starts_digit_app_inv k (w4 ++ suf ++ rest)); [done|].
        rewrite <- Ek. apply HX'. }
      pose proof (token_cut _ _ _ Htok'' EX Hm Hmend Hkd) as Hcut.
      rewrite Ea in Hlast.
      rewrite (last_nonspace_app_Some _ _ _ Hcut) in Hlast. congruence.
    + (* the earlier token ends where the replaced one starts *)
      destruct (last m) as [c|] eqn:El; [|by apply last_None in El].
      pose proof (Hmend c El) as Hc. rewrite <- EX in El.
      rewrite (token_last_digit _ _ Htok'' El) in Hc. done.
    + (* the earlier token ends before the replaced one starts *)
      assert (Etl' : (w4 ++ suf) ++ rest = k ++ token_text tok' ++ tl)
        by (rewrite <- Etl; by list_norm).
      apply app_eq_split in Etl' as [(k2 & Hk2 & Ews & Ek2)|[[Ews _]|(k2 & Hk2 & -> & _)]].
      * assert (Hk2d : starts_digit k2).
        { apply (starts_digit_app_inv k2 rest); [done|]. rewrite <- Ek2. apply HX'. }
        rewrite Ews in Hsd'. apply Forall_app in Hsd' as [_ Hsd'].
        destruct (starts_digit_nondigits _ Hk2d Hsd').
      * exists w1', tok'', (w4 ++ suf ++ token_text tok ++ tl).
        exists w4, (token_text tok ++ tl). split; [|by repeat split].
        rewrite !app_assoc. rewrite !app_assoc in Ea. rewrite Ea, Em, <- Ews.
        by list_norm.
      * exists w1', tok'', (w4 ++ suf ++ k2 ++ token_text tok ++ tl).
        exists w4, (k2 ++ token_text tok ++ tl). split; [|by repeat split].
        rewrite !app_assoc. rewrite !app_assoc in Ea. rewrite Ea, Em.
        by list_norm.
  - (* the earlier head ends where the replaced token starts *)
    exists w1', tok, tl. exists w4o, resto. split; [|by repeat split].
    rewrite !app_assoc. rewrite !app_assoc in Ea. rewrite Ea. by list_norm.
  - (* the earlier head would reach into the replaced token *)
    assert (Hmd : starts_digit m).
    { apply (starts_digit_app_inv m (token_text tok'' ++ w4 ++ suf ++ rest)); [done|].
      rewrite <- Eb. apply HX'. }
    apply app_eq_split in Ec as [(x & _ & Ex & _)|[[Ex _]|(x & _ & _ & Ew)]].
    + apply (f_equal length) in Ex. rewrite !length_app in Ex.
      destruct u2; [done|]. simpl in Ex. lia.
    + apply (f_equal length) in Ex. rewrite !length_app in Ex.
      destruct u2; [done|]. simpl in Ex. lia.
    + rewrite Ew in Hw1'. apply Forall_app in Hw1' as [_ Hw1'].
      destruct (starts_digit_spaces _ Hmd Hw1').
Qed.

(** After the token of the first header has been replaced by another token,
    the search finds that token, at the same place. *)
Lemma re_search_relocated pre suf content u w1 tok tl tok' :
  plain_prefix pre → digit_free suf →
  located pre suf content u w1 tok tl → no_head is_digit tl → token_ok tok' →
  (∀ y, tok' = TSingle y → closed_suffix suf) →
  re_search (YearsPattern.re_pattern pre suf) (u ++ pre ++ w1 ++ token_text tok' ++ tl)
  = Some (mkMatch (u ++ pre ++ w1 ++ token_text tok' ++ tl)
            (token_caps (length u + length pre + length w1) tok')).
Proof.
  intros Hpre Hsuf (_ & (w4 & rest & _ & -> & Hw1 & Hw4 & Htok) & Hleft) Htl Htok' Hcl.
  unfold re_search.
  assert (Hs : search_from (YearsPattern.re_pattern pre suf)
                 (u ++ pre ++ w1 ++ token_text tok' ++ w4 ++ suf ++ rest) 0
               = Some (token_caps (length u + length pre + length w1) tok')).
  { apply search_from_spec.
    exists u, (pre ++ w1 ++ token_text tok' ++ w4 ++ suf ++ rest).
    split; [done|]. split.
    { apply match_at_token; try done. intros y Hy. split; [done|]. by eapply Hcl. }
    intros u1 u2 -> Hu2.
    destruct (match_at _ (u2 ++ _) _) as [c|] eqn:E; [|done].
    apply match_at_sound in E as (w1' & tok'' & tl'' & Hh & _).
    eapply (earlier_header_transfers _ _ _ _ tok) in Hh as (w1o & toko & tlo & Hh);
      try done.
    destruct (Hleft u1 u2 w1o toko tlo eq_refl Hu2 Hh). }
  by rewrite Hs.
Qed.

Lemma extract_relocated tmpl pat content u w1 tok tl tok' :
  YearsPattern.init tmpl = Ok pat →
  plain_prefix (YearsPattern.prefix tmpl) → digit_free (YearsPattern.suffix tmpl) →
  located (YearsPattern.prefix tmpl) (YearsPattern.suffix tmpl) content u w1 tok tl →
  no_head is_digit tl → token_ok tok' →
  (∀ y, tok' = TSingle y → closed_suffix (YearsPattern.suffix tmpl)) →
  YearsPattern.extract pat
    ((u ++ YearsPattern.prefix tmpl ++ w1) ++ token_text tok' ++ tl)
  = Some (token_years tok').
Proof.
  intros Hinit Hpre Hsuf Hloc Htl Htok' Hcl.
  eapply extract_at; [|done|done].
  rewrite (init_regexp _ _ Hinit).
  replace ((u ++ YearsPattern.prefix tmpl ++ w1) ++ token_text tok' ++ tl)
    with (u ++ YearsPattern.prefix tmpl ++ w1 ++ token_text tok' ++ tl) by by list_norm.
  rewrite (re_search_relocated _ _ _ _ _ _ _ tok' Hpre Hsuf Hloc Htl Htok' Hcl).
  do 3 f_equal. rewrite !length_app. lia.
Qed.

(** C4, as amended. For a template with a plain prefix and no digit after
    the placeholder, with the last-change year equal to the current year (a
    non-empty string of digits), and a content that [settles]: [update_file]
    applied to the content it returned yields no diagnostic and returns that
    content. *)
Theorem update_file_twice tmpl pat content year required :
  YearsPattern.init tmpl = Ok pat →
  plain_prefix (YearsPattern.prefix tmpl) → digit_free (YearsPattern.suffix tmpl) →
  year ≠ [] → all_digits year →
  settles required (YearsPattern.extract pat content) year (YearsPattern.suffix tmpl) →
  ∃ d1 c1,
    update_file content year pat year required = Ok (d1, c1)
    ∧ update_file c1 year pat year required = Ok (None, c1).
Proof.
  intros Hinit Hpre Hsuf Hy0 Hy Hset.
  destruct (YearsPattern.extract pat content) as [ys|] eqn:He.
  2:{ simpl in Hset. subst required. exists None, content.
      unfold update_file. by rewrite He. }
  destruct (extract_header_tight _ _ _ _ Hinit Hsuf He)
    as (u & w1 & tok & tl & Hloc & Hys & Htl & Hr).
  pose proof (located_token_ok _ _ _ _ _ _ _ Hloc) as Htok.
  pose proof (λ tok', extract_relocated _ _ _ _ _ _ _ tok' Hinit Hpre Hsuf Hloc Htl)
    as Hre.
  assert (Hsame : ∀ d, update_file content year pat year required = Ok (d, content) →
                       d = None →
                       ∃ d1 c1, update_file content year pat year required = Ok (d1, c1)
                                ∧ update_file c1 year pat year required = Ok (None, c1)).
  { intros d Hd ->. by exists None, content. }
  subst ys. simpl in Hset. destruct Hset as [Hset Hclosed].
  destruct tok as [y|f w2 w3 t]; simpl in *.
  - destruct (decide (y = year)) as [->|Hne].
    + apply (Hsame None); [|done]. unfold update_file. rewrite He.
      by replace (str_eqb year year) with true by (symmetry; by apply str_eqb_eq).
    + eexists _, _. split.
      { unfold update_file. rewrite He.
        replace (str_eqb y year) with false by (symmetry; by apply str_eqb_neq).
        rewrite Hr. simpl. reflexivity. }
      unfold update_file.
      pose proof (Hre (TRange y [] [] year)) as Hre1. simpl in Hre1.
      rewrite Hre1; [| destruct Htok; apply token_ok_range; (done || constructor) | done].
      replace (str_eqb y year) with false by (symmetry; by apply str_eqb_neq).
      by replace (str_eqb year year) with true by (symmetry; by apply str_eqb_eq).
  - destruct Htok as (Hf0 & Hf & Hw2 & Hw3 & Ht0 & Ht).
    assert (Hgrow : f ≠ year →
              update_file ((u ++ YearsPattern.prefix tmpl ++ w1)
                             ++ token_text (TRange f w2 w3 year) ++ tl)
                year pat year required
              = Ok (None, (u ++ YearsPattern.prefix tmpl ++ w1)
                            ++ token_text (TRange f w2 w3 year) ++ tl)).
    { intros Hne. unfold update_file.
      rewrite Hre; [| by apply token_ok_range | done]. simpl.
      replace (str_eqb f year) with false by (symmetry; by apply str_eqb_neq).
      by replace (str_eqb year year) with true by (symmetry; by apply str_eqb_eq). }
    destruct (decide (f = t)) as [->|Hft].
    + destruct (decide (t = year)) as [->|Hne].
      * eexists _, _. split.
        { unfold update_file. rewrite He.
          replace (str_eqb year year) with true by (symmetry; by apply str_eqb_eq).
          rewrite Hr. simpl. reflexivity. }
        unfold update_file.
        pose proof (Hre (TSingle year) (token_ok_single _ Hy0 Hy)) as Hre1.
        simpl in Hre1. rewrite Hre1 by (intros; by apply Hclosed).
        by replace (str_eqb year year) with true by (symmetry; by apply str_eqb_eq).
      * eexists _, _. split.
        { unfold update_file. rewrite He.
          replace (str_eqb t t) with true by (symmetry; by apply str_eqb_eq).
          replace (str_eqb t year) with false by (symmetry; by apply str_eqb_neq).
          rewrite Hr. simpl. reflexivity. }
        by apply Hgrow.
    + destruct (decide (year = t)) as [->|Hne].
      * apply (Hsame None); [|done]. unfold update_file. rewrite He.
        replace (str_eqb f t) with false by (symmetry; by apply str_eqb_neq).
        by replace (str_eqb t t) with true by (symmetry; by apply str_eqb_eq).
      * eexists _, _. split.
        { unfold update_file. rewrite He.
          replace (str_eqb f t) with false by (symmetry; by apply str_eqb_neq).
          replace (str_eqb year t) with false by (symmetry; by apply str_eqb_neq).
          rewrite Hr. simpl. reflexivity. }
        apply Hgrow. intros ->. by destruct Hne as []; rewrite Hset.
Qed.

Lemma update_file_twice_witness :
  ∃ pat,
    YearsPattern.init (lit " Test (c) {years}") = Ok pat
    ∧ plain_prefix (YearsPattern.prefix (lit " Test (c) {years}"))
    ∧ digit_free (YearsPattern.suffix (lit " Test (c) {years}"))
    ∧ lit "2024" ≠ [] ∧ all_digits (lit "2024")
    ∧ settles false (YearsPattern.extract pat (lit "# Test (c) 2022")) (lit "2024")
        (YearsPattern.suffix (lit " Test (c) {years}"))
    ∧ ∃ d1 c1,
        update_file (lit "# Test (c) 2022") (lit "2024") pat (lit "2024") false
        = Ok (d1, c1)
        ∧ update_file c1 (lit "2024") pat (lit "2024") false = Ok (None, c1).
Proof.
  assert (Hpre : plain_prefix (YearsPattern.prefix (lit " Test (c) {years}"))).
  { eexists. split; [vm_compute; reflexivity|]. by split. }
  assert (Hsuf : digit_free (YearsPattern.suffix (lit " Test (c) {years}")))
    by by vm_compute.
  assert (Hy : all_digits (lit "2024")) by by repeat constructor.
  eexists. split; [reflexivity|]. split; [exact Hpre|]. split; [exact Hsuf|].
  split; [done|]. split; [exact Hy|].
  assert (Hset : settles false
                   (YearsPattern.extract
                      (YearsPattern.Build
                         (YearsPattern.re_pattern
                            (YearsPattern.prefix (lit " Test (c) {years}"))
                            (YearsPattern.suffix (lit " Test (c) {years}"))))
                      (lit "# Test (c) 2022")) (lit "2024")
                   (YearsPattern.suffix (lit " Test (c) {years}"))).
  { vm_compute. split; [intros E; exact E|]. intros [=]. }
  split; [exact Hset|].
  apply (update_file_twice (lit " Test (c) {years}")); try done.
Defined.

(** C4 as stated fails: with last-change year 2023 and current year 2024,
    ["# Test (c) 2022"] is rewritten to ["# Test (c) 2022-2024"], on which
    the second application reports the year 2024. *)
Lemma update_file_twice_reports :
  update_file_again (lit " Test (c) {years}") (lit "# Test (c) 2022")
    (lit "2023") (lit "2024") false
  = Ok (Some (lit "expected year 2023, actual is 2024"), lit "# Test (c) 2022-2024").
Proof. reflexivity. Qed.

(** A second application can report again also when the last-change year
    is the current year: a required header that is missing is reported
    again; *)
Example again_missing_header :
  update_file_again (lit "(c) {years}") (lit "abc") (lit "2024") (lit "2024") true
  = Ok (Some NO_COPYRIGHT_HEADER_FOUND, lit "abc").
Proof. reflexivity. Qed.

(** a range from the current year to an earlier one becomes a range of one
    year, which is reported; *)
Example again_range_from_current_year :
  update_file_again (lit "(c) {years}, me") (lit "(c) 2024-2023, me")
    (lit "2024") (lit "2024") false
  = Ok (Some RANGE_USED_FOR_A_SINGLE_YEAR, lit "(c) 2024, me").
Proof. reflexivity. Qed.

(** with nothing after the placeholder, the year a one-year range is
    collapsed to can join what follows into a new range; *)
Example again_empty_suffix :
  update_file_again (lit "(c) {years}") (lit "(c) 2024-2024 - 2023")
    (lit "2024") (lit "2024") false
  = Ok (Some (lit "expected year 2024, actual is 2023"), lit "(c) 2024 - 2024").
Proof. reflexivity. Qed.

(** with a hyphen after the placeholder, likewise; *)
Example again_hyphen_suffix :
  update_file_again (lit "(c) {years}-") (lit "(c) 2024-2024-2023-x")
    (lit "2024") (lit "2024") false
  = Ok (Some (lit "expected year 2024, actual is 2023"), lit "(c) 2024-2024-x").
Proof. reflexivity. Qed.

(** with a digit after the placeholder, a header can show up further left; *)
Example again_digit_suffix :
  update_file_again (lit "z{years}z2024z") (lit "z5z2024-2024z2024z")
    (lit "2024") (lit "2024") false
  = Ok (Some (lit "expected year 2024, actual is 5"), lit "z5-2024z2024z2024z").
Proof. reflexivity. Qed.

(** with a digit before the placeholder, or nothing, likewise. *)
Example again_digit_prefix :
  update_file_again (lit "1{years}z") (lit "17-12024-2024z")
    (lit "2024") (lit "2024") false
  = Ok (Some (lit "expected year 2024, actual is 12024"), lit "17-2024z").
Proof. reflexivity. Qed.

Example again_empty_prefix :
  update_file_again (lit "{years}z") (lit "2024-2024-2024z")
    (lit "2024") (lit "2024") false
  = Ok (Some RANGE_USED_FOR_A_SINGLE_YEAR, lit "2024z").
Proof. reflexivity. Qed.

(** * Further properties *)

(** ** The year pattern engine *)

Lemma find_from_first needle hay pos :
  contains needle hay = true →
  ∃ a b, hay = a ++ needle ++ b
         ∧ find_from needle hay pos = Z.of_nat (pos + length a)
         ∧ ∀ a' b', hay = a' ++ needle ++ b' → length a ≤ length a'.
Proof.
  revert pos. induction hay as [|c hay IH]; intros pos; simpl; unfold startswith.
  - destruct (strip_prefix needle []) as [r|] eqn:E; [|done]. intros _.
    apply strip_prefix_spec in E. exists [], r.
    split; [done|]. split; [by rewrite Nat.add_0_r|]. intros; simpl; lia.
  - destruct (strip_prefix needle (c :: hay)) as [r|] eqn:E.
    + intros _. apply strip_prefix_spec in E. exists [], r.
      split; [done|]. split; [by rewrite Nat.add_0_r|]. intros; simpl; lia.
    + simpl. intros Hc. destruct (IH (S pos) Hc) as (a & b & -> & Hf & Hmin).
      exists (c :: a), b. split; [done|]. split.
      * rewrite Hf. f_equal. simpl. lia.
      * intros a' b' Hab. destruct a' as [|d a'].
        -- simpl in Hab. rewrite strip_prefix_none in E. by destruct (E b').
        -- injection Hab as -> Hab. simpl. specialize (Hmin a' b' Hab). lia.
Qed.

(** X1. A template that compiles is split at the first occurrence of the
    placeholder: it is the prefix, the placeholder and the suffix in a row,
    no occurrence of the placeholder starts earlier, and the compiled
    expression is built from that prefix and that suffix. *)
Theorem init_splits_template tmpl pat :
  YearsPattern.init tmpl = Ok pat →
  tmpl = YearsPattern.prefix tmpl ++ YearsPattern.placeholder ++ YearsPattern.suffix tmpl
  ∧ (∀ a b, tmpl = a ++ YearsPattern.placeholder ++ b →
            length (YearsPattern.prefix tmpl) ≤ length a)
  ∧ YearsPattern.regexp pat
    = YearsPattern.re_pattern (YearsPattern.prefix tmpl) (YearsPattern.suffix tmpl).
Proof.
  intros Hinit. pose proof (init_regexp _ _ Hinit) as Hre.
  unfold YearsPattern.init in Hinit.
  destruct (contains YearsPattern.placeholder tmpl) eqn:Hc; [|done].
  destruct (find_from_first _ _ 0 Hc) as (a & b & E & Hf & Hmin).
  assert (Hp : YearsPattern.prefix tmpl = a).
  { unfold YearsPattern.prefix, YearsPattern.p_start, find. rewrite Hf, E.
    apply slice_to_app. }
  assert (Hs : YearsPattern.suffix tmpl = b).
  { unfold YearsPattern.suffix, YearsPattern.p_end, YearsPattern.p_start, find.
    rewrite Hf, E. rewrite <- Nat2Z.inj_add. simpl (0 + _).
    rewrite app_assoc, <- length_app. apply slice_from_app. }
  split; [by rewrite Hp, Hs|]. split; [by rewrite Hp|done].
Qed.

Lemma init_splits_template_witness :
  ∃ pat, YearsPattern.init (lit "# (c) {years}, {years}") = Ok pat
    ∧ lit "# (c) {years}, {years}"
      = YearsPattern.prefix (lit "# (c) {years}, {years}") ++ YearsPattern.placeholder
          ++ YearsPattern.suffix (lit "# (c) {years}, {years}")
    ∧ (∀ a b, lit "# (c) {years}, {years}" = a ++ YearsPattern.placeholder ++ b →
              length (YearsPattern.prefix (lit "# (c) {years}, {years}")) ≤ length a)
    ∧ YearsPattern.regexp pat
      = YearsPattern.re_pattern (YearsPattern.prefix (lit "# (c) {years}, {years}"))
          (YearsPattern.suffix (lit "# (c) {years}, {years}")).
Proof.
  eexists. split; [reflexivity|].
  apply (init_splits_template (lit "# (c) {years}, {years}")). reflexivity.
Defined.

(** X2. For a compiled template, [extract] returns [None] exactly when no
    offset of the text starts a header: the prefix, white space, a year or a
    range of years, white space and the suffix. *)
Theorem extract_none_iff tmpl pat content :
  YearsPattern.init tmpl = Ok pat →
  YearsPattern.extract pat content = None
  ↔ ∀ u v w1 tok tl,
      content = u ++ v →
      ¬ header_here (YearsPattern.prefix tmpl) (YearsPattern.suffix tmpl) v w1 tok tl.
Proof.
  intros Hinit. rewrite <- re_search_none, <- (init_regexp _ _ Hinit). split.
  - intros He. destruct (re_search (YearsPattern.regexp pat) content) as [m|] eqn:Hs;
      [|done].
    destruct (search_header _ _ _ _ Hinit Hs) as (? & ? & ? & ? & _ & He' & _).
    congruence.
  - apply extract_None.
Qed.

Lemma extract_none_iff_witness :
  ∃ pat, YearsPattern.init (lit "(c) {years}") = Ok pat
    ∧ (YearsPattern.extract pat (lit "(c) MMXXIV") = None
       ↔ ∀ u v w1 tok tl,
           lit "(c) MMXXIV" = u ++ v →
           ¬ header_here (YearsPattern.prefix (lit "(c) {years}"))
               (YearsPattern.suffix (lit "(c) {years}")) v w1 tok tl).
Proof.
  eexists. split; [reflexivity|].
  apply (extract_none_iff (lit "(c) {years}")). reflexivity.
Defined.

Lemma token_written_text tok new_range :
  token_text (token_written tok new_range) = token_rewrite tok new_range.
Proof. by destruct tok, new_range. Qed.

Lemma token_written_years tok new_range :
  token_years (token_written tok new_range) = new_range.
Proof. by destruct tok, new_range. Qed.

Lemma token_written_ok tok new_range :
  token_ok tok → year_fields 1 new_range → token_ok (token_written tok new_range).
Proof.
  assert (Hne : ∀ s : str, 1 ≤ length s → s ≠ []) by (intros [|] ?; simpl in *; [lia|done]).
  destruct tok as [y|f w2 w3 t], new_range as [y'|a b]; simpl.
  - intros _ [Hl Hd]. split; [by apply Hne|done].
  - intros _ [[Hla Hda] [Hlb Hdb]]. repeat split; try done; try (by apply Hne); constructor.
  - intros _ [Hl Hd]. split; [by apply Hne|done].
  - intros (_ & _ & Hw2 & Hw3 & _) [[Hla Hda] [Hlb Hdb]].
    repeat split; try done; by apply Hne.
Qed.

(** X3. For a compiled template and a text with a header, [replace] does not
    raise and changes the token only: the text before the token (up to and
    including the prefix and the white space after it) and the text after
    it stay.  A pair written over a range keeps the text between the two
    years; a pair written over a single year is joined by a hyphen; a single
    value takes the place of the whole token. *)
Theorem replace_changes_token_only tmpl pat content ys new_range :
  YearsPattern.init tmpl = Ok pat →
  YearsPattern.extract pat content = Some ys →
  ∃ u w1 tok tl,
    located (YearsPattern.prefix tmpl) (YearsPattern.suffix tmpl) content u w1 tok tl
    ∧ token_years tok = ys
    ∧ YearsPattern.replace pat content new_range
      = Ok (u ++ YearsPattern.prefix tmpl ++ w1
              ++ token_text (token_written tok new_range) ++ tl).
Proof.
  intros Hinit He.
  destruct (extract_header _ _ _ _ Hinit He) as (u & w1 & tok & tl & Hloc & Hys & Hr).
  exists u, w1, tok, tl. split; [done|]. split; [done|].
  rewrite Hr, token_written_text. by list_norm.
Qed.

Lemma replace_changes_token_only_witness :
  ∃ pat, YearsPattern.init (lit "(c) {years}, me") = Ok pat
    ∧ YearsPattern.extract pat (lit "x (c) 2020 - 2021, me")
      = Some (YRange (lit "2020") (lit "2021"))
    ∧ ∃ u w1 tok tl,
        located (YearsPattern.prefix (lit "(c) {years}, me"))
          (YearsPattern.suffix (lit "(c) {years}, me"))
          (lit "x (c) 2020 - 2021, me") u w1 tok tl
        ∧ token_years tok = YRange (lit "2020") (lit "2021")
        ∧ YearsPattern.replace pat (lit "x (c) 2020 - 2021, me") (YSingle (lit "2024"))
          = Ok (u ++ YearsPattern.prefix (lit "(c) {years}, me") ++ w1
                  ++ token_text (token_written tok (YSingle (lit "2024"))) ++ tl).
Proof.
  eexists. split; [reflexivity|]. split; [reflexivity|].
  apply (replace_changes_token_only (lit "(c) {years}, me")); reflexivity.
Defined.

Lemma replace_then_extract tmpl pat content ys new_range :
  YearsPattern.init tmpl = Ok pat →
  plain_prefix (YearsPattern.prefix tmpl) → digit_free (YearsPattern.suffix tmpl) →
  YearsPattern.extract pat content = Some ys →
  year_fields 1 new_range →
  (∀ y, new_range = YSingle y → closed_suffix (YearsPattern.suffix tmpl)) →
  ∃ c', YearsPattern.replace pat content new_range = Ok c'
        ∧ YearsPattern.extract pat c' = Some new_range.
Proof.
  intros Hinit Hpre Hsuf He Hnew Hcl.
  destruct (extract_header_tight _ _ _ _ Hinit Hsuf He)
    as (u & w1 & tok & tl & Hloc & Hys & Htl & Hr).
  eexists. split; [apply Hr|].
  rewrite <- token_written_text.
  rewrite (extract_relocated _ _ _ _ _ _ _ (token_written tok new_range)
             Hinit Hpre Hsuf Hloc Htl).
  - by rewrite token_written_years.
  - apply token_written_ok; [|done]. by eapply located_token_ok.
  - intros y Hy. destruct tok, new_range as [y'|]; simpl in Hy; try done; by eapply Hcl.
Qed.

(** X4. Round trip. For a template with a plain prefix and no digit after
    the placeholder, what [replace] writes over the header is what [extract]
    then reads: years of digits are written, and a single value is written
    only in a template with a closed suffix. *)
Theorem extract_after_replace tmpl pat content ys new_range :
  YearsPattern.init tmpl = Ok pat →
  plain_prefix (YearsPattern.prefix tmpl) → digit_free (YearsPattern.suffix tmpl) →
  YearsPattern.extract pat content = Some ys →
  year_fields 1 new_range →
  (∀ y, new_range = YSingle y → closed_suffix (YearsPattern.suffix tmpl)) →
  ∃ c', YearsPattern.replace pat content new_range = Ok c'
        ∧ YearsPattern.extract pat c' = Some new_range.
Proof. apply replace_then_extract. Qed.

Lemma extract_after_replace_witness :
  ∃ pat, YearsPattern.init (lit " Test (c) {years}") = Ok pat
    ∧ plain_prefix (YearsPattern.prefix (lit " Test (c) {years}"))
    ∧ digit_free (YearsPattern.suffix (lit " Test (c) {years}"))
    ∧ YearsPattern.extract pat (lit "# Test (c) 2022") = Some (YSingle (lit "2022"))
    ∧ year_fields 1 (YRange (lit "2022") (lit "2024"))
    ∧ (∀ y, YRange (lit "2022") (lit "2024") = YSingle y →
            closed_suffix (YearsPattern.suffix (lit " Test (c) {years}")))
    ∧ ∃ c', YearsPattern.replace pat (lit "# Test (c) 2022")
              (YRange (lit "2022") (lit "2024")) = Ok c'
            ∧ YearsPattern.extract pat c' = Some (YRange (lit "2022") (lit "2024")).
Proof.
  assert (Hpre : plain_prefix (YearsPattern.prefix (lit " Test (c) {years}"))).
  { eexists. split; [vm_compute; reflexivity|]. by split. }
  assert (Hsuf : digit_free (YearsPattern.suffix (lit " Test (c) {years}")))
    by by vm_compute.
  assert (Hnew : year_fields 1 (YRange (lit "2022") (lit "2024"))).
  { split; (split; [vm_compute; lia|by repeat constructor]). }
  eexists. split; [reflexivity|]. split; [exact Hpre|]. split; [exact Hsuf|].
  split; [reflexivity|]. split; [exact Hnew|]. split; [by intros y [=]|].
  apply (extract_after_replace (lit " Test (c) {years}") _ _ (YSingle (lit "2022")));
    try done.
Defined.

(** X5. With no digit after the placeholder, the year [extract] reads is
    never cut short: no digit follows the token in the text. *)
Theorem extract_year_not_cut tmpl pat content ys :
  YearsPattern.init tmpl = Ok pat →
  digit_free (YearsPattern.suffix tmpl) →
  YearsPattern.extract pat content = Some ys →
  ∃ u w1 tok tl,
    located (YearsPattern.prefix tmpl) (YearsPattern.suffix tmpl) content u w1 tok tl
    ∧ token_years tok = ys
    ∧ no_head is_digit tl.
Proof.
  intros Hinit Hsuf He.
  destruct (extract_header_tight _ _ _ _ Hinit Hsuf He)
    as (u & w1 & tok & tl & Hloc & Hys & Htl & _).
  by exists u, w1, tok, tl.
Qed.

Lemma extract_year_not_cut_witness :
  ∃ pat, YearsPattern.init (lit "(c) {years}") = Ok pat
    ∧ digit_free (YearsPattern.suffix (lit "(c) {years}"))
    ∧ YearsPattern.extract pat (lit "(c) 20242025 x") = Some (YSingle (lit "20242025"))
    ∧ ∃ u w1 tok tl,
        located (YearsPattern.prefix (lit "(c) {years}")) (YearsPattern.suffix (lit "(c) {years}"))
          (lit "(c) 20242025 x") u w1 tok tl
        ∧ token_years tok = YSingle (lit "20242025")
        ∧ no_head is_digit tl.
Proof.
  assert (Hsuf : digit_free (YearsPattern.suffix (lit "(c) {years}"))) by by vm_compute.
  eexists. split; [reflexivity|]. split; [exact Hsuf|]. split; [reflexivity|].
  eapply (extract_year_not_cut (lit "(c) {years}")); [reflexivity|exact Hsuf|reflexivity].
Defined.

(** ** The decision procedure *)

Lemma update_file_unreported pat content last_year current_year required c :
  update_file content last_year pat current_year required = Ok (None, c) →
  c = content.
Proof.
  unfold update_file.
  destruct (YearsPattern.extract pat content) as [[y|f t]|].
  - destruct (str_eqb y last_year); [congruence|].
    simpl. destruct (YearsPattern.replace _ _ _); simpl; congruence.
  - destruct (str_eqb f t).
    + destruct (str_eqb f current_year);
        destruct (YearsPattern.replace _ _ _); simpl; congruence.
    + destruct (str_eqb last_year t); [congruence|].
      destruct (YearsPattern.replace _ _ _); simpl; congruence.
  - destruct required; congruence.
Qed.

Lemma update_file_comment pat content last_year current_year required d c :
  update_file content last_year pat current_year required = Ok (Some d, c) →
  truthy (Some d) = true.
Proof.
  unfold update_file.
  destruct (YearsPattern.extract pat content) as [[y|f t]|].
  - destruct (str_eqb y last_year); [congruence|].
    simpl. destruct (YearsPattern.replace _ _ _); simpl; [|congruence].
    by intros [= <- _].
  - destruct (str_eqb f t).
    + destruct (str_eqb f current_year);
        destruct (YearsPattern.replace _ _ _); simpl; try congruence;
        by intros [= <- _].
    + destruct (str_eqb last_year t); [congruence|].
      destruct (YearsPattern.replace _ _ _); simpl; [|congruence].
      by intros [= <- _].
  - destruct required; [|congruence]. by intros [= <- _].
Qed.

Lemma update_file_ok tmpl pat content last_year current_year required :
  YearsPattern.init tmpl = Ok pat →
  ∃ d c, update_file content last_year pat current_year required = Ok (d, c).
Proof.
  intros Hinit. unfold update_file.
  destruct (YearsPattern.extract pat content) as [ys|] eqn:He.
  2:{ destruct required; by eexists _, _. }
  destruct (extract_header _ _ _ _ Hinit He) as (u & w1 & tok & tl & _ & _ & Hr).
  destruct ys as [y|f t].
  - destruct (str_eqb y last_year); [by eexists _, _|].
    rewrite Hr. simpl. by eexists _, _.
  - destruct (str_eqb f t); [destruct (str_eqb f current_year)|
                             destruct (str_eqb last_year t)];
      rewrite ?Hr; simpl; by eexists _, _.
Qed.

(** What [update_file] returns when it reports a header. *)
Lemma update_file_reported pat content last_year current_year required ys d c1 :
  YearsPattern.extract pat content = Some ys →
  update_file content last_year pat current_year required = Ok (Some d, c1) →
  YearsPattern.replace pat content (rewritten_years ys current_year) = Ok c1.
Proof.
  intros He. unfold update_file. rewrite He.
  destruct ys as [y|f t]; simpl.
  - destruct (str_eqb y last_year); [done|].
    destruct (YearsPattern.replace _ _ _); simpl; congruence.
  - destruct (str_eqb f t); simpl.
    + destruct (str_eqb f current_year); simpl;
        destruct (YearsPattern.replace _ _ _); simpl; congruence.
    + destruct (str_eqb last_year t); [done|].
      destruct (YearsPattern.replace _ _ _); simpl; congruence.
Qed.

Lemma year_upper_rewritten ys current_year :
  year_upper (rewritten_years ys current_year) = current_year.
Proof.
  destruct ys as [y|f t]; simpl; [done|].
  by destruct (str_eqb f t && str_eqb f current_year).
Qed.

(** The header after the rewrite of a located header. *)
Lemma rewritten_header tmpl pat content ys current_year :
  YearsPattern.init tmpl = Ok pat →
  plain_prefix (YearsPattern.prefix tmpl) → digit_free (YearsPattern.suffix tmpl) →
  year_field 1 current_year →
  YearsPattern.extract pat content = Some ys →
  (ys = YRange current_year current_year → closed_suffix (YearsPattern.suffix tmpl)) →
  ∃ c', YearsPattern.replace pat content (rewritten_years ys current_year) = Ok c'
        ∧ YearsPattern.extract pat c' = Some (rewritten_years ys current_year).
Proof.
  intros Hinit Hpre Hsuf Hcur He Hcl.
  assert (Hys : year_fields 1 ys).
  { destruct (extract_header _ _ _ _ Hinit He) as (u & w1 & tok & tl & Hloc & <- & _).
    apply located_token_ok in Hloc.
    destruct tok as [y|f w2 w3 t]; simpl in *.
    - destruct Hloc as [Hy0 Hy]. split; [by apply nonempty_length|done].
    - destruct Hloc as (Hf0 & Hf & _ & _ & Ht0 & Ht).
      repeat split; try done; by apply nonempty_length. }
  apply (replace_then_extract tmpl _ _ ys); try done.
  - destruct ys as [y|f t]; simpl in *; [by split|].
    destruct (str_eqb f t && str_eqb f current_year); simpl; [done|].
    split; [by destruct Hys|done].
  - intros y Hy. apply Hcl. destruct ys as [y0|f t]; simpl in Hy; [done|].
    destruct (str_eqb f t) eqn:E1, (str_eqb f current_year) eqn:E2; simpl in Hy;
      try done.
    apply str_eqb_eq in E1, E2. by subst.
Qed.

(** The text [update_file] returns with a message is the text it was given,
    or has a header whose upper end is the current year. *)
Lemma update_file_reported_text tmpl pat content last_year current_year required d c :
  YearsPattern.init tmpl = Ok pat →
  plain_prefix (YearsPattern.prefix tmpl) → digit_free (YearsPattern.suffix tmpl) →
  closed_suffix (YearsPattern.suffix tmpl) →
  year_field 1 current_year →
  update_file content last_year pat current_year required = Ok (Some d, c) →
  c = content
  ∨ ∃ ys, YearsPattern.extract pat c = Some ys ∧ year_upper ys = current_year.
Proof.
  intros Hinit Hpre Hsuf Hcl Hcur Hu.
  destruct (YearsPattern.extract pat content) as [ys|] eqn:He.
  - right. pose proof (update_file_reported _ _ _ _ _ _ _ _ He Hu) as Hr.
    destruct (rewritten_header _ _ _ _ _ Hinit Hpre Hsuf Hcur He) as (c' & Hr' & He');
      [done|].
    exists (rewritten_years ys current_year). split; [congruence|].
    apply year_upper_rewritten.
  - left. unfold update_file in Hu. rewrite He in Hu.
    destruct required; congruence.
Qed.

Lemma update_file_accepts pat content last_year current_year required ys d c :
  YearsPattern.extract pat content = Some ys → non_degenerate ys →
  update_file content last_year pat current_year required = Ok (d, c) →
  d = None ↔ year_upper ys = last_year.
Proof.
  intros He Hnd. unfold update_file. rewrite He.
  destruct ys as [y|f t]; simpl in *.
  - unfold str_eqb. case_bool_decide as E.
    + by intros [= <- <-].
    + destruct (YearsPattern.replace _ _ _); simpl; [|done]. by intros [= <- <-].
  - unfold str_eqb. rewrite (bool_decide_eq_false_2 _ Hnd).
    case_bool_decide as E.
    + by intros [= <- <-].
    + destruct (YearsPattern.replace _ _ _); simpl; [|done]. by intros [= <- <-].
Qed.

(** X6. With a compiled template [update_file] never raises: [replace] is
    only called on a text in which the pattern has a match.  And a result
    without a diagnostic carries the content it was given. *)
Theorem update_file_never_raises tmpl pat content last_year current_year required :
  YearsPattern.init tmpl = Ok pat →
  ∃ d c, update_file content last_year pat current_year required = Ok (d, c)
         ∧ (d = None → c = content).
Proof.
  intros Hinit.
  destruct (update_file_ok _ _ content last_year current_year required Hinit)
    as (d & c & Hu).
  exists d, c. split; [done|]. intros ->. by apply update_file_unreported in Hu.
Qed.

Lemma update_file_never_raises_witness :
  ∃ pat, YearsPattern.init (lit "{years}0") = Ok pat
    ∧ ∃ d c, update_file (lit "2020") (lit "2023") pat (lit "") true = Ok (d, c)
             ∧ (d = None → c = lit "2020").
Proof.
  eexists. split; [reflexivity|].
  apply (update_file_never_raises (lit "{years}0")). reflexivity.
Defined.

(** X7. For a template with a plain prefix and no digit after the
    placeholder, and a current year of digits: when [update_file] reports a
    header, the header of the content it returns reads as the range from the
    old lower end to the current year, or, for the old range
    [current-current] in a template with a closed suffix, as the single
    current year. *)
Theorem update_file_writes_current_year
    tmpl pat content last_year current_year required ys d c1 :
  YearsPattern.init tmpl = Ok pat →
  plain_prefix (YearsPattern.prefix tmpl) → digit_free (YearsPattern.suffix tmpl) →
  current_year ≠ [] → all_digits current_year →
  YearsPattern.extract pat content = Some ys →
  (ys = YRange current_year current_year → closed_suffix (YearsPattern.suffix tmpl)) →
  update_file content last_year pat current_year required = Ok (Some d, c1) →
  YearsPattern.extract pat c1 = Some (rewritten_years ys current_year).
Proof.
  intros Hinit Hpre Hsuf Hc0 Hc He Hcl Hu.
  pose proof (update_file_reported _ _ _ _ _ _ _ _ He Hu) as Hr.
  assert (Hcur : year_field 1 current_year).
  { split; [by apply nonempty_length|done]. }
  destruct (rewritten_header _ _ _ _ _ Hinit Hpre Hsuf Hcur He Hcl) as (c' & Hr' & He').
  congruence.
Qed.

Lemma update_file_writes_current_year_witness :
  ∃ pat, YearsPattern.init (lit " Test (c) {years}") = Ok pat
    ∧ plain_prefix (YearsPattern.prefix (lit " Test (c) {years}"))
    ∧ digit_free (YearsPattern.suffix (lit " Test (c) {years}"))
    ∧ lit "2024" ≠ [] ∧ all_digits (lit "2024")
    ∧ YearsPattern.extract pat (lit "# Test (c) 2021-2022")
      = Some (YRange (lit "2021") (lit "2022"))
    ∧ (YRange (lit "2021") (lit "2022") = YRange (lit "2024") (lit "2024") →
       closed_suffix (YearsPattern.suffix (lit " Test (c) {years}")))
    ∧ update_file (lit "# Test (c) 2021-2022") (lit "2023") pat (lit "2024") false
      = Ok (Some (lit "expected year 2023, actual is 2022"), lit "# Test (c) 2021-2024")
    ∧ YearsPattern.extract pat (lit "# Test (c) 2021-2024")
      = Some (rewritten_years (YRange (lit "2021") (lit "2022")) (lit "2024")).
Proof.
  assert (Hpre : plain_prefix (YearsPattern.prefix (lit " Test (c) {years}"))).
  { eexists. split; [vm_compute; reflexivity|]. by split. }
  assert (Hsuf : digit_free (YearsPattern.suffix (lit " Test (c) {years}")))
    by by vm_compute.
  assert (Hy : all_digits (lit "2024")) by by repeat constructor.
  eexists. split; [reflexivity|]. split; [exact Hpre|]. split; [exact Hsuf|].
  split; [done|]. split; [exact Hy|]. split; [reflexivity|].
  split; [by intros [=]|]. split; [reflexivity|].
  eapply (update_file_writes_current_year (lit " Test (c) {years}") _
            (lit "# Test (c) 2021-2022") (lit "2023") (lit "2024") false);
    [reflexivity|exact Hpre|exact Hsuf|done|exact Hy|reflexivity|by intros [=]|reflexivity].
Defined.

(** The condition on the suffix is needed for the range [current-current]:
    with nothing after the placeholder, the single year written is read with
    what follows it as a range. *)
Example rewritten_range_needs_closed_suffix :
  ∃ pat, YearsPattern.init (lit "(c) {years}") = Ok pat
    ∧ YearsPattern.extract pat (lit "(c) 2024-2024 - 2023")
      = Some (YRange (lit "2024") (lit "2024"))
    ∧ update_file (lit "(c) 2024-2024 - 2023") (lit "2024") pat (lit "2024") false
      = Ok (Some RANGE_USED_FOR_A_SINGLE_YEAR, lit "(c) 2024 - 2023")
    ∧ YearsPattern.extract pat (lit "(c) 2024 - 2023")
      = Some (YRange (lit "2024") (lit "2023")).
Proof. eexists. repeat split; vm_compute; reflexivity. Qed.

(** ** The change-set model, further *)

Lemma split_on_length sep s : length (split_on sep s) = S (length (filter (λ c, c = sep) s)).
Proof.
  induction s as [|c s IH]; [done|]. cbn [split_on].
  destruct (Ascii.eqb c sep) eqn:E.
  - apply Ascii.eqb_eq in E as ->.
    rewrite (filter_cons_True (λ c0 : ascii, c0 = sep)) by done.
    cbn [length]. by rewrite IH.
  - apply Ascii.eqb_neq in E.
    rewrite (filter_cons_False (λ c0 : ascii, c0 = sep)) by done.
    destruct (split_on sep s); cbn [length] in *; [lia|done].
Qed.

Lemma startswith_R c h : startswith (c :: h) (lit "R") = Ascii.eqb "R"%char c.
Proof.
  unfold startswith. change (lit "R") with ["R"%char]. cbn [strip_prefix].
  by destruct (Ascii.eqb _ c).
Qed.

Lemma split_on_head s :
  ∃ h t, split_on tab s = h :: t ∧ startswith h (lit "R") = startswith s (lit "R").
Proof.
  destruct s as [|c s]; [by exists [], []|]. cbn [split_on].
  destruct (Ascii.eqb c tab) eqn:E.
  - apply Ascii.eqb_eq in E as ->. by eexists _, _.
  - destruct (split_on tab s) as [|h t] eqn:Es.
    + pose proof (split_on_length tab s) as Hl. rewrite Es in Hl. done.
    + exists (c :: h), t. split; [done|]. by rewrite !startswith_R.
Qed.

Lemma split_last_length {A} (l : list A) :
  match split_last l with
  | Some (init, z) => l = init ++ [z]
  | None => l = []
  end.
Proof.
  induction l as [|x l IH]; [done|]. simpl. destruct l as [|y l]; [done|].
  destruct (split_last (y :: l)) as [[init z]|]; [|done]. by rewrite IH.
Qed.

Section ChangeSetFurther.
Context {path : Type} `{Countable path} (PurePath : str → path).
#[local] Arguments lit : simpl never.

(** One record makes the loop of [__post_init__] raise exactly when it has
    fewer than two fields, or is a rename with fewer than three. *)
Lemma post_init_step_ok st item :
  (∃ st', GitChangeSet.post_init_step PurePath st item = Ok st')
  ↔ 2 ≤ length item
    ∧ (∀ ct, head item = Some ct → startswith ct (lit "R") = true → 3 ≤ length item).
Proof.
  destruct st as [[changed moved] touched]. unfold GitChangeSet.post_init_step, unpack_item.
  destruct item as [|ct rest]; simpl.
  { split; [by intros [? [=]]|]. intros [? _]. lia. }
  pose proof (split_last_length rest) as Hl.
  destruct (split_last rest) as [[extra dst]|].
  - subst rest. rewrite length_app. simpl.
    destruct (startswith ct (lit "R")) eqn:HR.
    + destruct extra as [|src extra]; simpl.
      * split; [by intros [? [=]]|]. intros [_ Hr]. specialize (Hr ct eq_refl HR). lia.
      * split; [|by eexists]. intros _. split; [lia|]. intros; lia.
    + split; [|by eexists]. intros _. split; [lia|]. intros ? [= <-] ?. congruence.
  - subst rest. split; [by intros [? [=]]|]. simpl. intros [? _]. lia.
Qed.

Lemma post_init_loop_ok its : ∀ st,
  (∃ st', GitChangeSet.post_init_loop PurePath st its = Ok st')
  ↔ ∀ item, item ∈ its →
      2 ≤ length item
      ∧ (∀ ct, head item = Some ct → startswith ct (lit "R") = true → 3 ≤ length item).
Proof.
  induction its as [|item its IH]; intros st.
  - split; [|by eexists]. intros _ item Hin. by apply elem_of_nil in Hin.
  - cbn [GitChangeSet.post_init_loop]. split.
    + intros [st' Hl] it Hin.
      destruct (GitChangeSet.post_init_step PurePath st item) as [st1|] eqn:Hs; [|done].
      apply elem_of_cons in Hin as [->|Hin].
      * apply (post_init_step_ok st). by eexists.
      * apply (IH st1); [by eexists|done].
    + intros Hall.
      destruct (proj2 (post_init_step_ok st item)) as [st1 Hs].
      { apply Hall. by left. }
      rewrite Hs. apply IH. intros it Hin. apply Hall. by right.
Qed.

(** X8. [parse] of a list of lines succeeds exactly when every line that is
    not empty has a tab and, if it starts with [R], has two: otherwise the
    unpacking of the record, or the lookup of the source of the rename,
    raises. *)
Theorem parse_succeeds_iff lines :
  (∃ cs, GitChangeSet.parse PurePath (LinesList lines) = Ok cs)
  ↔ ∀ line, line ∈ lines → line ≠ [] →
      1 ≤ tabs line ∧ (startswith line (lit "R") = true → 2 ≤ tabs line).
Proof.
  unfold GitChangeSet.parse, GitChangeSet.init.
  set (its := map (split_on tab) _).
  assert (Hloop : (∃ cs, match GitChangeSet.post_init_loop PurePath (∅, [], ∅) its with
                         | Ok (changed, moved, touched) =>
                             Ok (GitChangeSet.Build its changed moved touched)
                         | Raise e => Raise e
                         end = Ok cs)
                  ↔ ∃ st', GitChangeSet.post_init_loop PurePath (∅, [], ∅) its = Ok st').
  { destruct (GitChangeSet.post_init_loop PurePath (∅, [], ∅) its) as [[[c m] t]|e].
    - split; intros _; by eexists.
    - split; by intros [? [=]]. }
  rewrite Hloop, post_init_loop_ok. subst its. split.
  - intros Hall line Hin Hne.
    destruct (Hall (split_on tab line)) as [Hlen HR].
    { apply list_elem_of_fmap. exists line. split; [done|].
      apply list_elem_of_filter. split; [by destruct line|done]. }
    rewrite split_on_length in Hlen, HR. fold (tabs line) in Hlen, HR.
    split; [lia|]. intros Hs.
    destruct (split_on_head line) as (h & t & Eh & Hh).
    specialize (HR h). rewrite Eh in HR. specialize (HR eq_refl).
    rewrite Hh in HR. specialize (HR Hs). lia.
  - intros Hall item Hin.
    apply list_elem_of_fmap in Hin as (line & -> & Hin).
    apply list_elem_of_filter in Hin as [Hne Hin].
    destruct (Hall line Hin) as [Hlen HR]; [by destruct line|].
    rewrite split_on_length. fold (tabs line). split; [lia|].
    intros ct Hct Hs.
    destruct (split_on_head line) as (h & t & Eh & Hh).
    rewrite Eh in Hct. injection Hct as <-. rewrite Hh in Hs.
    specialize (HR Hs). lia.
Qed.

(** The fields after the loop of [__post_init__], in closed form. *)
Lemma post_init_loop_fields its : ∀ changed moved touched changed' moved' touched',
  GitChangeSet.post_init_loop PurePath (changed, moved, touched) its
    = Ok (changed', moved', touched') →
  changed' = changed ∪ list_to_set (omap (record_changed PurePath) its)
  ∧ moved' = moved ++ omap (record_moved PurePath) its
  ∧ touched' = touched ∪ list_to_set (omap (record_dst PurePath) its).
Proof.
  induction its as [|item its IH]; intros changed moved touched changed' moved' touched'.
  - simpl. intros [= <- <- <-]. rewrite app_nil_r.
    split; [|split; [done|]]; set_solver.
  - simpl. unfold record_changed, record_moved, record_dst.
    destruct (unpack_item item) as [[[ct extra] dst]|e] eqn:Hu; [|done].
    destruct (startswith ct (lit "R")) eqn:HR.
    + destruct extra as [|src extra]; [done|]. intros Hloop.
      apply IH in Hloop as (-> & -> & ->).
      rewrite <- app_assoc. split; [|split; [done|]].
      * destruct (str_eqb ct (lit "R100")); simpl; set_solver.
      * set_solver.
    + intros Hloop. apply IH in Hloop as (-> & -> & ->).
      assert (E : str_eqb ct (lit "R100") = false).
      { apply str_eqb_neq. by intros ->. }
      rewrite E. split; [|split].
      * set_solver.
      * by destruct extra.
      * set_solver.
Qed.

(** X9. The change set in closed form: the records are the lines given
    that are not empty, split at the tabs; [touched_files] is the set of the
    destinations of the records, [changed_files] the set of the destinations
    of the records whose code is not [R100], and [moved_files] the list of
    the (source, destination) pairs of the records whose code starts with
    [R], in the order of the records. *)
Theorem change_set_fields lines cs :
  GitChangeSet.parse PurePath lines = Ok cs →
  GitChangeSet.items cs
  = map (split_on tab)
      (filter (λ line, GitChangeSet.nonempty line = true)
         match lines with
         | LinesStr text => splitlines text
         | LinesList l => l
         end)
  ∧ GitChangeSet.touched_files cs
    = list_to_set (omap (record_dst PurePath) (GitChangeSet.items cs))
  ∧ GitChangeSet.changed_files cs
    = list_to_set (omap (record_changed PurePath) (GitChangeSet.items cs))
  ∧ GitChangeSet.moved_files cs = omap (record_moved PurePath) (GitChangeSet.items cs).
Proof.
  unfold GitChangeSet.parse, GitChangeSet.init.
  set (its := map (split_on tab) _).
  destruct (GitChangeSet.post_init_loop PurePath (∅, [], ∅) its)
    as [[[changed moved] touched]|e] eqn:Hloop; [|done].
  intros [= <-]. simpl.
  apply post_init_loop_fields in Hloop as (-> & -> & ->).
  split; [done|]. split; [|split; [|done]]; set_solver.
Qed.

(** X10. A change set that [parse] produced is true exactly when it touches
    a file. *)
Theorem change_set_truth lines cs :
  GitChangeSet.parse PurePath lines = Ok cs →
  GitChangeSet.to_bool cs = true ↔ GitChangeSet.touched_files cs ≠ ∅.
Proof.
  unfold GitChangeSet.parse, GitChangeSet.init.
  set (its := map (split_on tab) _).
  destruct (GitChangeSet.post_init_loop PurePath (∅, [], ∅) its)
    as [[[changed moved] touched]|e] eqn:Hloop; [|done].
  intros [= <-]. unfold GitChangeSet.to_bool. simpl.
  pose proof Hloop as Hspec. apply post_init_loop_spec in Hspec as (Ht & _ & _).
  destruct its as [|item its'] eqn:Eits.
  - simpl in Hloop. injection Hloop as <- <- <-. split; [done|]. by intros [].
  - split; [|done]. intros _ Hempty.
    destruct (proj1 (post_init_loop_ok (item :: its') (∅, [], ∅))) with (item := item)
      as [Hlen _]; [by eexists|by left|].
    destruct (unpack_item item) as [[[ct extra] dst]|e] eqn:Hu.
    + assert (Hin : PurePath dst ∈ touched).
      { apply Ht. right. exists item, ct, extra, dst. split; [by left|done]. }
      rewrite Hempty in Hin. by apply not_elem_of_empty in Hin.
    + simpl in Hloop. unfold GitChangeSet.post_init_step in Hloop.
      by rewrite Hu in Hloop.
Qed.

End ChangeSetFurther.

Lemma parse_succeeds_iff_witness :
  (∃ cs, GitChangeSet.parse (λ s : str, s)
           (LinesList [lit "R100" ++ tab :: lit "a"]) = Ok cs)
  ↔ ∀ line, line ∈ [lit "R100" ++ tab :: lit "a"] → line ≠ [] →
      1 ≤ tabs line ∧ (startswith line (lit "R") = true → 2 ≤ tabs line).
Proof. apply (parse_succeeds_iff (λ s : str, s)). Defined.

Lemma change_set_fields_witness :
  ∃ cs, GitChangeSet.parse (λ s : str, s)
          (LinesList [lit "R100" ++ tab :: lit "x" ++ tab :: lit "a";
                      lit "R090" ++ tab :: lit "u" ++ tab :: lit "v";
                      lit "M" ++ tab :: lit "q"]) = Ok cs
    ∧ GitChangeSet.items cs
      = map (split_on tab)
          (filter (λ line, GitChangeSet.nonempty line = true)
             [lit "R100" ++ tab :: lit "x" ++ tab :: lit "a";
              lit "R090" ++ tab :: lit "u" ++ tab :: lit "v";
              lit "M" ++ tab :: lit "q"])
    ∧ GitChangeSet.touched_files cs
      = list_to_set (omap (record_dst (λ s : str, s)) (GitChangeSet.items cs))
    ∧ GitChangeSet.changed_files cs
      = list_to_set (omap (record_changed (λ s : str, s)) (GitChangeSet.items cs))
    ∧ GitChangeSet.moved_files cs
      = omap (record_moved (λ s : str, s)) (GitChangeSet.items cs).
Proof.
  eexists. split; [vm_compute; reflexivity|].
  apply (change_set_fields (λ s : str, s)
           (LinesList [lit "R100" ++ tab :: lit "x" ++ tab :: lit "a";
                       lit "R090" ++ tab :: lit "u" ++ tab :: lit "v";
                       lit "M" ++ tab :: lit "q"])).
  vm_compute. reflexivity.
Defined.

Lemma change_set_truth_witness :
  ∃ cs, GitChangeSet.parse (λ s : str, s) (LinesStr (lit "M" ++ tab :: lit "q")) = Ok cs
    ∧ (GitChangeSet.to_bool cs = true ↔ GitChangeSet.touched_files cs ≠ ∅).
Proof.
  eexists. split; [vm_compute; reflexivity|].
  apply (change_set_truth (λ s : str, s) (LinesStr (lit "M" ++ tab :: lit "q"))).
  vm_compute. reflexivity.
Defined.

(** ** The history replay, further *)

Section HistoryFurther.
Context {path : Type} `{Countable path} {datetime : Type}.
Implicit Types (d : gmap path datetime) (c : GitCommitInfo (path := path) (datetime := datetime)).

Lemma compute_last_modified_dict_app (newer older : list GitCommitInfo) :
  compute_last_modified_dict (newer ++ older)
  = fold_left replay_commit (rev newer)
      (compute_last_modified_dict (path := path) (datetime := datetime) older).
Proof.
  unfold compute_last_modified_dict. by rewrite rev_app_distr, fold_left_app.
Qed.

(** An entry after the loop over the moves was an entry before it, of the
    same path or of another path, renamed onto this one. *)
Lemma propagate_moves_origin (moved : list (path * path)) d p t :
  propagate_moves moved d !! p = Some t →
  d !! p = Some t ∨ ∃ q src, d !! q = Some t ∧ (src, p) ∈ moved.
Proof.
  revert d. induction moved as [|[src dst] moved IH]; intros d; [by left|].
  unfold propagate_moves in *. simpl. intros Hl. apply IH in Hl.
  destruct (d !! src) as [v|] eqn:Hsrc.
  - destruct Hl as [Hl|(q & s & Hq & Hin)].
    + destruct (decide (dst = p)) as [->|Hne].
      * rewrite lookup_insert_eq in Hl. injection Hl as <-.
        right. exists src, src. split; [done|]. by left.
      * rewrite lookup_insert_ne in Hl by done. by left.
    + right. destruct (decide (dst = q)) as [->|Hne].
      * rewrite lookup_insert_eq in Hq. injection Hq as <-.
        exists src, s. split; [done|]. by right.
      * rewrite lookup_insert_ne in Hq by done. exists q, s. split; [done|]. by right.
  - destruct Hl as [Hl|(q & s & Hq & Hin)]; [by left|].
    right. exists q, s. split; [done|]. by right.
Qed.

Lemma replay_commit_other d c p :
  ¬ writes_to c p → replay_commit d c !! p = d !! p.
Proof.
  intros Hw. unfold replay_commit.
  rewrite overwrite_changed_lookup, decide_False.
  - apply propagate_moves_other. intros src Hin. apply Hw. right. by exists src.
  - intros Hin. apply Hw. by left.
Qed.

Lemma replay_newer_other (newer : list GitCommitInfo) d p :
  (∀ c, c ∈ newer → ¬ writes_to c p) →
  fold_left replay_commit (rev newer) d !! p = d !! p.
Proof.
  induction newer as [|c newer IH]; intros Hn; [done|].
  simpl. rewrite fold_left_app. simpl. rewrite replay_commit_other.
  - apply IH. intros c' Hin. apply Hn. by right.
  - apply Hn. by left.
Qed.

(** X11. Newest change wins. The entry of a path is the date of the newest
    commit that changed its content, provided no newer commit renames a file
    to that path. *)
Theorem newest_change_wins (newer older : list GitCommitInfo) c p :
  p ∈ GitChangeSet.changed_files (changes c) →
  (∀ c', c' ∈ newer → ¬ writes_to c' p) →
  compute_last_modified_dict (newer ++ c :: older) !! p = Some (author_date c).
Proof.
  intros Hp Hn. rewrite compute_last_modified_dict_app, replay_newer_other by done.
  rewrite compute_last_modified_dict_cons. unfold replay_commit.
  by rewrite overwrite_changed_lookup, decide_True.
Qed.

(** X12. Every entry of the index comes from the history: its date is the
    date of a commit of the list that changed the content of some file, and
    its path is one that a commit of the list changed or renamed a file to.
    A path that no commit writes to has no entry. *)
Theorem index_entries_come_from_commits (commits : list GitCommitInfo) p t :
  compute_last_modified_dict commits !! p = Some t →
  (∃ c, c ∈ commits ∧ author_date c = t
        ∧ GitChangeSet.changed_files (changes c) ≠ ∅)
  ∧ (∃ c, c ∈ commits ∧ writes_to c p).
Proof.
  revert p t. induction commits as [|c commits IH]; intros p t.
  - unfold compute_last_modified_dict. simpl. by rewrite lookup_empty.
  - rewrite compute_last_modified_dict_cons. unfold replay_commit.
    rewrite overwrite_changed_lookup. destruct (decide _) as [Hin|Hin].
    + intros [= <-]. split; exists c; (split; [by left|]).
      * split; [done|]. intros He. rewrite He in Hin. by apply not_elem_of_empty in Hin.
      * by left.
    + intros Hl. apply propagate_moves_origin in Hl as [Hl|(q & src & Hq & Hm)].
      * destruct (IH _ _ Hl) as [(c1 & Hc1 & Hd & Hne) (c2 & Hc2 & Hw)].
        split; [exists c1|exists c2]; (split; [by right|done]).
      * destruct (IH _ _ Hq) as [(c1 & Hc1 & Hd & Hne) _].
        split; [exists c1; split; [by right|done]|].
        exists c. split; [by left|]. right. by exists src.
Qed.

(** X13. A pure rename [A → B] hands the entry of [A] to [B], and [B] keeps
    it through the newer commits that do not write to [B], provided no
    earlier rename of the same commit has [A] as its destination and no later
    one has [B]. *)
Theorem pure_rename_keeps_date (newer older : list GitCommitInfo) c l1 l2 A B t :
  GitChangeSet.moved_files (changes c) = l1 ++ (A, B) :: l2 →
  (∀ src, (src, A) ∉ l1) → (∀ src, (src, B) ∉ l2) →
  B ∉ GitChangeSet.changed_files (changes c) →
  (∀ c', c' ∈ newer → ¬ writes_to c' B) →
  compute_last_modified_dict older !! A = Some t →
  compute_last_modified_dict (newer ++ c :: older) !! B = Some t.
Proof.
  intros Hm HA HB Hc Hn Hd.
  rewrite compute_last_modified_dict_app, replay_newer_other by done.
  rewrite compute_last_modified_dict_cons.
  unfold replay_commit. rewrite overwrite_changed_lookup, decide_False by done.
  rewrite Hm. by apply propagate_moves_rename.
Qed.

(** X14. A rename whose source has no entry (the history was cut before the
    source was created) leaves the destination with the entry it had, if any,
    provided no other rename of the commit has the source or the destination
    as its destination and the destination is not changed. *)
Theorem rename_of_unknown_source c (older : list GitCommitInfo) l1 l2 A B :
  GitChangeSet.moved_files (changes c) = l1 ++ (A, B) :: l2 →
  (∀ src, (src, A) ∉ l1) → (∀ src, (src, B) ∉ l1) → (∀ src, (src, B) ∉ l2) →
  B ∉ GitChangeSet.changed_files (changes c) →
  compute_last_modified_dict older !! A = None →
  compute_last_modified_dict (c :: older) !! B = compute_last_modified_dict older !! B.
Proof.
  intros Hm HA HB1 HB2 Hc Hd. rewrite compute_last_modified_dict_cons.
  unfold replay_commit. rewrite overwrite_changed_lookup, decide_False by done.
  rewrite Hm. unfold propagate_moves. rewrite fold_left_app. simpl.
  fold (propagate_moves l1 (compute_last_modified_dict older)).
  rewrite (propagate_moves_other l1 _ A HA), Hd.
  fold (propagate_moves l2 (propagate_moves l1 (compute_last_modified_dict older))).
  by rewrite !propagate_moves_other.
Qed.

End HistoryFurther.

Lemma newest_change_wins_witness :
  compute_last_modified_dict (path := nat)
    [mkCommit 7%nat (GitChangeSet.Build [] {[2%nat]} [] {[2%nat]});
     mkCommit 5%nat (GitChangeSet.Build [] {[1%nat]} [] {[1%nat]});
     mkCommit 3%nat (GitChangeSet.Build [] {[1%nat]} [] {[1%nat]})] !! 1%nat
  = Some 5%nat.
Proof.
  apply (newest_change_wins
           [mkCommit 7%nat (GitChangeSet.Build [] {[2%nat]} [] {[2%nat]})]
           [mkCommit 3%nat (GitChangeSet.Build [] {[1%nat]} [] {[1%nat]})]
           (mkCommit 5%nat (GitChangeSet.Build [] {[1%nat]} [] {[1%nat]}))).
  - simpl. by apply elem_of_singleton.
  - intros c' Hc' [Hw|[src Hw]].
    + apply list_elem_of_singleton in Hc' as ->. simpl in Hw.
      apply elem_of_singleton in Hw. discriminate.
    + apply list_elem_of_singleton in Hc' as ->. simpl in Hw.
      by apply not_elem_of_nil in Hw.
Defined.

Lemma index_entries_come_from_commits_witness :
  (∃ c, c ∈ [mkCommit 5%nat (GitChangeSet.Build (path := nat) [] {[1%nat]} [] {[1%nat]})]
        ∧ author_date c = 5%nat
        ∧ GitChangeSet.changed_files (changes c) ≠ ∅)
  ∧ (∃ c, c ∈ [mkCommit 5%nat (GitChangeSet.Build (path := nat) [] {[1%nat]} [] {[1%nat]})]
          ∧ writes_to c 1%nat).
Proof.
  apply (index_entries_come_from_commits
           [mkCommit 5%nat (GitChangeSet.Build (path := nat) [] {[1%nat]} [] {[1%nat]})]
           1%nat 5%nat).
  vm_compute. reflexivity.
Defined.

Lemma pure_rename_keeps_date_witness :
  compute_last_modified_dict (path := nat)
    [mkCommit 7%nat (GitChangeSet.Build [] {[3%nat]} [] {[3%nat]});
     mkCommit 5%nat (GitChangeSet.Build [] ∅ [(1%nat, 2%nat)] {[2%nat]});
     mkCommit 3%nat (GitChangeSet.Build [] {[1%nat]} [] {[1%nat]})] !! 2%nat
  = Some 3%nat.
Proof.
  apply (pure_rename_keeps_date
           [mkCommit 7%nat (GitChangeSet.Build [] {[3%nat]} [] {[3%nat]})]
           [mkCommit 3%nat (GitChangeSet.Build [] {[1%nat]} [] {[1%nat]})]
           (mkCommit 5%nat (GitChangeSet.Build [] ∅ [(1%nat, 2%nat)] {[2%nat]}))
           [] [] 1%nat 2%nat 3%nat).
  - reflexivity.
  - intros src. apply not_elem_of_nil.
  - intros src. apply not_elem_of_nil.
  - simpl. apply not_elem_of_empty.
  - intros c' Hc' [Hw|[src Hw]].
    + apply list_elem_of_singleton in Hc' as ->. simpl in Hw.
      apply elem_of_singleton in Hw. discriminate.
    + apply list_elem_of_singleton in Hc' as ->. simpl in Hw.
      by apply not_elem_of_nil in Hw.
  - vm_compute. reflexivity.
Defined.

Lemma rename_of_unknown_source_witness :
  compute_last_modified_dict (path := nat)
    [mkCommit 5%nat (GitChangeSet.Build [] ∅ [(1%nat, 2%nat)] {[2%nat]});
     mkCommit 3%nat (GitChangeSet.Build [] {[4%nat]} [] {[4%nat]})] !! 2%nat
  = compute_last_modified_dict (path := nat)
      [mkCommit 3%nat (GitChangeSet.Build [] {[4%nat]} [] {[4%nat]})] !! 2%nat.
Proof.
  apply (rename_of_unknown_source
           (mkCommit 5%nat (GitChangeSet.Build [] ∅ [(1%nat, 2%nat)] {[2%nat]}))
           [mkCommit 3%nat (GitChangeSet.Build [] {[4%nat]} [] {[4%nat]})]
           [] [] 1%nat 2%nat).
  - reflexivity.
  - intros src. apply not_elem_of_nil.
  - intros src. apply not_elem_of_nil.
  - intros src. apply not_elem_of_nil.
  - simpl. apply not_elem_of_empty.
  - vm_compute. reflexivity.
Defined.

(** ** The run over the files *)

(** ** Line ends *)

Lemma digit_not_CR c : is_digit c = true → c ≠ CR.
Proof. by intros Hd ->. Qed.

Lemma no_CR_digits s : all_digits s → no_CR s.
Proof.
  intros Hs. eapply Forall_impl; [exact Hs|]. intros c. apply digit_not_CR.
Qed.

Lemma universal_newlines_no_CR s : no_CR (universal_newlines s).
Proof.
  assert (Hn : ∀ n s, length s ≤ n → no_CR (universal_newlines s)).
  { clear s. induction n as [|n IH]; intros s Hl.
    - destruct s; [constructor|simpl in Hl; lia].
    - destruct s as [|c s]; [constructor|]. cbn [universal_newlines].
      destruct (Ascii.eqb c CR) eqn:E.
      + destruct s as [|d s]; [by repeat constructor|].
        destruct (Ascii.eqb d LF); (constructor; [discriminate|]); apply IH;
          simpl in *; lia.
      + apply Ascii.eqb_neq in E. constructor; [done|]. apply IH. simpl in Hl. lia. }
  by apply (Hn (length s)).
Qed.

Lemma universal_newlines_id s : no_CR s → universal_newlines s = s.
Proof.
  induction 1 as [|c s Hc _ IH]; [done|]. cbn [universal_newlines].
  apply Ascii.eqb_neq in Hc. by rewrite Hc, IH.
Qed.

(** What [write_text] writes, [read_text] reads back. *)
Lemma read_back linesep c :
  no_CR c → linesep = [LF] ∨ linesep = [CR; LF] →
  universal_newlines (write_newlines linesep c) = c.
Proof.
  intros Hc Hsep. unfold write_newlines.
  induction Hc as [|x s Hx _ IH]; [done|]. cbn [flat_map].
  destruct (Ascii.eqb x LF) eqn:E.
  - apply Ascii.eqb_eq in E as ->. destruct Hsep as [->| ->]; simpl; by rewrite IH.
  - apply Ascii.eqb_neq in Hx. cbn [app universal_newlines]. by rewrite Hx, IH.
Qed.

Lemma token_rewrite_no_CR tok current_year :
  no_CR (token_text tok) → all_digits current_year →
  no_CR (token_rewrite tok (rewritten_years (token_years tok) current_year)).
Proof.
  intros Ht Hc%no_CR_digits. unfold no_CR in *.
  destruct tok as [y|f w2 w3 t]; simpl in *.
  - rewrite Forall_app, Forall_cons. split; [done|]. split; [discriminate|done].
  - rewrite !Forall_app, Forall_cons, Forall_app in Ht.
    destruct Ht as (Hf & Hw2 & Hh & Hw3 & Ht).
    destruct (str_eqb f t && str_eqb f current_year); simpl; [done|].
    rewrite !Forall_app, Forall_cons, Forall_app. done.
Qed.

(** The text [update_file] returns has no carriage return when the text it
    was given has none. *)
Lemma update_file_no_CR tmpl pat content last_year current_year required d c :
  YearsPattern.init tmpl = Ok pat →
  no_CR content → all_digits current_year →
  update_file content last_year pat current_year required = Ok (d, c) →
  no_CR c.
Proof.
  intros Hinit Hcontent Hcur Hu. destruct d as [d|];
    [|by apply update_file_unreported in Hu as ->].
  destruct (YearsPattern.extract pat content) as [ys|] eqn:He.
  - pose proof (update_file_reported _ _ _ _ _ _ _ _ He Hu) as Hr.
    destruct (extract_header _ _ _ _ Hinit He) as (u & w1 & tok & tl & Hloc & <- & Hrep).
    rewrite Hrep in Hr. injection Hr as <-. destruct Hloc as (Hc & _ & _).
    unfold no_CR in Hcontent. rewrite Hc, !Forall_app in Hcontent.
    destruct Hcontent as (Hu' & Hp & Hw & Ht & Htl).
    unfold no_CR. rewrite !Forall_app. split; [done|]. split; [|done].
    by apply token_rewrite_no_CR.
  - unfold update_file in Hu. rewrite He in Hu. destruct required; congruence.
Qed.

Section RunProperties.
Context {path : Type} `{Countable path} {datetime : Type}.
Context (year_of : datetime → str) (lt : datetime → datetime → bool).
Context (os : OS.t (path := path)).
Context (args : Args.t)
        (config : CopyrightConfig.t (path := path) (datetime := datetime))
        (staged_changes : GitChangeSet.t (path := path)) (now : datetime).



Lemma print_verbose_quiet m printed :
  is_diagnostic m = false →
  ∃ new, print_verbose args m printed = printed ++ new
         ∧ filter (is_diagnostic (path := path) (datetime := datetime)) new = [].
Proof.
  intros Hm. unfold print_verbose, print. destruct (Args.verbose args).
  - exists [m]. split; [done|]. rewrite filter_cons, decide_False; [done|].
    rewrite Hm. intros [].
  - exists []. by rewrite app_nil_r.
Qed.

Lemma check_file_turn last_repo last_modified_dict st rel_path st' :
  check_file year_of lt os args config staged_changes now last_repo last_modified_dict
    st rel_path = Ok st' →
  turn year_of os args config now rel_path st st'.
Proof.
  destruct st as [[success tree] printed]. unfold check_file.
  set (shown := if bool_decide (rel_path ≠ CopyrightConfig.license_file config)
                then _ else _).
  destruct shown as [last_change_datetime printed1] eqn:Hshown.
  assert (∃ new1, printed1 = printed ++ new1
                  ∧ filter (is_diagnostic (path := path) (datetime := datetime)) new1 = [])
    as (new1 & -> & Hnew1).
  { subst shown. repeat case_bool_decide; injection Hshown as _ <-;
      by apply print_verbose_quiet. }
  clear Hshown shown.
  assert (Hquiet : ∀ m, is_diagnostic m = false →
            turn year_of os args config now rel_path (success, tree, printed)
              (success, tree, print_verbose args m (printed ++ new1))).
  { intros m Hm. destruct (print_verbose_quiet m (printed ++ new1) Hm) as (new2 & -> & Hnew2).
    rewrite <- app_assoc. apply turn_quiet. by rewrite filter_app, Hnew1, Hnew2. }
  destruct last_change_datetime as [last_change|]; [|intros [= <-]; by apply Hquiet].
  destruct (match CopyrightConfig.ignore_commits_before config with
            | Some before => lt last_change before
            | None => false
            end); [intros [= <-]; by apply Hquiet|].
  unfold read_text. destruct (OS.read_fails os rel_path); [done|]. cbn [bind].
  destruct (tree !! rel_path) as [raw|] eqn:Htree; cbn [fmap option_fmap option_map];
    [|intros [= <-]; by apply Hquiet].
  destruct (update_file _ _ _ _ _) as [[error_comment c]|e] eqn:Hu; [|done].
  cbn [bind]. destruct error_comment as [d|].
  - rewrite (update_file_comment _ _ _ _ _ _ _ Hu). cbn [is_None default].
    rewrite andb_false_r. unfold print, write_text.
    assert (Hnew : filter (is_diagnostic (path := path) (datetime := datetime))
                     (new1 ++ [Diagnostic rel_path d]) = [Diagnostic rel_path d]).
    { rewrite filter_app, Hnew1. simpl. by rewrite filter_cons, decide_True. }
    pose proof (turn_reported year_of os args config now rel_path success tree printed
                  _ raw last_change d c Htree Hu Hnew) as Hturn.
    rewrite app_assoc in Hturn.
    destruct (Args.dry_run args); [by intros [= <-]|].
    destruct (OS.write_fails os rel_path); [done|]. cbn [bind]. by intros [= <-].
  - cbn [truthy is_None]. rewrite andb_true_r.
    destruct (Args.verbose args) eqn:Hv; intros [= <-].
    + by apply Hquiet.
    + rewrite <- (app_nil_r (printed ++ new1)), <- app_assoc.
      apply turn_quiet. by rewrite app_nil_r.
Qed.

Lemma for_each_turns last_repo last_modified_dict files st st' :
  for_each (check_file year_of lt os args config staged_changes now last_repo
              last_modified_dict) files st = Ok st' →
  turns year_of os args config now files st st'.
Proof.
  revert st. induction files as [|p files IH]; intros st; simpl.
  - intros [= <-]. constructor.
  - destruct (check_file year_of lt os args config staged_changes now _ _ st p)
      as [st1|e] eqn:Hc; [|done].
    simpl. intros Hf.
    econstructor; [by eapply check_file_turn|by apply IH].
Qed.

Lemma turns_printed files success tree printed success' tree' printed' :
  turns year_of os args config now files (success, tree, printed) (success', tree', printed') →
  ∃ new, printed' = printed ++ new
         ∧ success' = success
                      && bool_decide
                           (filter (is_diagnostic (path := path) (datetime := datetime)) new = []).
Proof.
  intros Ht. remember (success, tree, printed) as st eqn:Est.
  remember (success', tree', printed') as st' eqn:Est'.
  revert success tree printed Est. induction Ht as [st|p files st st1 st' Hturn Ht IH];
    intros success tree printed ->.
  - injection Est' as -> -> ->. exists []. rewrite app_nil_r. split; [done|].
    by rewrite andb_true_r.
  - subst st'. inversion Hturn as [s t pr new Hnew|s t pr new content lc d c Htree Hu Hnew]; subst.
    + destruct (IH eq_refl _ _ _ eq_refl) as (new' & -> & ->).
      exists (new ++ new'). rewrite app_assoc. split; [done|].
      f_equal. rewrite filter_app, Hnew. done.
    + destruct (IH eq_refl _ _ _ eq_refl) as (new' & -> & ->).
      exists (new ++ new'). rewrite app_assoc. split; [done|].
      rewrite filter_app, Hnew. simpl. by rewrite andb_false_r.
Qed.

Lemma turns_grows files st st' :
  turns year_of os args config now files st st' → ∃ new, st'.2 = st.2 ++ new.
Proof.
  induction 1 as [st|p files st st1 st' Hturn _ [new' IH]].
  - exists []. by rewrite app_nil_r.
  - destruct Hturn; simpl in *; exists (new ++ new'); by rewrite IH, app_assoc.
Qed.

Lemma turns_dry files st st' :
  Args.dry_run args = true → turns year_of os args config now files st st' → st'.1.2 = st.1.2.
Proof.
  intros Hdry. induction 1 as [st|p files st st1 st' Hturn _ IH]; [done|].
  rewrite IH. destruct Hturn; simpl; [done|]. by rewrite Hdry.
Qed.

Lemma turns_clean files st st' :
  turns year_of os args config now files st st' → st'.1.1 = true → st'.1.2 = st.1.2.
Proof.
  induction 1 as [st|p files st st1 st' Hturn Ht IH]; [done|]. intros Hs.
  rewrite IH by done. destruct Hturn; simpl; [done|].
  destruct (turns_printed _ _ _ _ _ _ _
              ltac:(by rewrite (surjective_pairing st'), (surjective_pairing st'.1) in Ht))
    as (? & _ & Hf).
  rewrite Hs in Hf. done.
Qed.

Lemma turn_dom p st st1 q :
  turn year_of os args config now p st st1 →
  is_Some (st1.1.2 !! q) ↔ is_Some (st.1.2 !! q).
Proof.
  destruct 1 as [|s t pr new content lc d c Htree Hu Hnew]; simpl; [done|].
  destruct (Args.dry_run args); [done|].
  destruct (decide (p = q)) as [->|Hne].
  - rewrite lookup_insert_eq, Htree. split; by eexists.
  - by rewrite lookup_insert_ne.
Qed.

Lemma turns_dom files st st' q :
  turns year_of os args config now files st st' →
  is_Some (st'.1.2 !! q) ↔ is_Some (st.1.2 !! q).
Proof.
  induction 1 as [st|p files st st1 st' Hturn _ IH]; [done|].
  rewrite IH. by eapply turn_dom.
Qed.

Lemma turns_written files st st' q :
  turns year_of os args config now files st st' → st'.1.2 !! q ≠ st.1.2 !! q →
  q ∈ files ∧ is_Some (st.1.2 !! q) ∧ ∃ d, Diagnostic q d ∈ st'.2.
Proof.
  induction 1 as [st|p files st st1 st' Hturn Ht IH]; [done|]. intros Hne.
  destruct (decide (st1.1.2 !! q = st.1.2 !! q)) as [Heq|Hne1].
  - rewrite <- Heq in Hne. destruct (IH Hne) as (Hin & Hsome & Hd).
    split; [by right|]. split; [|done]. by rewrite <- Heq.
  - destruct (turns_grows _ _ _ Ht) as [new' Hgrow].
    destruct Hturn as [|s t pr new content lc d c Htree Hu Hnew]; simpl in *; [done|].
    destruct (Args.dry_run args); [done|].
    destruct (decide (p = q)) as [->|Hpq]; [|by rewrite lookup_insert_ne in Hne1].
    split; [by left|]. split; [by eexists|]. exists d. rewrite Hgrow.
    apply elem_of_app. left. apply elem_of_app. right.
    assert (Hd : Diagnostic q d
                 ∈ filter (is_diagnostic (path := path) (datetime := datetime)) new)
      by (rewrite Hnew; by left).
    by apply list_elem_of_filter in Hd as [_ Hd].
Qed.

(** A run that returns has gone through the turns of the loop, or has found
    neither commits nor staged changes. *)
Lemma run_turns files repo_commits tree r tree' printed :
  run_copyright_updater year_of lt os args files config repo_commits staged_changes
    now tree = Ok (r, tree', printed) →
  (r = false ∧ tree' = tree
   ∧ filter (is_diagnostic (path := path) (datetime := datetime)) printed = [])
  ∨ turns year_of os args config now files (true, tree, []) (negb r, tree', printed).
Proof.
  unfold run_copyright_updater.
  destruct (if GitChangeSet.to_bool staged_changes then _ else _) as [|newest commits].
  - intros [= <- <- <-]. left. split; [done|]. split; [done|].
    unfold print_verbose, print. by destruct (Args.verbose args).
  - destruct (for_each _ _ _) as [[[s t] pr]|e] eqn:Hf; [|done]. simpl.
    intros [= <- <- <-]. right. rewrite negb_involutive. by eapply for_each_turns.
Qed.

(** X15. The run returns true exactly when it has printed a diagnostic. *)
Theorem run_reports_iff_diagnostic files repo_commits tree r tree' printed :
  run_copyright_updater year_of lt os args files config repo_commits staged_changes
    now tree = Ok (r, tree', printed) →
  r = true ↔ ∃ rel_path error_comment, Diagnostic rel_path error_comment ∈ printed.
Proof.
  intros Hrun.
  assert (Hr : r = negb (bool_decide
             (filter (is_diagnostic (path := path) (datetime := datetime)) printed = []))).
  { apply run_turns in Hrun as [(-> & _ & ->)|Ht]; [done|].
    apply turns_printed in Ht as (new & Hp & Hs). simpl in *. subst new.
    rewrite <- Hs. by rewrite negb_involutive. }
  rewrite Hr, negb_true_iff, bool_decide_eq_false. split.
  - intros Hne. destruct (filter _ printed) as [|m l] eqn:Hf; [done|].
    assert (Hm : m ∈ filter (is_diagnostic (path := path) (datetime := datetime)) printed)
      by (rewrite Hf; by left).
    apply list_elem_of_filter in Hm as [Hd Hm]. destruct m; try done. by eexists _, _.
  - intros (p & d & Hin) Hf.
    assert (Hm : Diagnostic p d
                 ∈ filter (is_diagnostic (path := path) (datetime := datetime)) printed)
      by (by apply list_elem_of_filter).
    rewrite Hf in Hm. by apply not_elem_of_nil in Hm.
Qed.

(** X16. A dry run writes no file. *)
Theorem dry_run_never_writes files repo_commits tree r tree' printed :
  Args.dry_run args = true →
  run_copyright_updater year_of lt os args files config repo_commits staged_changes
    now tree = Ok (r, tree', printed) →
  tree' = tree.
Proof.
  intros Hdry Hrun. apply run_turns in Hrun as [(_ & -> & _)|Ht]; [done|].
  by apply (turns_dry _ _ _ Hdry) in Ht.
Qed.

(** X17. A run that returns false has changed no file. *)
Theorem clean_run_changes_nothing files repo_commits tree tree' printed :
  run_copyright_updater year_of lt os args files config repo_commits staged_changes
    now tree = Ok (false, tree', printed) →
  tree' = tree.
Proof.
  intros Hrun. apply run_turns in Hrun as [(_ & -> & _)|Ht]; [done|].
  by apply turns_clean in Ht.
Qed.

(** X18. The run changes the text of a file only if the file is among the
    files it was given, could be read, and a diagnostic was printed for it;
    and the files that can be read as text stay the same. *)
Theorem run_writes_only_reported_files files repo_commits tree r tree' printed :
  run_copyright_updater year_of lt os args files config repo_commits staged_changes
    now tree = Ok (r, tree', printed) →
  (∀ rel_path, tree' !! rel_path ≠ tree !! rel_path →
     rel_path ∈ files ∧ is_Some (tree !! rel_path)
     ∧ ∃ error_comment, Diagnostic rel_path error_comment ∈ printed)
  ∧ dom tree' = dom tree.
Proof.
  intros Hrun. apply run_turns in Hrun as [(_ & -> & _)|Ht]; [done|]. split.
  - intros q Hq. by apply (turns_written _ _ _ q) in Ht.
  - apply set_eq. intros q. rewrite !elem_of_dom.
    by apply (turns_dom _ _ _ q) in Ht.
Qed.

Lemma turns_header tmpl files st st' :
  YearsPattern.init tmpl = Ok (CopyrightConfig.pattern config) →
  plain_prefix (YearsPattern.prefix tmpl) → digit_free (YearsPattern.suffix tmpl) →
  closed_suffix (YearsPattern.suffix tmpl) →
  year_field 1 (year_of now) →
  OS.linesep os = [LF] ∨ OS.linesep os = [CR; LF] →
  turns year_of os args config now files st st' →
  ∀ q raw', st'.1.2 !! q = Some raw' →
    ∃ raw, st.1.2 !! q = Some raw
           ∧ (universal_newlines raw' = universal_newlines raw
              ∨ ∃ ys, YearsPattern.extract (CopyrightConfig.pattern config)
                        (universal_newlines raw') = Some ys
                      ∧ year_upper ys = year_of now).
Proof.
  intros Hinit Hpre Hsuf Hcl Hcur Hsep.
  induction 1 as [st|p files st st1 st' Hturn _ IH]; intros q raw' Hq;
    [exists raw'; split; [done|by left]|].
  destruct (IH _ _ Hq) as (raw1 & Hq1 & Hread).
  destruct Hturn as [|s t pr new raw lc d c1 Htree Hu Hnew]; simpl in *;
    [by exists raw1|].
  destruct (Args.dry_run args); [by exists raw1|].
  destruct (decide (p = q)) as [->|Hne];
    [|rewrite lookup_insert_ne in Hq1 by done; by exists raw1].
  rewrite lookup_insert_eq in Hq1. injection Hq1 as <-.
  exists raw. split; [done|].
  assert (Hc1 : universal_newlines (write_newlines (OS.linesep os) c1) = c1).
  { apply read_back; [|done].
    eapply update_file_no_CR; [exact Hinit|apply universal_newlines_no_CR|
                               by destruct Hcur|exact Hu]. }
  rewrite Hc1 in Hread.
  destruct Hread as [Hread|Hgood]; [|by right].
  rewrite Hread.
  destruct (update_file_reported_text _ _ _ _ _ _ _ _ Hinit Hpre Hsuf Hcl Hcur Hu)
    as [->|Hgood]; [by left|by right].
Qed.

(** X19. For a template with a plain prefix, no digit after the placeholder
    and a closed suffix, a current year of digits, and a line end that is the
    line feed or carriage return and line feed: whatever the run leaves in a
    file reads, in text mode, either as the file read before the run or with
    a header whose upper end is the current year. *)
Theorem run_writes_current_year tmpl files repo_commits tree r tree' printed :
  YearsPattern.init tmpl = Ok (CopyrightConfig.pattern config) →
  plain_prefix (YearsPattern.prefix tmpl) → digit_free (YearsPattern.suffix tmpl) →
  closed_suffix (YearsPattern.suffix tmpl) →
  year_field 1 (year_of now) →
  OS.linesep os = [LF] ∨ OS.linesep os = [CR; LF] →
  run_copyright_updater year_of lt os args files config repo_commits staged_changes
    now tree = Ok (r, tree', printed) →
  ∀ rel_path raw', tree' !! rel_path = Some raw' →
    ∃ raw, tree !! rel_path = Some raw
           ∧ (universal_newlines raw' = universal_newlines raw
              ∨ ∃ ys, YearsPattern.extract (CopyrightConfig.pattern config)
                        (universal_newlines raw') = Some ys
                      ∧ year_upper ys = year_of now).
Proof.
  intros Hinit Hpre Hsuf Hcl Hcur Hsep Hrun q raw' Hq.
  apply run_turns in Hrun as [(_ & -> & _)|Ht]; [exists raw'; split; [done|by left]|].
  apply (turns_header _ _ _ _ Hinit Hpre Hsuf Hcl Hcur Hsep Ht _ _ Hq).
Qed.

Lemma check_file_outcome tmpl last_repo last_modified_dict st rel_path :
  YearsPattern.init tmpl = Ok (CopyrightConfig.pattern config) →
  (∃ st', check_file year_of lt os args config staged_changes now last_repo
            last_modified_dict st rel_path = Ok st')
  ∨ (check_file year_of lt os args config staged_changes now last_repo
       last_modified_dict st rel_path = Raise OSError
     ∧ (OS.read_fails os rel_path = true ∨ OS.write_fails os rel_path = true)).
Proof.
  intros Hinit. destruct st as [[success tree] printed]. unfold check_file.
  destruct (if bool_decide (rel_path ≠ CopyrightConfig.license_file config)
            then _ else _) as [[last_change|] printed1]; [|left; by eexists].
  destruct (match CopyrightConfig.ignore_commits_before config with
            | Some before => lt last_change before
            | None => false
            end); [left; by eexists|].
  unfold read_text. destruct (OS.read_fails os rel_path) eqn:Hr;
    [right; split; [done|by left]|].
  cbn [bind]. destruct (tree !! rel_path) as [raw|];
    cbn [fmap option_fmap option_map]; [|left; by eexists].
  destruct (update_file_ok _ _ (universal_newlines raw) (year_of last_change)
              (year_of now) (Args.required args) Hinit) as (d & c & ->).
  cbn [bind]. destruct (truthy d).
  - destruct (Args.dry_run args); [left; by eexists|]. unfold write_text.
    destruct (OS.write_fails os rel_path) eqn:Hw; [right; split; [done|by right]|].
    left. by eexists.
  - destruct (Args.verbose args); left; by eexists.
Qed.

Lemma for_each_outcome tmpl last_repo last_modified_dict files st :
  YearsPattern.init tmpl = Ok (CopyrightConfig.pattern config) →
  (∃ st', for_each (check_file year_of lt os args config staged_changes now last_repo
                      last_modified_dict) files st = Ok st')
  ∨ (for_each (check_file year_of lt os args config staged_changes now last_repo
                 last_modified_dict) files st = Raise OSError
     ∧ ∃ rel_path, rel_path ∈ files
                   ∧ (OS.read_fails os rel_path = true
                      ∨ OS.write_fails os rel_path = true)).
Proof.
  intros Hinit. revert st. induction files as [|p files IH]; intros st;
    [left; by eexists|].
  cbn [for_each].
  destruct (check_file_outcome _ last_repo last_modified_dict st p Hinit)
    as [[st1 ->]|[-> Hp]]; cbn [bind].
  - destruct (IH st1) as [Hok|[Hraise (q & Hq & Hfail)]]; [by left|].
    right. split; [done|]. exists q. split; [by right|done].
  - right. split; [done|]. exists p. split; [by left|done].
Qed.

(** X20. With the pattern of a compiled template the run returns, unless the
    operating system refuses one of the files: the only exception that
    leaves the loop is the [OSError] of reading or writing a file, and it
    arises only if one of the files given cannot be read or cannot be
    written. *)
Theorem run_raises_only_OSError tmpl files repo_commits tree :
  YearsPattern.init tmpl = Ok (CopyrightConfig.pattern config) →
  (∃ r tree' printed,
     run_copyright_updater year_of lt os args files config repo_commits staged_changes
       now tree = Ok (r, tree', printed))
  ∨ (run_copyright_updater year_of lt os args files config repo_commits staged_changes
       now tree = Raise OSError
     ∧ ∃ rel_path, rel_path ∈ files
                   ∧ (OS.read_fails os rel_path = true
                      ∨ OS.write_fails os rel_path = true)).
Proof.
  intros Hinit. unfold run_copyright_updater.
  destruct (if GitChangeSet.to_bool staged_changes then _ else _) as [|newest commits];
    [left; by eexists _, _, _|].
  destruct (for_each_outcome _ (Some (author_date newest))
              (compute_last_modified_dict (newest :: commits)) files (true, tree, [])
              Hinit) as [[[[s t] pr] Hf]|[Hf Hfail]].
  - left. cbv zeta. rewrite Hf. cbn [bind]. by eexists _, _, _.
  - right. cbv zeta. rewrite Hf. by split.
Qed.

(** X21. A file with staged changes, and the license file when anything is
    staged, is checked against the current year whatever the history says,
    unless [ignore_commits_before] lies after [now]: on such a file that can
    be read, with a header that is not a range of one year, the run is clean
    exactly when the upper end of the header is the current year. *)
Theorem staged_file_checked_against_now rel_path repo_commits tree raw ys :
  GitChangeSet.to_bool staged_changes = true →
  rel_path ∈ GitChangeSet.changed_files staged_changes
  ∨ rel_path = CopyrightConfig.license_file config →
  (∀ before, CopyrightConfig.ignore_commits_before config = Some before →
             lt now before = false) →
  OS.read_fails os rel_path = false →
  tree !! rel_path = Some raw →
  YearsPattern.extract (CopyrightConfig.pattern config) (universal_newlines raw)
  = Some ys →
  non_degenerate ys →
  (∃ printed, run_copyright_updater year_of lt os args [rel_path] config repo_commits
                staged_changes now tree
              = Ok (false, tree, printed))
  ↔ year_upper ys = year_of now.
Proof.
  intros Hb Hp Hlt Hread Htree He Hnd. unfold run_copyright_updater. rewrite Hb.
  unfold commit_info. rewrite Hb. cbn [author_date for_each].
  set (commits := mkCommit now staged_changes :: repo_commits).
  unfold check_file.
  set (shown := if bool_decide (rel_path ≠ CopyrightConfig.license_file config)
                then _ else _).
  assert (Hs : shown.1 = Some now).
  { subst shown. case_bool_decide as Hl; [|done].
    destruct Hp as [Hp|Hp]; [|done]. simpl. by apply replay_changed. }
  destruct shown as [last_change printed1]. simpl in Hs. subst last_change.
  assert (Hi : match CopyrightConfig.ignore_commits_before config with
               | Some before => lt now before
               | None => false
               end = false).
  { destruct (CopyrightConfig.ignore_commits_before config) as [b|]; [by apply Hlt|done]. }
  rewrite Hi. unfold read_text. rewrite Hread, Htree.
  cbn [bind fmap option_fmap option_map].
  destruct (update_file _ _ _ _ _) as [[d c]|e] eqn:Hu; cbn [bind].
  - pose proof (update_file_accepts _ _ _ _ _ _ _ _ He Hnd Hu) as Hacc.
    destruct d as [d|].
    + rewrite (update_file_comment _ _ _ _ _ _ _ Hu). cbn [is_None].
      rewrite andb_false_r. split; [|intros Hy; by apply Hacc in Hy].
      intros [printed Hrun]. exfalso. revert Hrun.
      destruct (Args.dry_run args); cbn [bind]; [done|].
      unfold write_text. by destruct (OS.write_fails os rel_path).
    + apply update_file_unreported in Hu as ->. simpl.
      split; [intros _; by apply Hacc|]. intros _.
      destruct (Args.verbose args); simpl; by eexists.
  - split; [by intros [? ?]|]. intros Hy. exfalso.
    unfold update_file in Hu. rewrite He in Hu. unfold str_eqb in Hu.
    destruct ys as [y|f t]; simpl in *.
    + by rewrite bool_decide_eq_true_2 in Hu.
    + rewrite (bool_decide_eq_false_2 _ Hnd) in Hu.
      by rewrite bool_decide_eq_true_2 in Hu.
Qed.

End RunProperties.

Section RunVerbosity.
Context {path : Type} `{Countable path} {datetime : Type}.
Context (year_of : datetime → str) (lt : datetime → datetime → bool).
Context (os : OS.t (path := path)).
Context (config : CopyrightConfig.t (path := path) (datetime := datetime))
        (staged_changes : GitChangeSet.t (path := path)) (now : datetime).


Lemma diagnostics_print_verbose args m printed :
  is_diagnostic m = false →
  filter (is_diagnostic (path := path) (datetime := datetime))
    (print_verbose args m printed)
  = filter (is_diagnostic (path := path) (datetime := datetime)) printed.
Proof.
  intros Hm. unfold print_verbose, print. destruct (Args.verbose args); [|done].
  rewrite filter_app, filter_cons, decide_False, app_nil_r; [done|].
  rewrite Hm. intros [].
Qed.

Lemma check_file_silently args last_repo last_modified_dict st rel_path st' :
  check_file year_of lt os args config staged_changes now last_repo last_modified_dict
    st rel_path = Ok st' →
  check_file year_of lt os (Args.Build (Args.required args) false (Args.dry_run args))
    config staged_changes now last_repo last_modified_dict
    (st.1, filter (is_diagnostic (path := path) (datetime := datetime)) st.2) rel_path
  = Ok (st'.1, filter (is_diagnostic (path := path) (datetime := datetime)) st'.2).
Proof.
  destruct st as [[success tree] printed]. unfold check_file. simpl.
  set (shown := if bool_decide (rel_path ≠ CopyrightConfig.license_file config)
                then _ else _).
  set (shown0 := if bool_decide (rel_path ≠ CopyrightConfig.license_file config)
                 then _ else _).
  assert (Hs : shown0
               = (shown.1,
                  filter (is_diagnostic (path := path) (datetime := datetime)) shown.2)).
  { subst shown shown0.
    repeat case_bool_decide; simpl; by rewrite diagnostics_print_verbose. }
  rewrite Hs. clear Hs shown0. destruct shown as [last_change_datetime printed1].
  simpl. clear printed.
  destruct last_change_datetime as [last_change|];
    [|intros [= <-]; simpl; by rewrite diagnostics_print_verbose].
  destruct (match CopyrightConfig.ignore_commits_before config with
            | Some before => lt last_change before
            | None => false
            end); [intros [= <-]; simpl; by rewrite diagnostics_print_verbose|].
  unfold read_text. destruct (OS.read_fails os rel_path); [done|]. cbn [bind].
  destruct (tree !! rel_path) as [raw|]; cbn [fmap option_fmap option_map];
    [|intros [= <-]; simpl; by rewrite diagnostics_print_verbose].
  destruct (update_file _ _ _ _ _) as [[error_comment c]|e]; [|done].
  cbn [bind]. destruct (truthy error_comment).
  - assert (Hf : filter (is_diagnostic (path := path) (datetime := datetime))
                   (print (Diagnostic rel_path (default [] error_comment)) printed1)
                 = print (Diagnostic rel_path (default [] error_comment))
                     (filter (is_diagnostic (path := path) (datetime := datetime))
                        printed1)).
    { unfold print. by rewrite filter_app, filter_cons, decide_True. }
    destruct (Args.dry_run args); [intros [= <-]; simpl; by rewrite Hf|].
    unfold write_text. destruct (OS.write_fails os rel_path); [done|]. cbn [bind].
    intros [= <-]. simpl. by rewrite Hf.
  - destruct (Args.verbose args); intros [= <-]; simpl; [|done].
    by rewrite diagnostics_print_verbose.
Qed.

Lemma for_each_silently args last_repo last_modified_dict files st st' :
  for_each (check_file year_of lt os args config staged_changes now last_repo
              last_modified_dict) files st = Ok st' →
  for_each (check_file year_of lt os
              (Args.Build (Args.required args) false (Args.dry_run args))
              config staged_changes now last_repo last_modified_dict)
    files (st.1, filter (is_diagnostic (path := path) (datetime := datetime)) st.2)
  = Ok (st'.1, filter (is_diagnostic (path := path) (datetime := datetime)) st'.2).
Proof.
  revert st. induction files as [|p files IH]; intros st; cbn [for_each].
  - by intros [= <-].
  - destruct (check_file _ _ _ args _ _ _ _ _ st p) as [st1|e] eqn:Hc; [|done].
    cbn [bind]. intros Hf. rewrite (check_file_silently _ _ _ _ _ _ Hc). cbn [bind].
    by apply IH.
Qed.

(** X22. Verbosity changes what is printed and nothing else: the run without
    [--verbose] returns the same value, leaves the same files and prints
    exactly the filter (is_diagnostic (path := path) (datetime := datetime)) of the verbose run. *)
Theorem verbose_only_prints args files repo_commits tree r tree' printed :
  run_copyright_updater year_of lt os args files config repo_commits staged_changes
    now tree = Ok (r, tree', printed) →
  run_copyright_updater year_of lt os
    (Args.Build (Args.required args) false (Args.dry_run args))
    files config repo_commits staged_changes now tree
  = Ok (r, tree', filter (is_diagnostic (path := path) (datetime := datetime)) printed).
Proof.
  unfold run_copyright_updater.
  destruct (if GitChangeSet.to_bool staged_changes then _ else _) as [|newest commits].
  - intros [= <- <- <-]. unfold print_verbose, print. simpl.
    by destruct (Args.verbose args).
  - destruct (for_each _ _ _) as [[[s t] pr]|e] eqn:Hf; [|done]. simpl.
    intros [= <- <- <-]. apply for_each_silently in Hf. simpl in Hf.
    change (filter _ []) with (@nil (message (path := path) (datetime := datetime))) in Hf.
    by rewrite Hf.
Qed.

End RunVerbosity.

Lemma run_raises_only_OSError_witness :
  YearsPattern.init (lit "(c) {years} X") = Ok (CopyrightConfig.pattern example_config)
  ∧ ((∃ r tree' printed,
        run_copyright_updater example_year_of Nat.ltb example_os
          (Args.Build false false false) [1%nat] example_config example_commits
          nothing_staged 12%nat example_tree
        = Ok (r, tree', printed))
     ∨ (run_copyright_updater example_year_of Nat.ltb example_os
          (Args.Build false false false) [1%nat] example_config example_commits
          nothing_staged 12%nat example_tree
        = Raise OSError
        ∧ ∃ rel_path, rel_path ∈ [1%nat]
                      ∧ (OS.read_fails example_os rel_path = true
                         ∨ OS.write_fails example_os rel_path = true))).
Proof.
  split; [reflexivity|].
  apply (run_raises_only_OSError example_year_of Nat.ltb example_os
           (Args.Build false false false) example_config nothing_staged 12%nat
           (lit "(c) {years} X")).
  reflexivity.
Defined.

Lemma run_reports_iff_diagnostic_witness :
  run_copyright_updater example_year_of Nat.ltb example_os (Args.Build false false false)
    [1%nat] example_config example_commits nothing_staged 12%nat example_tree
  = Ok (true, {[1%nat := lit "(c) 2020-2024 X"]},
        [Diagnostic 1%nat (lit "expected year 2023, actual is 2020")])
  ∧ (true = true
     ↔ ∃ rel_path error_comment,
         Diagnostic (datetime := nat) rel_path error_comment
         ∈ [Diagnostic 1%nat (lit "expected year 2023, actual is 2020")]).
Proof.
  assert (Hrun : run_copyright_updater example_year_of Nat.ltb example_os
                   (Args.Build false false false) [1%nat] example_config
                   example_commits nothing_staged 12%nat example_tree
                 = Ok (true, {[1%nat := lit "(c) 2020-2024 X"]},
                       [Diagnostic 1%nat (lit "expected year 2023, actual is 2020")]))
    by (vm_compute; reflexivity).
  split; [exact Hrun|].
  exact (run_reports_iff_diagnostic _ _ _ _ _ _ _ _ _ _ _ _ _ Hrun).
Defined.

Lemma dry_run_never_writes_witness :
  Args.dry_run (Args.Build false false true) = true
  ∧ run_copyright_updater example_year_of Nat.ltb example_os (Args.Build false false true)
      [1%nat] example_config example_commits nothing_staged 12%nat example_tree
    = Ok (true, example_tree,
          [Diagnostic 1%nat (lit "expected year 2023, actual is 2020")])
  ∧ example_tree = example_tree.
Proof.
  assert (Hrun : run_copyright_updater example_year_of Nat.ltb example_os
                   (Args.Build false false true) [1%nat] example_config
                   example_commits nothing_staged 12%nat example_tree
                 = Ok (true, example_tree,
                       [Diagnostic 1%nat (lit "expected year 2023, actual is 2020")]))
    by (vm_compute; reflexivity).
  split; [reflexivity|]. split; [exact Hrun|].
  exact (dry_run_never_writes _ _ _ (Args.Build false false true) _ _ _ _ _ _ _ _ _
           eq_refl Hrun).
Defined.

Lemma clean_run_changes_nothing_witness :
  run_copyright_updater example_year_of Nat.ltb example_os (Args.Build true false false)
    [1%nat; 2%nat] example_config example_commits nothing_staged 12%nat
    {[1%nat := lit "(c) 2023 X"]}
  = Ok (false, {[1%nat := lit "(c) 2023 X"]}, [])
  ∧ ({[1%nat := lit "(c) 2023 X"]} : gmap nat str) = {[1%nat := lit "(c) 2023 X"]}.
Proof.
  assert (Hrun : run_copyright_updater example_year_of Nat.ltb example_os
                   (Args.Build true false false) [1%nat; 2%nat] example_config
                   example_commits nothing_staged 12%nat {[1%nat := lit "(c) 2023 X"]}
                 = Ok (false, {[1%nat := lit "(c) 2023 X"]}, []))
    by (vm_compute; reflexivity).
  split; [exact Hrun|].
  exact (clean_run_changes_nothing _ _ _ _ _ _ _ _ _ _ _ _ Hrun).
Defined.

Lemma run_writes_only_reported_files_witness :
  run_copyright_updater example_year_of Nat.ltb example_os (Args.Build false false false)
    [1%nat] example_config example_commits nothing_staged 12%nat example_tree
  = Ok (true, {[1%nat := lit "(c) 2020-2024 X"]},
        [Diagnostic 1%nat (lit "expected year 2023, actual is 2020")])
  ∧ (∀ rel_path,
       ({[1%nat := lit "(c) 2020-2024 X"]} : gmap nat str) !! rel_path
       ≠ example_tree !! rel_path →
       rel_path ∈ [1%nat] ∧ is_Some (example_tree !! rel_path)
       ∧ ∃ error_comment,
           Diagnostic (datetime := nat) rel_path error_comment
           ∈ [Diagnostic 1%nat (lit "expected year 2023, actual is 2020")])
  ∧ dom ({[1%nat := lit "(c) 2020-2024 X"]} : gmap nat str) = dom example_tree.
Proof.
  assert (Hrun : run_copyright_updater example_year_of Nat.ltb example_os
                   (Args.Build false false false) [1%nat] example_config
                   example_commits nothing_staged 12%nat example_tree
                 = Ok (true, {[1%nat := lit "(c) 2020-2024 X"]},
                       [Diagnostic 1%nat (lit "expected year 2023, actual is 2020")]))
    by (vm_compute; reflexivity).
  split; [exact Hrun|].
  exact (run_writes_only_reported_files _ _ _ _ _ _ _ _ _ _ _ _ _ Hrun).
Defined.

Lemma run_writes_current_year_witness :
  YearsPattern.init (lit "(c) {years} X") = Ok (CopyrightConfig.pattern example_config)
  ∧ plain_prefix (YearsPattern.prefix (lit "(c) {years} X"))
  ∧ digit_free (YearsPattern.suffix (lit "(c) {years} X"))
  ∧ closed_suffix (YearsPattern.suffix (lit "(c) {years} X"))
  ∧ year_field 1 (example_year_of 12)
  ∧ (OS.linesep example_os = [LF] ∨ OS.linesep example_os = [CR; LF])
  ∧ run_copyright_updater example_year_of Nat.ltb example_os
      (Args.Build false false false) [1%nat] example_config example_commits
      nothing_staged 12%nat {[1%nat := lit "(c) 2020 X" ++ [CR; LF]]}
    = Ok (true, {[1%nat := lit "(c) 2020-2024 X" ++ [LF]]},
          [Diagnostic 1%nat (lit "expected year 2023, actual is 2020")])
  ∧ ∀ rel_path raw',
      ({[1%nat := lit "(c) 2020-2024 X" ++ [LF]]} : gmap nat str) !! rel_path
      = Some raw' →
      ∃ raw, ({[1%nat := lit "(c) 2020 X" ++ [CR; LF]]} : gmap nat str) !! rel_path
             = Some raw
             ∧ (universal_newlines raw' = universal_newlines raw
                ∨ ∃ ys, YearsPattern.extract (CopyrightConfig.pattern example_config)
                          (universal_newlines raw') = Some ys
                        ∧ year_upper ys = example_year_of 12).
Proof.
  assert (Hpre : plain_prefix (YearsPattern.prefix (lit "(c) {years} X"))).
  { eexists. split; [vm_compute; reflexivity|]. by split. }
  assert (Hsuf : digit_free (YearsPattern.suffix (lit "(c) {years} X")))
    by (vm_compute; by repeat constructor).
  assert (Hcl : closed_suffix (YearsPattern.suffix (lit "(c) {years} X"))).
  { eexists. split; [vm_compute; reflexivity|]. done. }
  assert (Hy : year_field 1 (example_year_of 12)).
  { split; [vm_compute; lia|]. by repeat constructor. }
  assert (Hsep : OS.linesep example_os = [LF] ∨ OS.linesep example_os = [CR; LF])
    by (by left).
  assert (Hrun : run_copyright_updater example_year_of Nat.ltb example_os
                   (Args.Build false false false) [1%nat] example_config
                   example_commits nothing_staged 12%nat
                   {[1%nat := lit "(c) 2020 X" ++ [CR; LF]]}
                 = Ok (true, {[1%nat := lit "(c) 2020-2024 X" ++ [LF]]},
                       [Diagnostic 1%nat (lit "expected year 2023, actual is 2020")]))
    by (vm_compute; reflexivity).
  split; [reflexivity|]. split; [exact Hpre|]. split; [exact Hsuf|].
  split; [exact Hcl|]. split; [exact Hy|]. split; [exact Hsep|]. split; [exact Hrun|].
  exact (run_writes_current_year example_year_of Nat.ltb example_os
           (Args.Build false false false) example_config nothing_staged 12%nat
           (lit "(c) {years} X") _ _ _ _ _ _ eq_refl Hpre Hsuf Hcl Hy Hsep Hrun).
Defined.

Lemma staged_file_checked_against_now_witness :
  GitChangeSet.to_bool
    (GitChangeSet.Build (path := nat) [[lit "M"; lit "f"]] {[1%nat]} [] {[1%nat]}) = true
  ∧ (1%nat ∈ GitChangeSet.changed_files
               (GitChangeSet.Build (path := nat) [[lit "M"; lit "f"]] {[1%nat]} [] {[1%nat]})
     ∨ 1%nat = CopyrightConfig.license_file example_config)
  ∧ (∀ before, CopyrightConfig.ignore_commits_before example_config = Some before →
               Nat.ltb 12 before = false)
  ∧ OS.read_fails example_os 1%nat = false
  ∧ ({[1%nat := lit "(c) 2024 X"]} : gmap nat str) !! 1%nat = Some (lit "(c) 2024 X")
  ∧ YearsPattern.extract (CopyrightConfig.pattern example_config)
      (universal_newlines (lit "(c) 2024 X"))
    = Some (YSingle (lit "2024"))
  ∧ non_degenerate (YSingle (lit "2024"))
  ∧ ((∃ printed,
        run_copyright_updater example_year_of Nat.ltb example_os (Args.Build false false false)
          [1%nat] example_config example_commits
          (GitChangeSet.Build [[lit "M"; lit "f"]] {[1%nat]} [] {[1%nat]}) 12%nat
          {[1%nat := lit "(c) 2024 X"]}
        = Ok (false, {[1%nat := lit "(c) 2024 X"]}, printed))
     ↔ year_upper (YSingle (lit "2024")) = example_year_of 12).
Proof.
  assert (Hin : 1%nat ∈ GitChangeSet.changed_files
                  (GitChangeSet.Build (path := nat) [[lit "M"; lit "f"]]
                     {[1%nat]} [] {[1%nat]})
                ∨ 1%nat = CopyrightConfig.license_file example_config).
  { left. simpl. by apply elem_of_singleton. }
  assert (Hb : ∀ before,
             CopyrightConfig.ignore_commits_before example_config = Some before →
             Nat.ltb 12 before = false) by (intros before [=]).
  split; [reflexivity|]. split; [exact Hin|]. split; [exact Hb|].
  split; [reflexivity|]. split; [reflexivity|]. split; [reflexivity|].
  split; [exact I|].
  exact (staged_file_checked_against_now example_year_of Nat.ltb example_os
           (Args.Build false false false) example_config
           (GitChangeSet.Build [[lit "M"; lit "f"]] {[1%nat]} [] {[1%nat]})
           12%nat 1%nat example_commits {[1%nat := lit "(c) 2024 X"]}
           (lit "(c) 2024 X") (YSingle (lit "2024"))
           eq_refl Hin Hb eq_refl eq_refl eq_refl I).
Defined.

Lemma verbose_only_prints_witness :
  run_copyright_updater example_year_of Nat.ltb example_os (Args.Build false true false)
    [1%nat] example_config example_commits nothing_staged 12%nat example_tree
  = Ok (true, {[1%nat := lit "(c) 2020-2024 X"]},
        [CommittedAt 1%nat (Some 3%nat);
         Diagnostic 1%nat (lit "expected year 2023, actual is 2020")])
  ∧ run_copyright_updater example_year_of Nat.ltb example_os (Args.Build false false false)
      [1%nat] example_config example_commits nothing_staged 12%nat example_tree
    = Ok (true, {[1%nat := lit "(c) 2020-2024 X"]},
          filter is_diagnostic
            [CommittedAt 1%nat (Some 3%nat);
             Diagnostic 1%nat (lit "expected year 2023, actual is 2020")]).
Proof.
  assert (Hrun : run_copyright_updater example_year_of Nat.ltb example_os
                   (Args.Build false true false) [1%nat] example_config
                   example_commits nothing_staged 12%nat example_tree
                 = Ok (true, {[1%nat := lit "(c) 2020-2024 X"]},
                       [CommittedAt 1%nat (Some 3%nat);
                        Diagnostic 1%nat (lit "expected year 2023, actual is 2020")]))
    by (vm_compute; reflexivity).
  split; [exact Hrun|].
  exact (verbose_only_prints _ _ _ _ _ _ _ _ _ _ _ _ _ Hrun).
Defined.

(** ** The commits of the log *)

Lemma split_blank_nonempty s : split_blank s ≠ [].
Proof.
  destruct s as [|c [|d s]]; simpl; [done..|].
  destruct (Ascii.eqb c LF && Ascii.eqb d LF); [done|].
  by destruct (match s with [] => _ | _ => _ end).
Qed.

Lemma split_blank_cons c d s :
  split_blank (c :: d :: s)
  = if Ascii.eqb c LF && Ascii.eqb d LF then [] :: split_blank s
    else match split_blank (d :: s) with
         | h :: t => (c :: h) :: t
         | [] => [[c]]
         end.
Proof. done. Qed.

Lemma join_blank_cons b blocks :
  blocks ≠ [] → join_blank (b :: blocks) = b ++ LF :: LF :: join_blank blocks.
Proof. by destruct blocks. Qed.

Lemma join_blank_cons_head c h t : join_blank ((c :: h) :: t) = c :: join_blank (h :: t).
Proof. by destruct t. Qed.

(** The blocks, joined again, are the text that was split. *)
Lemma join_split_blank s : join_blank (split_blank s) = s.
Proof.
  assert (Hn : ∀ n s, length s ≤ n → join_blank (split_blank s) = s).
  { clear s. induction n as [|n IH]; intros s Hl.
    - by destruct s; [|simpl in Hl; lia].
    - destruct s as [|c [|d s]]; [done..|].
      rewrite split_blank_cons. destruct (Ascii.eqb c LF && Ascii.eqb d LF) eqn:E.
      + apply andb_true_iff in E as [->%Ascii.eqb_eq ->%Ascii.eqb_eq].
        rewrite join_blank_cons by apply split_blank_nonempty.
        rewrite IH; [done|]. simpl in Hl. lia.
      + pose proof (IH (d :: s) ltac:(simpl in *; lia)) as IHs.
        destruct (split_blank (d :: s)) as [|h t] eqn:Es.
        * by apply split_blank_nonempty in Es.
        * rewrite join_blank_cons_head. by f_equal. }
  by apply (Hn (length s)).
Qed.

Lemma split_on_app sep a b :
  split_on sep (a ++ sep :: b) = split_on sep a ++ split_on sep b.
Proof.
  induction a as [|c a IH]; cbn [app split_on].
  - by rewrite Ascii.eqb_refl.
  - destruct (Ascii.eqb c sep); [by rewrite IH|].
    rewrite IH. destruct (split_on sep a) as [|h t] eqn:Ea; [|done].
    pose proof (split_on_length sep a) as Hl. by rewrite Ea in Hl.
Qed.

(** The lines of the text are the lines of its blocks. *)
Lemma lines_join_blank (P : str → Prop) `{∀ x, Decision (P x)} blocks :
  ¬ P [] →
  filter P (split_on LF (join_blank blocks))
  = concat (map (λ b, filter P (split_on LF b)) blocks).
Proof.
  intros HP. induction blocks as [|b blocks IH].
  - simpl. by rewrite filter_cons_False.
  - destruct blocks as [|b' blocks].
    + simpl. by rewrite app_nil_r.
    + rewrite join_blank_cons by done. rewrite split_on_app, filter_app.
      cbn [map concat]. f_equal.
      change (LF :: join_blank (b' :: blocks)) with ([] ++ LF :: join_blank (b' :: blocks)).
      rewrite split_on_app, filter_app. cbn [split_on].
      rewrite filter_cons_False by done. rewrite filter_nil. simpl. apply IH.
Qed.

Lemma takewhile_drop {A} (p : A → bool) l :
  l = takewhile p l ++ drop (length (takewhile p l)) l.
Proof.
  induction l as [|x l IH]; [done|]. simpl. destruct (p x); [|done].
  simpl. by rewrite <- IH.
Qed.

Lemma takewhile_Forall {A} (p : A → bool) l : Forall (λ x, p x = true) (takewhile p l).
Proof.
  induction l as [|x l IH]; [done|]. simpl. destruct (p x) eqn:E; [|done].
  by constructor.
Qed.

Lemma removelast_last {A} (l : list A) x : last l = Some x → l = removelast l ++ [x].
Proof.
  induction l as [|y l IH]; [done|]. destruct l as [|z l].
  - by intros [= ->].
  - intros Hl. cbn [removelast]. rewrite <- app_comm_cons. f_equal. by apply IH.
Qed.

Lemma contains_tab_false line :
  contains [tab] line = false → length (split_on tab line) = 1.
Proof.
  induction line as [|c line IH]; [done|]. cbn [contains split_on].
  unfold startswith. cbn [strip_prefix]. rewrite Ascii.eqb_sym.
  destruct (Ascii.eqb c tab); [done|]. simpl. intros Hc.
  specialize (IH Hc). by destruct (split_on tab line) as [|h [|h' t]].
Qed.

Lemma filter_all {A} (P : A → Prop) `{∀ x, Decision (P x)} l :
  Forall P l → filter P l = l.
Proof.
  induction 1 as [|x l Hx _ IH]; [done|]. by rewrite filter_cons_True, IH.
Qed.

Lemma filter_none {A} (P : A → Prop) `{∀ x, Decision (P x)} l :
  Forall (λ x, ¬ P x) l → filter P l = [].
Proof.
  induction 1 as [|x l Hx _ IH]; [done|]. by rewrite filter_cons_False, IH.
Qed.

Section LogProperties.
Context {path : Type} `{Countable path} {datetime : Type}.
Context (PurePath : str → path) (fromisoformat : str → result datetime).
#[local] Arguments lit : simpl never.


Lemma parse_lines lines cs :
  GitChangeSet.parse PurePath (LinesList lines) = Ok cs →
  GitChangeSet.items cs
  = map (split_on tab) (filter (λ line, GitChangeSet.nonempty line = true) lines)
  ∧ ∀ line, line ∈ lines → GitChangeSet.nonempty line = true →
            contains [tab] line = true.
Proof.
  unfold GitChangeSet.parse, GitChangeSet.init.
  set (its := map (split_on tab) _).
  destruct (GitChangeSet.post_init_loop PurePath (∅, [], ∅) its)
    as [[[changed moved] touched]|e] eqn:Hloop; [|done].
  intros [= <-]. split; [done|]. intros line Hin Hne.
  assert (Hok : ∃ st', GitChangeSet.post_init_loop PurePath (∅, [], ∅) its = Ok st')
    by by eexists.
  pose proof (proj1 (post_init_loop_ok PurePath its _) Hok) as Hall.
  destruct (Hall (split_on tab line)) as [Hlen _].
  { apply list_elem_of_fmap. exists line. split; [done|].
    by apply list_elem_of_filter. }
  destruct (contains [tab] line) eqn:Hc; [done|].
  apply contains_tab_false in Hc. lia.
Qed.

Lemma group_lines_app l1 l2 groups :
  group_lines l2 = ([], groups) →
  group_lines (l1 ++ l2) = ((group_lines l1).1, (group_lines l1).2 ++ groups).
Proof.
  intros H2. induction l1 as [|line l1 IH]; [done|].
  cbn [app group_lines]. rewrite IH. destruct (group_lines l1) as [records gs].
  simpl. by destruct (contains [tab] line).
Qed.

Lemma group_lines_records l :
  Forall (λ line, contains [tab] line = true) l → group_lines l = (l, []).
Proof.
  induction 1 as [|line l Hl _ IH]; [done|]. cbn [group_lines]. by rewrite IH, Hl.
Qed.

Lemma group_lines_timestamps ts t records :
  Forall (λ line, contains [tab] line = false) (ts ++ [t]) →
  Forall (λ line, contains [tab] line = true) records →
  group_lines (ts ++ t :: records)
  = ([], map (λ line, (line, [])) ts ++ [(t, records)]).
Proof.
  intros Hts Hr. induction ts as [|line ts IH].
  - apply Forall_cons in Hts as [Ht _]. cbn [app group_lines map].
    by rewrite group_lines_records, Ht.
  - apply Forall_cons in Hts as [Hl Hts]. cbn [app group_lines map].
    by rewrite IH, Hl.
Qed.

Lemma append_extras ts : ∀ commits commits',
  for_each (GitRepository.append_extra fromisoformat) ts commits = Ok commits' →
  ∃ extras, commits' = commits ++ extras
            ∧ Forall2 (reads_group (path := path) fromisoformat)
                (map (λ line, (line, [])) ts) extras.
Proof.
  induction ts as [|line ts IH]; intros commits commits'; cbn [for_each].
  - intros [= <-]. exists []. rewrite app_nil_r. split; [done|constructor].
  - unfold GitRepository.append_extra at 1, GitRepository.commit_info_str.
    destruct (fromisoformat line) as [d|e] eqn:Hd; [|done]. cbn [bind].
    intros Hf. apply IH in Hf as (extras & -> & Hread).
    exists (commit_info d None :: extras). rewrite <- app_assoc. split; [done|].
    cbn [map]. by constructor.
Qed.

Lemma commit_info_items (d : datetime) (cs : GitChangeSet.t (path := path)) :
  commit_items (commit_info d (Some cs)) = GitChangeSet.items cs.
Proof.
  unfold commit_items, commit_info, GitChangeSet.to_bool. simpl.
  by destruct (GitChangeSet.items cs) eqn:E.
Qed.

(** The lines of a block, as the loop body cuts them. *)
Lemma block_lines_cut block :
  let ts := takewhile (λ p, negb (contains [tab] p)) (log_lines block) in
  log_lines block = ts ++ drop (length ts) (log_lines block)
  ∧ Forall (λ line, contains [tab] line = false) ts
  ∧ Forall (λ line, GitChangeSet.nonempty line = true)
      (drop (length ts) (log_lines block)).
Proof.
  intros ts. split; [apply takewhile_drop|]. split.
  - eapply Forall_impl; [apply takewhile_Forall|]. intros line. by apply negb_true_iff.
  - apply Forall_drop. apply Forall_forall. intros line Hin.
    by apply list_elem_of_filter in Hin as [? _].
Qed.

(** One block: the commits it adds read the groups of its lines. *)
Lemma commits_block_ok commits block commits' :
  GitRepository.commits_block PurePath fromisoformat commits block = Ok commits' →
  ∃ new, commits' = commits ++ new
         ∧ ∃ groups, group_lines (log_lines block) = ([], groups)
                     ∧ Forall2 (reads_group (path := path) fromisoformat) groups new.
Proof.
  unfold GitRepository.commits_block.
  destruct block as [|b block']; cbn [GitChangeSet.nonempty negb].
  { intros [= <-]. exists []. rewrite app_nil_r. split; [done|].
    exists []. split; [done|constructor]. }
  fold (log_lines (b :: block')).
  destruct (block_lines_cut (b :: block')) as (Hsplit & Hts & Hne).
  set (block_lines := log_lines (b :: block')) in *.
  set (ts := takewhile _ block_lines) in *.
  destruct (for_each _ (removelast ts) commits) as [commits1|e] eqn:Hex; [|done].
  cbn [bind]. apply append_extras in Hex as (extras & -> & Hread).
  destruct (last ts) as [commit_datetime|] eqn:Hlast; [|done].
  destruct (GitChangeSet.parse _ _) as [cs|e] eqn:Hparse; [|done]. cbn [bind].
  unfold GitRepository.commit_info_str.
  destruct (fromisoformat commit_datetime) as [d|e] eqn:Hd; [|done]. cbn [bind].
  intros [= <-]. exists (extras ++ [commit_info d (Some cs)]).
  rewrite app_assoc. split; [done|].
  apply parse_lines in Hparse as [Hits Htabs].
  set (change_lines := drop (length ts) block_lines) in *.
  assert (Hch : Forall (λ line, contains [tab] line = true) change_lines).
  { apply Forall_forall. intros line Hin. apply Htabs; [done|].
    by apply (proj1 (Forall_forall _ _) Hne). }
  rewrite (removelast_last _ _ Hlast) in Hsplit, Hts.
  eexists. split.
  - rewrite Hsplit, <- app_assoc. cbn [app]. by apply group_lines_timestamps.
  - apply Forall2_app; [done|]. constructor; [|constructor]. split; [done|].
    cbn [snd]. rewrite commit_info_items, Hits.
    by rewrite (filter_all (λ line, GitChangeSet.nonempty line = true) change_lines).
Qed.

Lemma for_each_commits_block blocks : ∀ commits commits',
  for_each (GitRepository.commits_block PurePath fromisoformat) blocks commits
  = Ok commits' →
  ∃ new, commits' = commits ++ new
         ∧ ∃ groups, group_lines (concat (map log_lines blocks)) = ([], groups)
                     ∧ Forall2 (reads_group (path := path) fromisoformat) groups new.
Proof.
  induction blocks as [|block blocks IH]; intros commits commits'; cbn [for_each].
  - intros [= <-]. exists []. rewrite app_nil_r. split; [done|].
    exists []. split; [done|constructor].
  - destruct (GitRepository.commits_block _ _ commits block) as [commits1|e] eqn:Hb;
      [|done].
    cbn [bind]. intros Hf.
    apply commits_block_ok in Hb as (new1 & -> & groups1 & Hg1 & Hr1).
    apply IH in Hf as (new2 & -> & groups2 & Hg2 & Hr2).
    exists (new1 ++ new2). rewrite app_assoc. split; [done|].
    exists (groups1 ++ groups2). cbn [map concat]. split.
    + rewrite (group_lines_app _ _ _ Hg2), Hg1. done.
    + by apply Forall2_app.
Qed.

Lemma log_lines_blocks log :
  concat (map log_lines (split_blank log)) = log_lines log.
Proof.
  unfold log_lines.
  rewrite <- (lines_join_blank (λ line, GitChangeSet.nonempty line = true)) by done.
  by rewrite join_split_blank.
Qed.

(** X23. When the log is parsed, the blank lines play no part: the commits
    are, in order, one for each non-empty line without a tab, dated by that
    line, and each carries as its records exactly the lines with a tab that
    follow that line, up to the next line without a tab, split at the tabs.
    No line with a tab stands in front of the first line without one. *)
Theorem commits_read_groups log commits :
  GitRepository.commits PurePath fromisoformat false log = Ok commits →
  ∃ groups, group_lines (log_lines log) = ([], groups)
            ∧ Forall2 (reads_group (path := path) fromisoformat) groups commits.
Proof.
  unfold GitRepository.commits. intros Hf.
  apply for_each_commits_block in Hf as (new & -> & groups & Hg & Hr).
  rewrite log_lines_blocks in Hg. by exists groups.
Qed.

Lemma takewhile_app {A} (p : A → bool) l1 l2 :
  Forall (λ x, p x = true) l1 → Forall (λ x, p x = false) l2 →
  takewhile p (l1 ++ l2) = l1.
Proof.
  intros H1 H2. induction H1 as [|x l1 Hx _ IH]; simpl.
  - destruct H2 as [|y l2 Hy _]; [done|]. simpl. by rewrite Hy.
  - by rewrite Hx, IH.
Qed.

Lemma append_extras_ok ts commits :
  Forall (λ line, ∃ d, fromisoformat line = Ok d) ts →
  ∃ commits', for_each (GitRepository.append_extra (path := path) fromisoformat)
                ts commits = Ok commits'.
Proof.
  intros Hts. revert commits. induction Hts as [|line ts [d Hd] _ IH]; intros commits.
  - by eexists.
  - cbn [for_each]. unfold GitRepository.append_extra at 1,
      GitRepository.commit_info_str. rewrite Hd. cbn [bind]. apply IH.
Qed.

(** Whether a block is read does not depend on the commits gathered so
    far. *)
Lemma commits_block_ok_iff commits block :
  (∃ commits', GitRepository.commits_block PurePath fromisoformat commits block
               = Ok commits')
  ↔ block = [] ∨ readable_block PurePath fromisoformat block.
Proof.
  split.
  - intros [commits' Hb]. destruct block as [|b block']; [by left|]. right.
    revert Hb. unfold GitRepository.commits_block. cbn [GitChangeSet.nonempty negb].
    fold (log_lines (b :: block')).
    destruct (block_lines_cut (b :: block')) as (Hsplit & Hts & Hne).
    set (block_lines := log_lines (b :: block')) in *.
    set (ts := takewhile _ block_lines) in *.
    destruct (for_each _ (removelast ts) commits) as [commits1|e] eqn:Hex; [|done].
    cbn [bind]. apply append_extras in Hex as (extras & -> & Hread).
    destruct (last ts) as [commit_datetime|] eqn:Hlast; [|done].
    destruct (GitChangeSet.parse _ _) as [cs|e] eqn:Hparse; [|done]. cbn [bind].
    unfold GitRepository.commit_info_str.
    destruct (fromisoformat commit_datetime) as [d|e] eqn:Hd; [|done]. intros _.
    exists ts, (drop (length ts) block_lines). split; [done|]. split.
    { intros Hnil. by rewrite Hnil in Hlast. }
    split; [|by exists cs].
    rewrite (removelast_last _ _ Hlast) in Hts |- *.
    apply Forall_app in Hts as [Hts Hl]. apply Forall_app. split.
    + apply Forall_forall. intros line Hin. split.
      * by apply (proj1 (Forall_forall _ _) Hts).
      * apply (list_elem_of_fmap_2 (λ line, (line, @nil str))) in Hin.
        apply list_elem_of_lookup in Hin as [i Hi].
        destruct (Forall2_lookup_l _ _ _ _ _ Hread Hi) as (c & _ & [Hc _]).
        by exists (author_date c).
    + constructor; [|constructor]. apply Forall_cons in Hl as [Hl _].
      split; [done|by exists d].
  - intros [->|(ts & chs & Hsplit & Hne & Hts & cs & Hparse)]; [by eexists|].
    unfold GitRepository.commits_block.
    destruct block as [|b block']; [by eexists|]. cbn [GitChangeSet.nonempty negb].
    fold (log_lines (b :: block')). rewrite Hsplit.
    assert (Hch : Forall (λ line, contains [tab] line = true) chs).
    { apply parse_lines in Hparse as [_ Htabs].
      apply Forall_forall. intros line Hin. apply Htabs; [done|].
      assert (Hin' : line ∈ log_lines (b :: block'))
        by (rewrite Hsplit; apply elem_of_app; by right).
      by apply list_elem_of_filter in Hin' as [? _]. }
    rewrite (takewhile_app (λ p, negb (contains [tab] p)) ts chs).
    2:{ eapply Forall_impl; [exact Hts|]. intros line [-> _]. done. }
    2:{ eapply Forall_impl; [exact Hch|]. intros line ->. done. }
    rewrite drop_app_length.
    destruct (last ts) as [t|] eqn:Hlast; [|by destruct ts using rev_ind;
                                             [|rewrite last_snoc in Hlast]].
    rewrite (removelast_last _ _ Hlast) in Hts.
    apply Forall_app in Hts as [Hts Hl]. apply Forall_cons in Hl as [[_ [d Hd]] _].
    destruct (append_extras_ok (removelast ts) commits) as [commits1 ->].
    { eapply Forall_impl; [exact Hts|]. by intros line [_ ?]. }
    cbn [bind]. rewrite Hparse. cbn [bind].
    unfold GitRepository.commit_info_str. rewrite Hd. cbn [bind]. by eexists.
Qed.

Lemma for_each_commits_block_ok blocks : ∀ commits,
  (∃ commits', for_each (GitRepository.commits_block PurePath fromisoformat)
                 blocks commits = Ok commits')
  ↔ ∀ block, block ∈ blocks → block ≠ [] → readable_block PurePath fromisoformat block.
Proof.
  induction blocks as [|block blocks IH]; intros commits; cbn [for_each].
  - split; [|by eexists]. intros _ block Hin. by apply elem_of_nil in Hin.
  - split.
    + intros [commits' Hf] b Hin Hne.
      destruct (GitRepository.commits_block _ _ commits block) as [commits1|e] eqn:Hb;
        [|done].
      cbn [bind] in Hf. apply elem_of_cons in Hin as [->|Hin].
      * destruct (proj1 (commits_block_ok_iff commits block)) as [?|?];
          [by eexists|done..].
      * apply (proj1 (IH commits1)); [by eexists|done..].
    + intros Hall.
      destruct (proj2 (commits_block_ok_iff commits block)) as [commits1 ->].
      { destruct block as [|b block']; [by left|]. right.
        apply Hall; [by left|done]. }
      cbn [bind]. apply IH. intros b Hin. apply Hall. by right.
Qed.

(** X24. The log is parsed exactly when each of its non-empty blocks (the
    parts between blank lines) begins with one or more lines without a tab,
    each of them an ISO date, and goes on with lines that parse as a change
    set.  A block that begins with a change line makes the call fail. *)
Theorem commits_succeeds_iff log :
  (∃ commits, GitRepository.commits PurePath fromisoformat false log = Ok commits)
  ↔ ∀ block, block ∈ split_blank log → block ≠ [] →
             readable_block PurePath fromisoformat block.
Proof. unfold GitRepository.commits. apply for_each_commits_block_ok. Qed.

End LogProperties.

Lemma commits_read_groups_witness :
  ∃ commits,
    GitRepository.commits (λ s : str, s) example_fromisoformat false example_log
    = Ok commits
    ∧ ∃ groups, group_lines (log_lines example_log) = ([], groups)
                ∧ Forall2 (reads_group example_fromisoformat) groups commits.
Proof.
  assert (Hc : ∃ commits,
             GitRepository.commits (λ s : str, s) example_fromisoformat false example_log
             = Ok commits) by (eexists; vm_compute; reflexivity).
  destruct Hc as [commits Hc]. exists commits. split; [exact Hc|].
  exact (commits_read_groups _ _ _ _ Hc).
Defined.

(** ** Files the run passes over *)

Section RunIgnored.
Context {path : Type} `{Countable path} {datetime : Type}.
Context (year_of : datetime → str) (lt : datetime → datetime → bool).
Context (os : OS.t (path := path)).
Context (args : Args.t)
        (config : CopyrightConfig.t (path := path) (datetime := datetime))
        (staged_changes : GitChangeSet.t (path := path)) (now : datetime).


Lemma check_file_spares last_repo last_modified_dict st x st' rel_path :
  passed_over lt config last_modified_dict rel_path →
  check_file year_of lt os args config staged_changes now last_repo last_modified_dict
    st x = Ok st' →
  spared rel_path st st'.
Proof.
  intros [Hlic Hpass] Hc. destruct (decide (x = rel_path)) as [->|Hne].
  - destruct st as [[success tree] printed]. revert Hc. unfold check_file.
    rewrite bool_decide_eq_true_2 by done. cbv beta iota.
    assert (Hquiet : ∀ (m : message (path := path) (datetime := datetime)) pr d,
              is_diagnostic m = false →
              Diagnostic rel_path d ∈ print_verbose args m pr →
              Diagnostic rel_path d ∈ pr).
    { intros m pr d Hm. unfold print_verbose, print.
      destruct (Args.verbose args); [|done].
      intros [Hin|Hin%list_elem_of_singleton]%elem_of_app; [done|]. by subst m. }
    set (printed1 := if bool_decide (rel_path ∉ GitChangeSet.changed_files staged_changes)
                     then _ else _).
    assert (Hp1 : ∀ d, Diagnostic rel_path d ∈ printed1 → Diagnostic rel_path d ∈ printed).
    { subst printed1. intros d. case_bool_decide; by apply Hquiet. }
    destruct Hpass as [->|(lc & before & -> & -> & ->)]; intros [= <-];
      (split; [done|]); intros d Hin; simpl in Hin;
      (apply Hquiet in Hin; [by apply Hp1|done]).
  - apply check_file_turn in Hc.
    destruct Hc as [s t pr new Hnew|s t pr new content lc d c Htree Hu Hnew];
      unfold spared; simpl.
    + split; [done|]. intros d [Hin|Hin]%elem_of_app; [done|].
      assert (Hf : Diagnostic rel_path d
                   ∈ filter (is_diagnostic (path := path) (datetime := datetime)) new)
        by (by apply list_elem_of_filter).
      rewrite Hnew in Hf. by apply not_elem_of_nil in Hf.
    + split.
      * destruct (Args.dry_run args); [done|]. by rewrite lookup_insert_ne.
      * intros d' [Hin|Hin]%elem_of_app; [done|].
        assert (Hf : Diagnostic rel_path d'
                     ∈ filter (is_diagnostic (path := path) (datetime := datetime)) new)
          by (by apply list_elem_of_filter).
        rewrite Hnew in Hf. apply list_elem_of_singleton in Hf. congruence.
Qed.

Lemma for_each_spares last_repo last_modified_dict files st st' rel_path :
  passed_over lt config last_modified_dict rel_path →
  for_each (check_file year_of lt os args config staged_changes now last_repo
              last_modified_dict) files st = Ok st' →
  spared rel_path st st'.
Proof.
  intros Hpass. revert st. induction files as [|x files IH]; intros st; cbn [for_each].
  - intros [= <-]. by split.
  - destruct (check_file year_of lt os args config staged_changes now _ _ st x)
      as [st1|e] eqn:Hc; [|done].
    cbn [bind]. intros Hf.
    apply (check_file_spares _ _ _ _ _ _ Hpass) in Hc as [Ht1 Hd1].
    apply IH in Hf as [Ht2 Hd2]. split; [congruence|].
    intros d Hin. by apply Hd1, Hd2.
Qed.

(** X25. A file whose last change is unknown to the replayed history, or
    lies before [ignore_commits_before], is passed over: the run neither
    changes it nor prints a diagnostic for it.  (The license file apart,
    which goes by the date of the newest commit.) *)
Theorem run_passes_over files repo_commits tree r tree' printed rel_path :
  passed_over lt config
    (compute_last_modified_dict (replayed_commits staged_changes now repo_commits))
    rel_path →
  run_copyright_updater year_of lt os args files config repo_commits staged_changes
    now tree = Ok (r, tree', printed) →
  tree' !! rel_path = tree !! rel_path
  ∧ ∀ error_comment, Diagnostic rel_path error_comment ∉ printed.
Proof.
  unfold run_copyright_updater. fold (replayed_commits staged_changes now repo_commits).
  intros Hpass.
  destruct (replayed_commits staged_changes now repo_commits) as [|newest commits].
  - intros [= <- <- <-]. split; [done|]. intros d. unfold print_verbose, print.
    destruct (Args.verbose args); [|apply not_elem_of_nil].
    intros Hin%list_elem_of_singleton. done.
  - destruct (for_each _ _ _) as [[[s t] pr]|e] eqn:Hf; [|done]. cbn [bind].
    intros [= <- <- <-].
    apply (for_each_spares _ _ _ _ _ _ Hpass) in Hf as [Ht Hd]. split; [done|].
    intros d Hin. apply Hd in Hin. by apply not_elem_of_nil in Hin.
Qed.

End RunIgnored.

Lemma run_passes_over_witness :
  passed_over Nat.ltb example_config
    (compute_last_modified_dict (replayed_commits nothing_staged 12%nat example_commits))
    2%nat
  ∧ run_copyright_updater example_year_of Nat.ltb example_os (Args.Build true false false)
      [2%nat] example_config example_commits nothing_staged 12%nat
      {[2%nat := lit "(c) 2020 X"]}
    = Ok (false, {[2%nat := lit "(c) 2020 X"]}, [])
  ∧ ({[2%nat := lit "(c) 2020 X"]} : gmap nat str) !! 2%nat
    = ({[2%nat := lit "(c) 2020 X"]} : gmap nat str) !! 2%nat
  ∧ ∀ error_comment, Diagnostic (datetime := nat) 2%nat error_comment ∉ [].
Proof.
  assert (Hp : passed_over Nat.ltb example_config
                 (compute_last_modified_dict
                    (replayed_commits nothing_staged 12%nat example_commits)) 2%nat).
  { split; [done|]. left. vm_compute. reflexivity. }
  assert (Hrun : run_copyright_updater example_year_of Nat.ltb example_os
                   (Args.Build true false false) [2%nat] example_config
                   example_commits nothing_staged 12%nat {[2%nat := lit "(c) 2020 X"]}
                 = Ok (false, {[2%nat := lit "(c) 2020 X"]}, []))
    by (vm_compute; reflexivity).
  split; [exact Hp|]. split; [exact Hrun|].
  exact (run_passes_over _ _ _ _ _ _ _ _ _ _ _ _ _ _ Hp Hrun).
Defined.

(** ** The configuration *)

Section ConfigProperties.
Context {path datetime naive date other : Type}.
Context (PurePath : str → path)
        (replace_utc : naive → datetime) (combine_utc : date → datetime).
Context (py_str : CopyrightConfig.value (datetime := datetime) (naive := naive)
                    (date := date) (other := other) → str).
#[local] Arguments lit : simpl never.

(** X26. The configuration is accepted exactly when [ignore_commits_before]
    is absent, null, a datetime or a date, [pattern] is a string that
    contains the placeholder, and [license_file] is absent or a string. *)
Theorem config_accepted_iff raw :
  (∃ config, CopyrightConfig.init PurePath replace_utc combine_utc py_str raw = Ok config)
  ↔ (∀ v, raw !! (lit "ignore_commits_before") = Some v →
          CopyrightConfig.timestamp_or_null v)
    ∧ (∃ s, raw !! (lit "pattern") = Some (CopyrightConfig.VStr s)
            ∧ contains YearsPattern.placeholder s = true)
    ∧ (∀ v, raw !! (lit "license_file") = Some v → ∃ s, v = CopyrightConfig.VStr s).
Proof.
  unfold CopyrightConfig.init, CopyrightConfig._get.
  destruct (raw !! (lit "ignore_commits_before")) as [v1|];
    [destruct v1; cbn [CopyrightConfig.isinstance CopyrightConfig._parse_datetime bind]|
     cbn [bind]].
  all: destruct (raw !! (lit "pattern")) as [v2|];
    [destruct v2; cbn [CopyrightConfig.isinstance bind]|cbn [bind]].
  all: try (unfold YearsPattern.init;
            destruct (contains YearsPattern.placeholder s) eqn:Hc; cbn [negb bind]).
  all: destruct (raw !! (lit "license_file")) as [v3|];
    [destruct v3; cbn [CopyrightConfig.isinstance bind]|cbn [bind]].
  all: split;
    [ intros [config Hc']; try discriminate Hc';
      (split; [intros ? [= <-]; exact I|]);
      (split; [by eexists|]); intros ? [= <-]; by eexists
    | intros (H1 & (s' & H2 & H3) & H4); try discriminate H2;
      try (injection H2 as <-; congruence);
      try (by destruct (H1 _ eq_refl));
      try (by destruct (H4 _ eq_refl) as [? [=]]);
      by eexists ].
Qed.

(** X27. The fields of an accepted configuration: [ignore_commits_before]
    is the datetime made of the value, with UTC where the value has no time
    zone, or [None] when the key is absent or null; [pattern] is the compiled
    string of the key [pattern]; [license_file] is the path of the string of
    the key, or [LICENSE] when the key is absent. *)
Theorem config_fields raw config :
  CopyrightConfig.init PurePath replace_utc combine_utc py_str raw = Ok config →
  CopyrightConfig.ignore_commits_before config
  = raw !! (lit "ignore_commits_before")
    ≫= CopyrightConfig.as_datetime replace_utc combine_utc
  ∧ (∃ s, raw !! (lit "pattern") = Some (CopyrightConfig.VStr s)
          ∧ YearsPattern.init s = Ok (CopyrightConfig.pattern config))
  ∧ CopyrightConfig.license_file config
    = match raw !! (lit "license_file") with
      | Some (CopyrightConfig.VStr s) => PurePath s
      | _ => PurePath (lit "LICENSE")
      end.
Proof.
  unfold CopyrightConfig.init, CopyrightConfig._get.
  destruct (raw !! (lit "ignore_commits_before")) as [v1|];
    [destruct v1; cbn [CopyrightConfig.isinstance CopyrightConfig._parse_datetime bind]|
     cbn [bind]]; try done.
  all: destruct (raw !! (lit "pattern")) as [v2|];
    [destruct v2; cbn [CopyrightConfig.isinstance bind]|cbn [bind]]; try done.
  all: destruct (YearsPattern.init s) as [pat|e] eqn:Hp; cbn [bind]; try done.
  all: destruct (raw !! (lit "license_file")) as [v3|];
    [destruct v3; cbn [CopyrightConfig.isinstance bind]|cbn [bind]]; try done.
  all: intros [= <-]; split; [done|]; split; [by eexists|done].
Qed.

(** X28. Whatever the constructor raises is a [ValueError]. *)
Theorem config_raises_value_error raw e :
  CopyrightConfig.init PurePath replace_utc combine_utc py_str raw = Raise e →
  ∃ msg, e = ValueError msg.
Proof.
  unfold CopyrightConfig.init, CopyrightConfig._get.
  destruct (raw !! (lit "ignore_commits_before")) as [v1|];
    [destruct v1; cbn [CopyrightConfig.isinstance CopyrightConfig._parse_datetime bind]|
     cbn [bind]]; try (intros [= <-]; by eexists).
  all: destruct (raw !! (lit "pattern")) as [v2|];
    [destruct v2; cbn [CopyrightConfig.isinstance bind]|cbn [bind]];
    try (intros [= <-]; by eexists).
  all: unfold YearsPattern.init;
    destruct (contains YearsPattern.placeholder s); cbn [negb bind];
    try (intros [= <-]; by eexists).
  all: destruct (raw !! (lit "license_file")) as [v3|];
    [destruct v3; cbn [CopyrightConfig.isinstance bind]|cbn [bind]];
    try done; intros [= <-]; by eexists.
Qed.

End ConfigProperties.

Lemma config_fields_witness :
  ∃ config,
    example_init example_raw = Ok config
    ∧ CopyrightConfig.ignore_commits_before config
      = example_raw !! (lit "ignore_commits_before")
        ≫= CopyrightConfig.as_datetime (λ d : nat, d) (λ d : nat, d * 24)%nat
    ∧ (∃ s, example_raw !! (lit "pattern") = Some (CopyrightConfig.VStr s)
            ∧ YearsPattern.init s = Ok (CopyrightConfig.pattern config))
    ∧ CopyrightConfig.license_file config
      = match example_raw !! (lit "license_file") with
        | Some (CopyrightConfig.VStr s) => s
        | _ => lit "LICENSE"
        end.
Proof.
  assert (Hc : ∃ config, example_init example_raw = Ok config)
    by (eexists; vm_compute; reflexivity).
  destruct Hc as [config Hc]. exists config. split; [exact Hc|].
  exact (config_fields _ _ _ _ _ _ Hc).
Defined.

Lemma config_raises_value_error_witness :
  example_init {[lit "license_file" := CopyrightConfig.VStr (lit "COPYING")]}
  = Raise (ValueError (lit "missing `pattern` in config"))
  ∧ ∃ msg, ValueError (lit "missing `pattern` in config") = ValueError msg.
Proof.
  assert (Hc : example_init {[lit "license_file" := CopyrightConfig.VStr (lit "COPYING")]}
               = Raise (ValueError (lit "missing `pattern` in config")))
    by (vm_compute; reflexivity).
  split; [exact Hc|].
  exact (config_raises_value_error _ _ _ _ _ _ Hc).
Defined.
